(** * zscripts/publish.py: a shallow embedding and its verified properties

    The release script is sequential orchestration: it resolves the
    repository root, optionally bumps [<Version>x.y.z</Version>] in the
    project manifests, builds, packs, pushes and finally commits.

    Modelling conventions.
    - A Python [str] is a Rocq [string]; a character is its code point,
      restricted to the range 0..255.  Character classes ([str.isspace],
      [\s], [\d], [str.lower]) are the Unicode ones cut down to that range.
    - A Python [int] is a [Z]; the interpreter's configurable bound on the
      length of decimal conversions is not modelled.
    - A [pathlib.Path] is the list of its components, innermost first, so
      that [.parent] is the tail of the list (POSIX flavour, absolute).
    - The file system maps a path to the content stored for it.  A file is
      read in text mode, so what the script sees of it is its content with
      the line ends [CR LF] and [CR] turned into [LF]; it is written with
      [newline="\n"], so what is stored is the text as given.
    - The file system has no symbolic links: two distinct paths never name
      one file, and [Path.resolve()] is the identity on the paths of the
      model.
    - The file system, the two output streams and the sequence of
      effects performed by the script are threaded through a state and
      exception monad; external tools are an opaque transition on the file
      system that yields an exit status (a tool that cannot be started or
      is killed by a signal is not modelled). *)

From Stdlib Require Import ZArith Ascii String List Bool Lia.
From stdpp Require Import gmap strings list sorting.

Local Open Scope Z_scope.

(** ** Python strings *)

Module Py.

Definition code (c : ascii) : nat := nat_of_ascii c.

Definition between (lo hi n : nat) : bool := (lo <=? n)%nat && (n <=? hi)%nat.

(** [str.isspace] on one character (Py_UNICODE_ISSPACE), code points < 256. *)
Definition isspace (c : ascii) : bool :=
  let n := code c in
  between 9 13 n || between 28 32 n || (n =? 133)%nat || (n =? 160)%nat.

(** The white space [int()] skips: the C locale one plus the two non-ASCII
    spaces, which it first rewrites to a blank. *)
Definition int_isspace (c : ascii) : bool :=
  let n := code c in
  between 9 13 n || (n =? 32)%nat || (n =? 133)%nat || (n =? 160)%nat.

(** [\d] / [str.isdecimal] on one character. *)
Definition isdecimal (c : ascii) : bool := between 48 57 (code c).

Definition lower_char (c : ascii) : ascii :=
  let n := code c in
  if between 65 90 n || (between 192 222 n && negb (n =? 215)%nat)
  then ascii_of_nat (n + 32) else c.

Fixpoint lower (s : string) : string :=
  match s with
  | EmptyString => EmptyString
  | String c s' => String (lower_char c) (lower s')
  end.

Fixpoint lstrip_by (sp : ascii -> bool) (s : string) : string :=
  match s with
  | EmptyString => EmptyString
  | String c s' => if sp c then lstrip_by sp s' else s
  end.

Fixpoint rstrip_by (sp : ascii -> bool) (s : string) : string :=
  match s with
  | EmptyString => EmptyString
  | String c s' =>
      match rstrip_by sp s' with
      | EmptyString => if sp c then EmptyString else String c EmptyString
      | r => String c r
      end
  end.

Definition strip_by (sp : ascii -> bool) (s : string) : string :=
  rstrip_by sp (lstrip_by sp s).

(** [s.strip()] *)
Definition strip (s : string) : string := strip_by isspace s.

(** [s.split(sep)] for a one-character separator. *)
Fixpoint split (sep : ascii) (s : string) : list string :=
  match s with
  | EmptyString => [EmptyString]
  | String c s' =>
      if Ascii.eqb c sep then EmptyString :: split sep s'
      else match split sep s' with
           | h :: t => String c h :: t
           | [] => [String c EmptyString]
           end
  end.

(** [sep.join(parts)] *)
Fixpoint join (sep : string) (parts : list string) : string :=
  match parts with
  | [] => EmptyString
  | [p] => p
  | p :: ps => p +:+ sep +:+ join sep ps
  end.

(** [needle in s] *)
Fixpoint starts_with (p s : string) : bool :=
  match p, s with
  | EmptyString, _ => true
  | String a p', String b s' => Ascii.eqb a b && starts_with p' s'
  | String _ _, EmptyString => false
  end.

Fixpoint contains (needle s : string) : bool :=
  starts_with needle s ||
  match s with
  | EmptyString => false
  | String _ s' => contains needle s'
  end.

Fixpoint ends_with_from (suffix s : string) : bool :=
  String.eqb suffix s ||
  match s with
  | EmptyString => false
  | String _ s' => ends_with_from suffix s'
  end.

(** [s.endswith(suffix)] *)
Definition endswith (s suffix : string) : bool := ends_with_from suffix s.

(** *** [str(int)] and [int(str)] *)

Definition digit_char (d : Z) : ascii := ascii_of_nat (48 + Z.to_nat d).

Definition digit_val (c : ascii) : Z := Z.of_nat (code c) - 48.

(** Decimal digits of a non-negative number, most significant first,
    pushed in front of [acc]. *)
Fixpoint digits_fuel (fuel : nat) (n : Z) (acc : string) : string :=
  let acc' := String (digit_char (n mod 10)) acc in
  match fuel with
  | O => acc'
  | S f => if n <? 10 then acc' else digits_fuel f (n / 10) acc'
  end.

Definition str_nonneg (n : Z) : string :=
  digits_fuel (Z.to_nat (Z.log2 n)) n EmptyString.

(** [str(n)] for an [int] *)
Definition str_int (n : Z) : string :=
  if n <? 0 then String "-" (str_nonneg (- n)) else str_nonneg n.

(** The digit part of an integer literal: decimal digits, with single
    underscores allowed between two digits. [prev] tells whether the
    previous character was a digit. *)
Fixpoint int_digits (s : string) (acc : Z) (prev : bool) : option Z :=
  match s with
  | EmptyString => if prev then Some acc else None
  | String c s' =>
      if isdecimal c then int_digits s' (10 * acc + digit_val c) true
      else if Ascii.eqb c "_" then
        if prev then int_digits s' acc false else None
      else None
  end.

(** [int(s)] in base 10; [None] stands for [ValueError]. *)
Definition int (s : string) : option Z :=
  match strip_by int_isspace s with
  | EmptyString => None
  | String c ds =>
      if Ascii.eqb c "-" then option_map Z.opp (int_digits ds 0 false)
      else if Ascii.eqb c "+" then int_digits ds 0 false
      else int_digits (String c ds) 0 false
  end.

(** *** [repr(str)] and [repr(list)] *)

Definition hex_digit (n : nat) : ascii :=
  if (n <? 10)%nat then ascii_of_nat (48 + n) else ascii_of_nat (87 + n).

Definition hex_escape (c : ascii) : string :=
  let n := code c in
  String "\" (String "x" (String (hex_digit (n / 16)) (String (hex_digit (n mod 16)) EmptyString))).

Definition isprintable (c : ascii) : bool :=
  let n := code c in
  between 32 126 n || (between 161 255 n && negb (n =? 173)%nat).

Definition dquote : ascii := ascii_of_nat 34.

Definition repr_char (quote c : ascii) : string :=
  let n := code c in
  if Ascii.eqb c quote || Ascii.eqb c "\" then String "\" (String c EmptyString)
  else if (n =? 9)%nat then "\t"
  else if (n =? 10)%nat then "\n"
  else if (n =? 13)%nat then "\r"
  else if isprintable c then String c EmptyString
  else hex_escape c.

Fixpoint repr_body (quote : ascii) (s : string) : string :=
  match s with
  | EmptyString => EmptyString
  | String c s' => repr_char quote c +:+ repr_body quote s'
  end.

Definition repr_str (s : string) : string :=
  let quote : ascii :=
    if contains "'" s && negb (contains (String dquote EmptyString) s)
    then dquote else "'"%char in
  String quote (repr_body quote s +:+ String quote EmptyString).

Definition repr_list (l : list string) : string :=
  "[" +:+ join ", " (map repr_str l) +:+ "]".

Definition CR : ascii := ascii_of_nat 13.
Definition LF : ascii := ascii_of_nat 10.

(** What a file opened in text mode with [newline=None] gives for its
    content: [CR LF] and a [CR] on its own are read as [LF]. *)
Fixpoint universal_newlines (s : string) : string :=
  match s with
  | EmptyString => EmptyString
  | String c s' =>
      if Ascii.eqb c CR then
        String LF
          match s' with
          | String c' s'' =>
              if Ascii.eqb c' LF then universal_newlines s'' else universal_newlines s'
          | EmptyString => EmptyString
          end
      else String c (universal_newlines s')
  end.

End Py.


(** ** The fragment of Python's [re] the script uses

    Backtracking matcher with greedy repetition of a character class,
    capturing groups and the IGNORECASE flag.  The matcher is written in
    continuation-passing style: the continuation is what is left of the
    pattern, and a repetition hands it the longest run first. *)

Module Re.

Inductive cset :=
| Lit (c : ascii)     (* a literal character *)
| Space               (* \s *)
| Digit               (* \d *)
| Not (c : ascii).    (* [^c] *)

Inductive re :=
| Chars (cs : cset)
| Str (s : string)
| Star (cs : cset)
| Plus (cs : cset)
| Cat (r1 r2 : re)
| Group (n : nat) (r : re).

Record pattern := Pattern { pat : re; ignorecase : bool }.

Definition same_char (icase : bool) (x c : ascii) : bool :=
  if icase then Ascii.eqb (Py.lower_char x) (Py.lower_char c) else Ascii.eqb x c.

Definition cset_match (icase : bool) (cs : cset) (x : ascii) : bool :=
  match cs with
  | Lit c => same_char icase x c
  | Space => Py.isspace x
  | Digit => Py.isdecimal x
  | Not c => negb (same_char icase x c)
  end.

Definition captures := list (nat * string).

(** The first [n] characters of [s]. *)
Fixpoint take_str (n : nat) (s : string) : string :=
  match n, s with
  | S n', String c s' => String c (take_str n' s')
  | _, _ => EmptyString
  end.

(** What [s] starts with, given what is left of it. *)
Definition consumed (s rest : string) : string :=
  take_str (String.length s - String.length rest) s.

Fixpoint lit (icase : bool) (l s : string) : option string :=
  match l, s with
  | EmptyString, _ => Some s
  | String c l', String x s' => if same_char icase x c then lit icase l' s' else None
  | String _ _, EmptyString => None
  end.

Fixpoint star {R} (f : ascii -> bool) (s : string) (k : string -> option R) : option R :=
  match s with
  | String x s' =>
      if f x then
        match star f s' k with
        | Some r => Some r
        | None => k s
        end
      else k s
  | EmptyString => k s
  end.

Fixpoint run {R} (icase : bool) (r : re) (s : string) (caps : captures)
    (k : string -> captures -> option R) : option R :=
  match r with
  | Chars cs =>
      match s with
      | String x s' => if cset_match icase cs x then k s' caps else None
      | EmptyString => None
      end
  | Str l =>
      match lit icase l s with
      | Some s' => k s' caps
      | None => None
      end
  | Star cs => star (cset_match icase cs) s (fun s' => k s' caps)
  | Plus cs =>
      match s with
      | String x s' =>
          if cset_match icase cs x
          then star (cset_match icase cs) s' (fun s'' => k s'' caps)
          else None
      | EmptyString => None
      end
  | Cat r1 r2 => run icase r1 s caps (fun s1 c1 => run icase r2 s1 c1 k)
  | Group n r' => run icase r' s caps (fun s1 c1 => k s1 ((n, consumed s s1) :: c1))
  end.

(** A match object: the matched text, the groups, and the text after it. *)
Record mtch := Match { whole : string; groups : captures; rest : string }.

Fixpoint lookup_group (n : nat) (caps : captures) : option string :=
  match caps with
  | [] => None
  | (i, t) :: caps' => if (i =? n)%nat then Some t else lookup_group n caps'
  end.

(** [m.group(n)]; every group of the patterns below takes part in
    every match, so the default is never seen. *)
Definition group (m : mtch) (n : nat) : string :=
  default EmptyString (lookup_group n (groups m)).

(** A match anchored at the start of [s]. *)
Definition match_at (p : pattern) (s : string) : option mtch :=
  run (ignorecase p) (pat p) s []
      (fun s' caps => Some (Match (consumed s s') caps s')).

(** [p.search(s)]: the leftmost match. *)
Fixpoint search (p : pattern) (s : string) : option mtch :=
  match match_at p s with
  | Some m => Some m
  | None =>
      match s with
      | String _ s' => search p s'
      | EmptyString => None
      end
  end.

(** The successive non-overlapping matches of [p] in [s], each with the
    unmatched text in front of it, and the unmatched text after the last.
    [skip] counts the characters still covered by the previous match. *)
Definition push (c : ascii) (r : list (string * mtch) * string)
  : list (string * mtch) * string :=
  match r with
  | ((gap, m) :: segs, tl) => ((String c gap, m) :: segs, tl)
  | ([], tl) => ([], String c tl)
  end.

Fixpoint scan (p : pattern) (s : string) (skip : nat)
  : list (string * mtch) * string :=
  match skip, s with
  | S k, String _ s' => scan p s' k
  | S _, EmptyString => ([], EmptyString)
  | O, EmptyString =>
      match match_at p s with
      | Some m => ([(EmptyString, m)], EmptyString)
      | None => ([], EmptyString)
      end
  | O, String c s' =>
      match match_at p s with
      | Some m =>
          let r := match whole m with
                   | EmptyString => push c (scan p s' 0)
                   | String _ w => scan p s' (String.length w)
                   end in
          ((EmptyString, m) :: fst r, snd r)
      | None => push c (scan p s' 0)
      end
  end.

(** [p.finditer(s)] *)
Definition finditer (p : pattern) (s : string) : list mtch :=
  map snd (fst (scan p s 0)).

(** [p.subn(repl, s)] with a function [repl] *)
Fixpoint rebuild (repl : mtch -> string) (segs : list (string * mtch)) (tl : string)
  : string :=
  match segs with
  | [] => tl
  | (gap, m) :: segs' => gap +:+ repl m +:+ rebuild repl segs' tl
  end.

Definition subn (p : pattern) (repl : mtch -> string) (s : string) : string * nat :=
  let '(segs, tl) := scan p s 0 in
  (rebuild repl segs tl, length segs).

Declare Scope re_scope.
Delimit Scope re_scope with re.
Infix ">>" := Cat (at level 60, right associativity) : re_scope.

End Re.

(** ** Module-level constants *)

Import Re.

Definition NUGET_SOURCE : string := "https://api.nuget.org/v3/index.json".

(** Three groups: the opening tag [<Version>] with the white space after it,
    the number [\d+\.\d+\.\d+], and the white space before the closing tag
    [</Version>] with that tag.  IGNORECASE. *)
Definition VERSION_RE : pattern :=
  Pattern
    (Group 1 (Str "<Version>" >> Star Space) >>
     Group 2 (Plus Digit >> Chars (Lit ".") >> Plus Digit >> Chars (Lit ".") >> Plus Digit) >>
     Group 3 (Star Space >> Str "</Version>"))%re
    true.

(** [<PackageId>], white space, group 1 = [[^<]+], white space,
    [</PackageId>].  IGNORECASE. *)
Definition PACKAGE_ID_RE : pattern :=
  Pattern
    (Str "<PackageId>" >> Star Space >> Group 1 (Plus (Not "<")) >>
     Star Space >> Str "</PackageId>")%re
    true.

(** [<IsPackable>], white space, group 1 = [[^<]+], white space,
    [</IsPackable>].  IGNORECASE. *)
Definition IS_PACKABLE_RE : pattern :=
  Pattern
    (Str "<IsPackable>" >> Star Space >> Group 1 (Plus (Not "<")) >>
     Star Space >> Str "</IsPackable>")%re
    true.


(** ** Exceptions and results *)

Inductive exn :=
| ValueError (msg : string)
| RuntimeError (msg : string)
| OSError (msg : string)
| CalledProcessError (returncode : Z) (cmd : list string).

Inductive result (A : Type) :=
| Ok (a : A)
| Raise (e : exn).
Arguments Ok {A} a.
Arguments Raise {A} e.

Definition rbind {A B} (r : result A) (k : A -> result B) : result B :=
  match r with
  | Ok a => k a
  | Raise e => Raise e
  end.

Notation "'let?' x ':=' e 'in' k" := (rbind e (fun x => k))
  (at level 10, x name, e at level 100, k at level 200).

(** The class name the interpreter prints for an exception. *)
Definition exn_name (e : exn) : string :=
  match e with
  | ValueError _ => "ValueError"
  | RuntimeError _ => "RuntimeError"
  | OSError _ => "OSError"
  | CalledProcessError _ _ => "subprocess.CalledProcessError"
  end.

(** [str(ex)].  For [CalledProcessError] this is the library's message for
    a tool that ended with an exit status. *)
Definition exn_str (e : exn) : string :=
  match e with
  | ValueError msg | RuntimeError msg | OSError msg => msg
  | CalledProcessError rc cmd =>
      "Command '" +:+ Py.repr_list cmd +:+ "' returned non-zero exit status "
        +:+ Py.str_int rc +:+ "."
  end.

(** ** SemVer *)

Record SemVer := mkSemVer { major : Z; minor : Z; patch : Z }.

Definition int_or_raise (s : string) : result Z :=
  match Py.int s with
  | Some n => Ok n
  | None => Raise (ValueError ("invalid literal for int() with base 10: " +:+ Py.repr_str s))
  end.

Definition SemVer_parse (s : string) : result SemVer :=
  match Py.split "." (Py.strip s) with
  | [p0; p1; p2] =>
      let? a := int_or_raise p0 in
      let? b := int_or_raise p1 in
      let? c := int_or_raise p2 in
      Ok (mkSemVer a b c)
  | _ => Raise (ValueError ("Expected x.y.z, got '" +:+ s +:+ "'"))
  end.

Definition SemVer_bump (self : SemVer) (kind : string) : result SemVer :=
  let kind := Py.strip (Py.lower kind) in
  if String.eqb kind "major" then Ok (mkSemVer (major self + 1) 0 0)
  else if String.eqb kind "minor" then Ok (mkSemVer (major self) (minor self + 1) 0)
  else if String.eqb kind "patch" then Ok (mkSemVer (major self) (minor self) (patch self + 1))
  else Raise (ValueError "Bump kind must be one of: major, minor, patch").

Definition SemVer_str (self : SemVer) : string :=
  Py.str_int (major self) +:+ "." +:+ Py.str_int (minor self) +:+ "."
    +:+ Py.str_int (patch self).

(** ** Paths and the file system *)

(** Components, innermost first: [["publish.py"; "zscripts"; "repo"]] is
    [/repo/zscripts/publish.py], and [[]] is the root directory. *)
Abbreviation Path := (list string).

(** [p.parent] *)
Definition parent (p : Path) : Path := tail p.

(** [p.name] *)
Definition name (p : Path) : string := hd EmptyString p.

(** [root / rel] for a relative path [rel] *)
Definition join_path (root rel : Path) : Path := rel ++ root.

(** [str(p)] for an absolute path *)
Definition as_posix (p : Path) : string := "/" +:+ Py.join "/" (rev p).

(** [str(p)] for a relative path *)
Definition rel_str (p : Path) : string :=
  match p with
  | [] => "."
  | _ => Py.join "/" (rev p)
  end.

(** [p.relative_to(root)], [None] for [ValueError]. *)
Fixpoint relative_to (p root : Path) : option Path :=
  if decide (p = root) then Some []
  else match p with
       | [] => None
       | c :: p' => option_map (cons c) (relative_to p' root)
       end.

(** [p.suffix]: the name from its last dot on, unless that dot is the first
    or the last character of the name. *)
Fixpoint rfind_dot (s : string) : option string :=
  match s with
  | EmptyString => None
  | String c s' =>
      match rfind_dot s' with
      | Some t => Some t
      | None => if Ascii.eqb c "." then Some s else None
      end
  end.

Definition suffix (p : Path) : string :=
  match name p with
  | EmptyString => EmptyString
  | String _ nm' =>
      match rfind_dot nm' with
      | Some (String d (String c t)) => String d (String c t)
      | _ => EmptyString
      end
  end.

(** Paths compare by their components, outermost first. *)
Fixpoint parts_leb (a b : list string) : bool :=
  match a, b with
  | [], _ => true
  | _ :: _, [] => false
  | x :: a', y :: b' =>
      match String.compare x y with
      | Lt => true
      | Gt => false
      | Eq => parts_leb a' b'
      end
  end.

Definition path_le (p q : Path) : Prop := parts_leb (rev p) (rev q) = true.

#[global] Instance path_le_dec p q : Decision (path_le p q).
Proof. unfold path_le. apply _. Defined.

(** [sorted(paths)] *)
Definition sorted_paths (l : list Path) : list Path := merge_sort path_le l.

Definition key_le {A} (key : A -> string) (a b : A) : Prop :=
  String.le (key a) (key b).

#[global] Instance key_le_dec {A} (key : A -> string) a b : Decision (key_le key a b).
Proof. unfold key_le. apply _. Defined.

(** [sorted(l, key=key)] for a string-valued key *)
Definition sorted_by {A} (key : A -> string) (l : list A) : list A :=
  merge_sort (key_le key) l.

Inductive entry :=
| File (text : string)
| Dir.

Abbreviation fsmap := (gmap Path entry).

(** [d.glob("*" + ext)]: the entries directly inside [d] whose name ends
    with [ext]. *)
Definition in_dir_with_ext (d : Path) (ext : string) (p : Path) : bool :=
  match p with
  | nm :: d' => bool_decide (d' = d) && Py.endswith nm ext
  | [] => false
  end.

Definition glob (fs : fsmap) (d : Path) (ext : string) : list Path :=
  filter (fun p => Is_true (in_dir_with_ext d ext p)) (map fst (map_to_list fs)).

(** [p] and [p.parents]: a directory and its ancestors, nearest first, up
    to the root. *)
Fixpoint ancestors (p : Path) : list Path :=
  p :: match p with
       | [] => []
       | _ :: p' => ancestors p'
       end.

(** [p.is_file()] *)
Definition is_file (f : fsmap) (p : Path) : bool :=
  match f !! p with
  | Some (File _) => true
  | _ => false
  end.

(** [p.exists()] *)
Definition exists_ (fs : fsmap) (p : Path) : bool :=
  match fs !! p with
  | Some _ => true
  | None => false
  end.

(** [is_under d p]: [p] is [d] or lies below it. *)
Fixpoint is_under (d p : Path) : bool :=
  bool_decide (p = d) ||
  match p with
  | [] => false
  | _ :: p' => is_under d p'
  end.

(** [shutil.rmtree(d)] *)
Definition rmtree (fs : fsmap) (d : Path) : fsmap :=
  filter (fun kv => ~ Is_true (is_under d (fst kv))) fs.

(** [d.mkdir(parents=True, exist_ok=True)], once no file is in the way *)
Fixpoint mkdir_parents (fs : fsmap) (d : Path) : fsmap :=
  let fs' := match d with
             | [] => fs
             | _ :: d' => mkdir_parents fs d'
             end in
  match fs' !! d with
  | Some _ => fs'
  | None => <[d := Dir]> fs'
  end.

(** [f.resolve()]: the paths of the model are absolute, and its file
    system has no symbolic links, so a path resolves to itself. *)
Definition resolve (p : Path) : Path := p.

(** ** The environment of a run and the effects of the script *)

(** What the script is started with: the two search origins, and the external
    tools, which take a command line, a working directory and the file
    system, and give back the file system and their exit status. *)
Record env := Env {
  cwd : Path;
  script_dir : Path;
  tool : list string -> Path -> fsmap -> fsmap * Z
}.

Inductive event :=
| EvStdout (line : string)
| EvStderr (line : string)
| EvWrite (p : Path) (text : string)
| EvRmtree (p : Path)
| EvMkdir (p : Path)
| EvExec (cmd : list string) (dir : Path).

(** The state of a run: the file system and the effects so far, oldest
    first. *)
Record world := World { fs : fsmap; trace : list event }.

Definition M (A : Type) : Type := world -> result A * world.

Definition ret {A} (a : A) : M A := fun w => (Ok a, w).

Definition raise {A} (e : exn) : M A := fun w => (Raise e, w).

Definition bind {A B} (m : M A) (k : A -> M B) : M B :=
  fun w =>
    match m w with
    | (Ok a, w') => k a w'
    | (Raise e, w') => (Raise e, w')
    end.

Notation "'let!' x ':=' e 'in' k" := (bind e (fun x => k))
  (at level 10, x pattern, e at level 100, k at level 200).
Notation "e ';;' k" := (bind e (fun _ => k))
  (at level 100, k at level 200, right associativity).

Definition lift {A} (r : result A) : M A := fun w => (r, w).

Definition emit (ev : event) : M unit :=
  fun w => (Ok tt, World (fs w) (trace w ++ [ev])).

Definition get_fs : M fsmap := fun w => (Ok (fs w), w).

Definition set_fs (f : fsmap) : M unit := fun w => (Ok tt, World f (trace w)).

(** [print(line)] *)
Definition print (line : string) : M unit := emit (EvStdout line).

(** [eprint(line)] *)
Definition eprint (line : string) : M unit := emit (EvStderr line).

(** [for x in l: body(x)] *)
Fixpoint for_each {A} (l : list A) (body : A -> M unit) : M unit :=
  match l with
  | [] => ret tt
  | x :: l' => body x ;; for_each l' body
  end.

(** [p.read_text(encoding="utf-8")]: text mode, universal newlines. *)
Definition read_text (p : Path) : M string :=
  let! f := get_fs in
  match f !! p with
  | Some (File text) => ret (Py.universal_newlines text)
  | Some Dir => raise (OSError ("Is a directory: " +:+ Py.repr_str (as_posix p)))
  | None => raise (OSError ("No such file or directory: " +:+ Py.repr_str (as_posix p)))
  end.

(** [p.write_text(text, encoding="utf-8", newline="\n")]: no translation
    of line ends. *)
Definition write_text (p : Path) (text : string) : M unit :=
  let! f := get_fs in
  match f !! p with
  | Some Dir => raise (OSError ("Is a directory: " +:+ Py.repr_str (as_posix p)))
  | _ => set_fs (<[p := File text]> f) ;; emit (EvWrite p text)
  end.

(** ** The script *)

Definition PROJECT_DIRS : list Path :=
  [ ["Analyzers"; "Source"]; ["CodeAnalysis"; "Source"]; ["CodeFix"; "Source"] ].

Definition ARTIFACTS_DIR : Path := ["_publish"; "nuget"; "artifacts"].

Definition extract_versions (csproj_text : string) : list string :=
  map (fun m => group m 2) (finditer VERSION_RE csproj_text).

Definition replace_version (csproj_text new_version : string) : string * nat :=
  let repl m := group m 1 +:+ new_version +:+ group m 3 in
  subn VERSION_RE repl csproj_text.

(** The decision of [is_packable_csproj] on the text of a manifest. *)
Definition packable_text (text : string) : bool :=
  match search PACKAGE_ID_RE text with
  | None => false
  | Some _ =>
      match search IS_PACKABLE_RE text with
      | Some m =>
          if String.eqb (Py.lower (Py.strip (group m 1))) "false" then false else true
      | None => true
      end
  end.

(** [p.relative_to(root)] inside a computation *)
Definition rel_of (p root : Path) : M Path :=
  match relative_to p root with
  | Some r => ret r
  | None => raise (ValueError (Py.repr_str (as_posix p) +:+ " is not in the subpath of "
                                 +:+ Py.repr_str (as_posix root)))
  end.

(** The loop of [find_repo_root] from one origin. *)
Fixpoint walk_up (f : fsmap) (p : Path) (visited : gset Path) : option Path * gset Path :=
  if bool_decide (p ∈ visited) then (None, visited)
  else
    let visited := visited ∪ {[p]} in
    match glob f p ".sln" with
    | _ :: _ => (Some p, visited)
    | [] =>
        match p with
        | [] => (None, visited)
        | _ :: p' => walk_up f p' visited
        end
    end.

Fixpoint search_from (f : fsmap) (starts : list Path) (visited : gset Path) : option Path :=
  match starts with
  | [] => None
  | start :: more =>
      match walk_up f start visited with
      | (Some p, _) => Some p
      | (None, visited') => search_from f more visited'
      end
  end.

(** De-duplication loop of [find_csproj_files]. *)
Fixpoint dedupe (files : list Path) (seen : gset Path) : list Path :=
  match files with
  | [] => []
  | f :: files' =>
      let rp := resolve f in
      if bool_decide (rp ∈ seen) then dedupe files' seen
      else f :: dedupe files' (seen ∪ {[rp]})
  end.

(** [s.upper()] on code points below 256: the letters [a]..[z] and the
    accented small letters take their capitals, and the sharp s (223)
    becomes [SS].  The capitals of the micro sign (181) and of y with
    diaeresis (255) lie outside the alphabet of the model; [upper] leaves
    these two as they are, and [upper_in_alphabet] tells the strings
    without them. *)
Definition upper_char (c : ascii) : string :=
  let n := Py.code c in
  if Py.between 97 122 n || (Py.between 224 254 n && negb (n =? 247)%nat)
  then String (ascii_of_nat (n - 32)) EmptyString
  else if (n =? 223)%nat then "SS"
  else String c EmptyString.

Fixpoint upper (s : string) : string :=
  match s with
  | EmptyString => EmptyString
  | String c s' => upper_char c +:+ upper s'
  end.

Definition upper_in_alphabet (c : ascii) : bool :=
  negb ((Py.code c =? 181)%nat || (Py.code c =? 255)%nat).

Section Script.

Variable E : env.

Definition run (cmd : list string) (dir : Path) (redact_values : list string) : M unit :=
  let redacts : gset string := list_to_set redact_values in
  let printable_parts :=
    map (fun part =>
           if bool_decide (part ∈ redacts) && negb (String.eqb part EmptyString)
           then "****" else part) cmd in
  print ("> " +:+ Py.join " " printable_parts) ;;
  emit (EvExec cmd dir) ;;
  let! f := get_fs in
  let out := tool E cmd dir f in
  set_fs (fst out) ;;
  if snd out =? 0 then ret tt else raise (CalledProcessError (snd out) cmd).

Definition find_repo_root : M Path :=
  let! f := get_fs in
  match search_from f [cwd E; script_dir E] ∅ with
  | Some p => ret p
  | None =>
      raise (RuntimeError
        "Could not find repo root (a directory containing a *.sln) from cwd or script location.")
  end.

Definition find_solution_file (root : Path) : M Path :=
  let! f := get_fs in
  match sorted_paths (glob f root ".sln") with
  | [] => raise (RuntimeError ("No .sln found in repo root: " +:+ as_posix root))
  | [sln] => ret sln
  | sln :: _ =>
      eprint ("Warning: multiple .sln files found in " +:+ as_posix root
                +:+ ". Using: " +:+ name sln) ;;
      ret sln
  end.

Fixpoint collect_csproj (root : Path) (dirs : list Path) : M (list Path) :=
  match dirs with
  | [] => ret []
  | rel_dir :: more =>
      let d := join_path root rel_dir in
      let! f := get_fs in
      if exists_ f d then
        let! rest := collect_csproj root more in
        ret (sorted_paths (glob f d ".csproj") ++ rest)
      else
        eprint ("Warning: directory missing: " +:+ as_posix d) ;;
        collect_csproj root more
  end.

Definition find_csproj_files (root : Path) : M (list Path) :=
  let! files := collect_csproj root PROJECT_DIRS in
  ret (dedupe files ∅).

(** The loop of [choose_base_version] over the sorted projects. *)
Fixpoint first_version (projects : list Path) : M SemVer :=
  match projects with
  | [] => raise (RuntimeError "No <Version>x.y.z</Version> found in any targeted .csproj files.")
  | p :: more =>
      let! text := read_text p in
      match extract_versions text with
      | v :: _ => lift (SemVer_parse v)
      | [] => first_version more
      end
  end.

Definition choose_base_version (projects : list Path) : M SemVer :=
  first_version (sorted_by as_posix projects).

(** The rewriting loop of [bump_versions_in_projects]. *)
Fixpoint rewrite_all (root : Path) (newv_str : string) (csprojs changed : list Path)
  : M (list Path) :=
  match csprojs with
  | [] => ret changed
  | p :: more =>
      let! old_text := read_text p in
      match extract_versions old_text with
      | [] =>
          let! rel := rel_of p root in
          raise (RuntimeError ("Missing <Version> in: " +:+ rel_str rel))
      | _ :: _ =>
          let r := replace_version old_text newv_str in
          if (snd r <=? 0)%nat then
            let! rel := rel_of p root in
            raise (RuntimeError ("Failed to replace <Version> in: " +:+ rel_str rel))
          else if negb (String.eqb (fst r) old_text) then
            write_text p (fst r) ;;
            let! rel := rel_of p root in
            print ("Updated: " +:+ rel_str rel +:+ " (replacements: "
                     +:+ Py.str_int (Z.of_nat (snd r)) +:+ ")") ;;
            rewrite_all root newv_str more (changed ++ [p])
          else
            let! rel := rel_of p root in
            print ("Unchanged: " +:+ rel_str rel) ;;
            rewrite_all root newv_str more changed
      end
  end.

Definition bump_versions_in_projects (root : Path) (bump_kind : string)
  : M (SemVer * SemVer * list Path) :=
  let! csprojs := find_csproj_files root in
  match csprojs with
  | [] =>
      raise (RuntimeError
        "No .csproj files found in Source/Analyzers, Source/CodeAnalysis, Source/CodeFix.")
  | _ :: _ =>
      let! base := choose_base_version csprojs in
      let! newv := lift (SemVer_bump base bump_kind) in
      let newv_str := SemVer_str newv in
      print ("Version bump: " +:+ SemVer_str base +:+ " -> " +:+ SemVer_str newv) ;;
      let! changed := rewrite_all root newv_str csprojs [] in
      ret (base, newv, changed)
  end.

Definition is_packable_csproj (csproj_path : Path) : M bool :=
  let! text := read_text csproj_path in
  ret (packable_text text).

Definition clean_publish_output_dir (root : Path) : M Path :=
  let out_dir := join_path root ARTIFACTS_DIR in
  let! f := get_fs in
  match f !! out_dir with
  | Some (File _) => raise (OSError ("Not a directory: " +:+ Py.repr_str (as_posix out_dir)))
  | Some Dir => set_fs (rmtree f out_dir) ;; emit (EvRmtree out_dir)
  | None => ret tt
  end ;;
  let! f := get_fs in
  if existsb (is_file f) (ancestors out_dir) then
    raise (OSError ("Not a directory: " +:+ Py.repr_str (as_posix out_dir)))
  else
    set_fs (mkdir_parents f out_dir) ;;
    emit (EvMkdir out_dir) ;;
    ret out_dir.

Definition build_solution (root sln : Path) : M unit :=
  run ["dotnet"; "build"; as_posix sln; "-c"; "Release"] root [].

(** [[p for p in csprojs if is_packable_csproj(p)]] *)
Fixpoint select_packable (csprojs : list Path) : M (list Path) :=
  match csprojs with
  | [] => ret []
  | p :: more =>
      let! b := is_packable_csproj p in
      let! rest := select_packable more in
      ret (if b : bool then p :: rest else rest)
  end.

Definition pack_projects (root out_dir : Path) : M (list Path) :=
  let! csprojs := find_csproj_files root in
  let! packable := select_packable csprojs in
  match packable with
  | [] =>
      raise (RuntimeError
        "No packable projects found (no .csproj with <PackageId> in the target folders).")
  | _ :: _ =>
      print "Packable projects:" ;;
      for_each packable (fun p =>
        let! rel := rel_of p root in print ("  - " +:+ rel_str rel)) ;;
      for_each packable (fun proj =>
        run ["dotnet"; "pack"; as_posix proj; "-c"; "Release"; "-o"; as_posix out_dir]
            root []) ;;
      let! f := get_fs in
      match sorted_paths (glob f out_dir ".nupkg" ++ glob f out_dir ".snupkg") with
      | [] => raise (RuntimeError ("No packages produced in " +:+ as_posix out_dir))
      | produced => ret produced
      end
  end.

Definition push_packages (root : Path) (packages : list Path) (api_key : string) : M unit :=
  let nupkgs :=
    sorted_paths
      (filter (fun p => Is_true (String.eqb (suffix p) ".nupkg"
                                 && negb (Py.endswith (name p) ".symbols.nupkg")))
              packages) in
  let snupkgs :=
    sorted_paths (filter (fun p => Is_true (String.eqb (suffix p) ".snupkg")) packages) in
  for_each (nupkgs ++ snupkgs) (fun pkg =>
    print ("Pushing: " +:+ name pkg) ;;
    run ["dotnet"; "nuget"; "push"; as_posix pkg; "--api-key"; api_key;
         "--source"; NUGET_SOURCE; "--skip-duplicate"]
        root [api_key]).

Definition git_commit_version_bump (root : Path) (changed_files : list Path)
    (bump_kind : string) : M unit :=
  let git_dir := join_path root [".git"] in
  let! f := get_fs in
  if negb (exists_ f git_dir) then
    raise (RuntimeError
      "Expected a git repository (no .git directory found). Refusing to commit.")
  else
    match changed_files with
    | [] => print "No csproj files changed; skipping git commit."
    | _ :: _ =>
        let! rel_paths :=
          (fix rels (l : list Path) : M (list string) :=
             match l with
             | [] => ret []
             | p :: l' =>
                 let! r := rel_of p root in
                 let! rs := rels l' in
                 ret (rel_str r :: rs)
             end) changed_files in
        run (["git"; "add"; "--"] ++ rel_paths) root [] ;;
        let msg := "[" +:+ upper bump_kind +:+ "] Analyzer Upgrade" in
        run ["git"; "commit"; "-m"; msg] root []
    end.

Definition usage : string :=
  "Usage: python zscripts/publish.py <major|minor|patch|publish-only> <api_key>".

Definition main (argv : list string) : M Z :=
  match argv with
  | [_; arg1; arg2] =>
      let mode := Py.strip (Py.lower arg1) in
      let api_key := Py.strip arg2 in
      if negb (bool_decide (mode ∈ ["major"; "minor"; "patch"; "publish-only"])) then
        eprint "Refusing to run." ;;
        eprint "First argument must be one of: major, minor, patch, publish-only" ;;
        ret 2
      else if String.eqb api_key EmptyString then
        eprint "Refusing to run: api_key is empty." ;;
        ret 2
      else
        let! root := find_repo_root in
        let! sln := find_solution_file root in
        print ("Repo root: " +:+ as_posix root) ;;
        print ("Solution:  " +:+ name sln) ;;
        print ("Mode:      " +:+ mode) ;;
        let publish_only := String.eqb mode "publish-only" in
        let! changed :=
          (if negb publish_only then
             let! bumped := bump_versions_in_projects root mode in
             print ("New version set to: " +:+ SemVer_str (snd (fst bumped))) ;;
             ret (snd bumped)
           else
             print "publish-only: leaving versions unchanged; no git operations will be performed." ;;
             ret []) in
        build_solution root sln ;;
        let! out_dir := clean_publish_output_dir root in
        let! packages := pack_projects root out_dir in
        push_packages root packages api_key ;;
        (if negb publish_only then git_commit_version_bump root changed mode else ret tt) ;;
        print "Done." ;;
        ret 0
  | _ =>
      eprint "Refusing to run." ;;
      eprint usage ;;
      ret 2
  end.

(** What the interpreter writes for an exception nobody caught; the frame
    lines between the two are left out. *)
Definition report_uncaught (e : exn) : M unit :=
  eprint "Traceback (most recent call last):" ;;
  eprint (exn_name e +:+ ": " +:+ exn_str e).

(** The [if __name__ == "__main__"] block.  The result is the exit status of
    the process: that of [SystemExit], or 1 after an exception. *)
Definition script (argv : list string) : M Z :=
  fun w =>
    match main argv w with
    | (Ok rc, w') => (Ok rc, w')
    | (Raise e, w') =>
        let handler :=
          match e with
          | CalledProcessError rc _ =>
              eprint ("Command failed with exit code " +:+ Py.str_int rc +:+ ".")
          | _ => eprint ("Error: " +:+ exn_str e)
          end in
        (handler ;; report_uncaught e ;; ret 1) w'
    end.

End Script.

(** * Vocabulary of the statements *)

(** Every character of [s] satisfies [f]. *)
Fixpoint all_chars (f : ascii -> bool) (s : string) : bool :=
  match s with
  | EmptyString => true
  | String c s' => f c && all_chars f s'
  end.

Definition not_space (sp : ascii -> bool) (c : ascii) : bool := negb (sp c).

Definition not_char (sep c : ascii) : bool := negb (Ascii.eqb c sep).

(** A version whose three components are non-negative. *)
Definition nonneg (v : SemVer) : Prop := 0 <= major v /\ 0 <= minor v /\ 0 <= patch v.

(** The texts a pattern matches, with the groups it records: the
    declarative reading of the matcher. *)
Fixpoint lang (icase : bool) (r : re) (w : string) (cin cout : captures) : Prop :=
  match r with
  | Chars cs => (exists x, w = String x EmptyString /\ cset_match icase cs x = true) /\ cout = cin
  | Str l => lit icase l w = Some EmptyString /\ cout = cin
  | Star cs => all_chars (cset_match icase cs) w = true /\ cout = cin
  | Plus cs => w <> EmptyString /\ all_chars (cset_match icase cs) w = true /\ cout = cin
  | Cat r1 r2 =>
      exists w1 w2 c1, w = w1 +:+ w2 /\ lang icase r1 w1 cin c1 /\ lang icase r2 w2 c1 cout
  | Group n r' => exists c1, lang icase r' w cin c1 /\ cout = (n, w) :: c1
  end.

(** A numeral: a non-empty run of decimal digits. *)
Definition numeral (s : string) : Prop :=
  s <> EmptyString /\ all_chars Py.isdecimal s = true.

(** [s], once stripped, is three dot-free parts joined by dots, and [int]
    reads the parts as the components of [v]. *)
Definition three_components (s : string) (v : SemVer) : Prop :=
  exists p0 p1 p2,
    Py.strip s = Py.join "." [p0; p1; p2] /\
    all_chars (not_char ".") p0 = true /\
    all_chars (not_char ".") p1 = true /\
    all_chars (not_char ".") p2 = true /\
    Py.int p0 = Some (major v) /\
    Py.int p1 = Some (minor v) /\
    Py.int p2 = Some (patch v).

(** The directory holds at least one [*.sln] entry. *)
Definition has_solution (f : fsmap) (d : Path) : bool :=
  match glob f d ".sln" with
  | [] => false
  | _ :: _ => true
  end.

Definition ROOT_NOT_FOUND : string :=
  "Could not find repo root (a directory containing a *.sln) from cwd or script location.".

(** No directory of [V] has a qualifying ancestor (itself included). *)
Definition barren (f : fsmap) (V : gset Path) : Prop :=
  forall q a, q ∈ V -> a ∈ ancestors q -> has_solution f a = false.

(** [w'] extends the effects of [w] by events that all satisfy [P]. *)
Definition ext (P : event -> Prop) (w w' : world) : Prop :=
  exists evs, trace w' = trace w ++ evs /\ Forall P evs.

(** Every run of [m] takes a world to one related to it by [R]. *)
Definition respects {A} (R : world -> world -> Prop) (m : M A) : Prop :=
  forall w, R w (snd (m w)).

Definition is_output (ev : event) : Prop :=
  match ev with
  | EvStdout _ | EvStderr _ => True
  | _ => False
  end.

Definition not_exec (ev : event) : Prop :=
  match ev with
  | EvExec _ _ => False
  | _ => True
  end.

(** The text of the file at [p] as the script reads it. *)
Definition file_text (f : fsmap) (p : Path) : string :=
  match f !! p with
  | Some (File text) => Py.universal_newlines text
  | _ => EmptyString
  end.

(** The version declarations of the manifest at [p]. *)
Definition versions_in (f : fsmap) (p : Path) : list string :=
  extract_versions (file_text f p).

Definition has_version (f : fsmap) (p : Path) : bool :=
  match versions_in f p with
  | [] => false
  | _ :: _ => true
  end.

(** What rewriting to the version [nv] leaves at the manifest [q], from
    the file system [f] to [f']: when the rewritten text differs from the
    text read, it is the content stored afterwards; otherwise the stored
    content is untouched. *)
Definition rewrite_left (nv : string) (f f' : fsmap) (q : Path) : Prop :=
  let old := file_text f q in
  let new := fst (replace_version old nv) in
  (new <> old -> f' !! q = Some (File new)) /\
  (new = old -> f' !! q = f !! q).

(** The manifests [find_csproj_files] returns, as a function of the file
    system. *)
Definition collected (f : fsmap) (root : Path) (dirs : list Path) : list Path :=
  flat_map (fun rel_dir =>
              let d := join_path root rel_dir in
              if exists_ f d then sorted_paths (glob f d ".csproj") else []) dirs.

Definition discovered (f : fsmap) (root : Path) : list Path :=
  dedupe (collected f root PROJECT_DIRS) ∅.

(** An entry whose name ends in [.csproj], directly inside one of the
    target directories that exist under the root. *)
Definition manifest_entry (f : fsmap) (root p : Path) : Prop :=
  exists nm rel,
    rel ∈ PROJECT_DIRS /\
    p = nm :: rel ++ root /\
    Py.endswith nm ".csproj" = true /\
    is_Some (f !! p) /\
    exists_ f (rel ++ root) = true.

Definition NO_VERSION_FOUND : string :=
  "No <Version>x.y.z</Version> found in any targeted .csproj files.".

(** The script is started in a bump mode with a credential, and root
    resolution finds [root]. *)
Definition bump_setup (E : env) (w : world) (argv : list string) (mode : string)
    (root : Path) : Prop :=
  exists a0 arg1 arg2,
    argv = [a0; arg1; arg2] /\
    mode = Py.strip (Py.lower arg1) /\
    mode ∈ ["major"; "minor"; "patch"] /\
    Py.strip arg2 <> EmptyString /\
    List.find (has_solution (fs w)) (ancestors (cwd E) ++ ancestors (script_dir E))
    = Some root.

Definition missing_version_msg (rel : Path) : string :=
  "Missing <Version> in: " +:+ rel_str rel.

(** The outcome of base version selection, as a function of the file
    system. *)
Definition base_of (f : fsmap) (projects : list Path) : result SemVer :=
  match List.find (has_version f) (sorted_by as_posix projects) with
  | Some p => SemVer_parse (hd EmptyString (versions_in f p))
  | None => Raise (RuntimeError NO_VERSION_FOUND)
  end.

Definition is_git (cmd : list string) : bool :=
  match cmd with
  | c :: _ => String.eqb c "git"
  | [] => false
  end.


(** The file at [p] is the same in [w'] as in [w]. *)
Definition keeps (p : Path) (w w' : world) : Prop :=
  forall text, fs w !! p = Some (File text) -> fs w' !! p = Some (File text).

(** The stages the specification leaves to a publish-only run: resolve,
    build, pack, push; no version bump and no commit. *)
Definition publish_only_pipeline (E : env) (api_key : string) : M Z :=
  let! root := find_repo_root E in
  let! sln := find_solution_file root in
  print ("Repo root: " +:+ as_posix root) ;;
  print ("Solution:  " +:+ name sln) ;;
  print "Mode:      publish-only" ;;
  print "publish-only: leaving versions unchanged; no git operations will be performed." ;;
  build_solution E root sln ;;
  let! out_dir := clean_publish_output_dir root in
  let! packages := pack_projects E root out_dir in
  push_packages E root packages api_key ;;
  print "Done." ;;
  ret 0.

(** [needle] occurs in a line written to one of the output streams. *)
Definition printed (needle : string) (tr : list event) : bool :=
  existsb (fun ev => match ev with
                     | EvStdout line | EvStderr line => Py.contains needle line
                     | _ => false
                     end) tr.

(** ** An example repository

    [/repo] holds a solution file, a [.git] directory and the manifests
    given; packing leaves one package in the output directory, and pushing
    ends with the given exit status. *)

Definition demo_root : Path := ["repo"].

Definition demo_dirs : list (Path * entry) :=
  [ ([], Dir); (["repo"], Dir); (["App.sln"; "repo"], File "solution");
    ([".git"; "repo"], Dir); (["zscripts"; "repo"], Dir); (["Source"; "repo"], Dir);
    (["Analyzers"; "Source"; "repo"], Dir); (["CodeFix"; "Source"; "repo"], Dir) ].

Definition manifest_A : Path := ["A.csproj"; "Analyzers"; "Source"; "repo"].
Definition manifest_B : Path := ["B.csproj"; "Analyzers"; "Source"; "repo"].
Definition manifest_C : Path := ["C.csproj"; "CodeFix"; "Source"; "repo"].

Definition text_versioned : string :=
  "<Project><PropertyGroup><PackageId>Demo.A</PackageId><Version>1.2.3</Version></PropertyGroup></Project>".

Definition text_other_version : string :=
  "<Project><PropertyGroup><PackageId>Demo.C</PackageId><Version>2.0.0</Version></PropertyGroup></Project>".

Definition text_unversioned : string :=
  "<Project><PropertyGroup><PackageId>Demo.B</PackageId></PropertyGroup></Project>".

(** The versioned manifest with [CR LF] line ends. *)
Definition text_crlf : string :=
  "<Project>" +:+ String Py.CR (String Py.LF
    ("<PropertyGroup><PackageId>Demo.A</PackageId><Version>1.2.3</Version></PropertyGroup>"
     +:+ String Py.CR (String Py.LF "</Project>"))).

(** A manifest that sets [IsPackable] twice; the build system takes the
    last value. *)
Definition text_two_flags : string :=
  "<Project><PropertyGroup><PackageId>Demo.D</PackageId><IsPackable>true</IsPackable><IsPackable>false</IsPackable></PropertyGroup></Project>".

Definition demo_fs (manifests : list (Path * string)) : fsmap :=
  list_to_map (demo_dirs ++ map (fun pt => (fst pt, File (snd pt))) manifests).

Definition demo_package : Path := "Demo.1.2.3.nupkg" :: join_path demo_root ARTIFACTS_DIR.

Definition demo_tool (push_status : Z) (cmd : list string) (dir : Path) (f : fsmap)
  : fsmap * Z :=
  if String.eqb (nth 1 cmd EmptyString) "pack" then (<[demo_package := File "package"]> f, 0)
  else if String.eqb (nth 1 cmd EmptyString) "nuget" then (f, push_status)
  else (f, 0).

Definition demo_env (push_status : Z) : env :=
  Env ["zscripts"; "repo"] ["zscripts"; "repo"] (demo_tool push_status).

Definition demo_world (manifests : list (Path * string)) : world :=
  World (demo_fs manifests) [].

Definition any_event (ev : event) : Prop := True.

(** ** Vocabulary of the further properties *)

(** The order [dataclass(order=True)] generates: versions compare as the
    tuples (major, minor, patch). *)
Definition SemVer_ltb (a b : SemVer) : bool :=
  (major a <? major b) ||
  ((major a =? major b) &&
   ((minor a <? minor b) || ((minor a =? minor b) && (patch a <? patch b)))).

(** The command line passes the checks at the head of [main]. *)
Definition usage_ok (argv : list string) : bool :=
  match argv with
  | [_; arg1; arg2] =>
      bool_decide (Py.strip (Py.lower arg1) ∈ ["major"; "minor"; "patch"; "publish-only"])
      && negb (String.eqb (Py.strip arg2) EmptyString)
  | _ => false
  end.

Definition is_stderr (ev : event) : Prop :=
  match ev with
  | EvStderr _ => True
  | _ => False
  end.

(** A computation that can only return 0 or raise. *)
Definition returns_0_or_raises (m : M Z) : Prop :=
  forall w, fst (m w) = Ok 0 \/ exists e, fst (m w) = Raise e.

(** Every entry of the file system lies in directories that exist. *)
Definition parent_closed (f : fsmap) : bool :=
  forallb (fun p => forallb (exists_ f) (ancestors p)) (map fst (map_to_list f)).

(** An effect that is a print or a write to one of the paths of [l]. *)
Definition only_writes (l : list Path) (ev : event) : Prop :=
  match ev with
  | EvWrite p _ => p ∈ l
  | EvStdout _ | EvStderr _ => True
  | _ => False
  end.

(** From [w] to [w'] only the files of [l] were written, nothing else
    was done to the file system, and no tool was run. *)
Definition touches_only (l : list Path) (w w' : world) : Prop :=
  ext (only_writes l) w w' /\ forall p, p ∉ l -> fs w' !! p = fs w !! p.

(** The example repository after an earlier run: the output directory
    exists and holds a package of that run. *)
Definition demo_stale_world : world :=
  World (<["Old.0.9.0.nupkg" :: join_path demo_root ARTIFACTS_DIR := File "stale"]>
           (mkdir_parents (demo_fs [(manifest_A, text_versioned)])
                          (join_path demo_root ARTIFACTS_DIR)))
        [].

(** The external invocations of a trace, oldest first. *)
Definition execs (tr : list event) : list (list string * Path) :=
  omap (fun ev => match ev with
                  | EvExec cmd dir => Some (cmd, dir)
                  | _ => None
                  end) tr.

Definition push_cmd (api_key : string) (pkg : Path) : list string :=
  ["dotnet"; "nuget"; "push"; as_posix pkg; "--api-key"; api_key;
   "--source"; NUGET_SOURCE; "--skip-duplicate"].

Definition pack_cmd (out_dir proj : Path) : list string :=
  ["dotnet"; "pack"; as_posix proj; "-c"; "Release"; "-o"; as_posix out_dir].

(** A primary package: suffix [.nupkg], and not a symbols variant. *)
Definition is_primary (p : Path) : bool :=
  String.eqb (suffix p) ".nupkg" && negb (Py.endswith (name p) ".symbols.nupkg").

(** A symbol package: suffix [.snupkg]. *)
Definition is_symbols (p : Path) : bool := String.eqb (suffix p) ".snupkg".

(** The manifests [pack_projects] selects, as a function of the file
    system. *)
Definition pack_plan (f : fsmap) (root : Path) : list Path :=
  filter (fun p => Is_true (packable_text (file_text f p))) (discovered f root).

Definition NO_PACKABLE : string :=
  "No packable projects found (no .csproj with <PackageId> in the target folders).".

(** Packages as the packing tools might leave them. *)
Definition demo_packages : list Path :=
  map (fun nm => nm :: join_path demo_root ARTIFACTS_DIR)
      ["Demo.1.2.3.snupkg"; "Demo.1.2.3.symbols.nupkg"; "Demo.1.2.3.nupkg"; "Core.1.2.3.nupkg"].

(** The text of the manifest at [p] after its version declarations are
    set to [nv]. *)
Definition rewritten (f : fsmap) (nv : string) (p : Path) : string :=
  fst (replace_version (file_text f p) nv).

(** The arguments of the two commands of the commit stage. *)
Definition git_add_cmd (root : Path) (changed_files : list Path) : list string :=
  ["git"; "add"; "--"]
    ++ map (fun p => rel_str (default [] (relative_to p root))) changed_files.

Definition git_commit_cmd (bump_kind : string) : list string :=
  ["git"; "commit"; "-m"; "[" +:+ upper bump_kind +:+ "] Analyzer Upgrade"].

(** [s] is empty or begins with a character outside the class [f]. *)
Definition starts_outside (f : ascii -> bool) (s : string) : bool :=
  match s with
  | String c _ => negb (f c)
  | EmptyString => true
  end.

(** A match with its gap, after the text was rewritten to the version
    [nv]: the same gap and the same markup around the version [nv]. *)
Definition retagged (nv : string) (x y : string * mtch) : Prop :=
  fst y = fst x /\ group (snd y) 1 = group (snd x) 1 /\
  group (snd y) 2 = nv /\ group (snd y) 3 = group (snd x) 3.

(** Events that are not a run of the version-control tool. *)
Definition no_git (ev : event) : Prop :=
  match ev with
  | EvExec cmd _ => is_git cmd = false
  | _ => True
  end.

(** Events that are a run of the version-control tool, or a printed line. *)
Definition git_or_output (ev : event) : Prop :=
  match ev with
  | EvExec cmd _ => is_git cmd = true
  | EvStdout _ | EvStderr _ => True
  | _ => False
  end.

(** Every run of [m] has a first part with events in [P] only and a
    second part with events in [Q] only. *)
Definition phased (P Q : event -> Prop) {A} (m : M A) : Prop :=
  forall w, exists w1, ext P w w1 /\ ext Q w1 (snd (m w)).



(** No external tool was run from [w] to [w']. *)
Definition same_execs (w w' : world) : Prop := execs (trace w') = execs (trace w).



(** * Properties *)

(** ** Strings *)

#[local] Arguments String.append !_ _ / : simpl nomatch.

Lemma append_nil_r (s : string) : s +:+ EmptyString = s.
Proof. induction s as [|c s IH]; simpl; [done | by rewrite IH]. Qed.

Lemma append_assoc (a b c : string) : (a +:+ b) +:+ c = a +:+ b +:+ c.
Proof. induction a as [|x a IH]; simpl; [done | by rewrite IH]. Qed.

Lemma length_append (a b : string) :
  String.length (a +:+ b) = (String.length a + String.length b)%nat.
Proof. induction a as [|x a IH]; simpl; [done | by rewrite IH]. Qed.

Lemma all_chars_app f a b :
  all_chars f (a +:+ b) = all_chars f a && all_chars f b.
Proof. induction a; simpl; [done|]. rewrite IHa. by rewrite andb_assoc. Qed.

Lemma all_chars_impl (f g : ascii -> bool) s :
  (forall c, f c = true -> g c = true) ->
  all_chars f s = true -> all_chars g s = true.
Proof.
  intros Hfg. induction s as [|c s IH]; simpl; [done|].
  rewrite !andb_true_iff. intros [? ?]. auto.
Qed.

Lemma rstrip_by_id sp s : all_chars (not_space sp) s = true -> Py.rstrip_by sp s = s.
Proof.
  induction s as [|c s IH]; simpl; [done|].
  unfold not_space at 1. rewrite andb_true_iff, negb_true_iff. intros [Hc Hs].
  rewrite (IH Hs). destruct s; [by rewrite Hc | done].
Qed.

Lemma lstrip_by_id sp s : all_chars (not_space sp) s = true -> Py.lstrip_by sp s = s.
Proof.
  destruct s as [|c s]; simpl; [done|].
  unfold not_space at 1. rewrite andb_true_iff, negb_true_iff. by intros [-> _].
Qed.

Lemma strip_by_id sp s : all_chars (not_space sp) s = true -> Py.strip_by sp s = s.
Proof. intros H. unfold Py.strip_by. rewrite lstrip_by_id by done. by apply rstrip_by_id. Qed.

Lemma split_no_sep sep s : all_chars (not_char sep) s = true -> Py.split sep s = [s].
Proof.
  induction s as [|c s IH]; simpl; [done|].
  unfold not_char at 1. rewrite andb_true_iff, negb_true_iff. intros [-> Hs].
  by rewrite (IH Hs).
Qed.

Lemma split_app sep a b :
  all_chars (not_char sep) a = true ->
  Py.split sep (a +:+ String sep b) = a :: Py.split sep b.
Proof.
  induction a as [|c a IH]; simpl.
  - intros _. by rewrite Ascii.eqb_refl.
  - unfold not_char at 1. rewrite andb_true_iff, negb_true_iff. intros [-> Ha].
    by rewrite (IH Ha).
Qed.

(** ** Decimal numerals *)

Ltac by_cases_on_char c :=
  destruct c as [[] [] [] [] [] [] [] []]; vm_compute; congruence.

Lemma decimal_not_space c : Py.isdecimal c = true -> Py.isspace c = false.
Proof. by_cases_on_char c. Qed.

Lemma decimal_not_int_space c : Py.isdecimal c = true -> Py.int_isspace c = false.
Proof. by_cases_on_char c. Qed.

Lemma decimal_not_dot c : Py.isdecimal c = true -> Ascii.eqb c "." = false.
Proof. by_cases_on_char c. Qed.

Lemma decimal_not_sign c :
  Py.isdecimal c = true -> Ascii.eqb c "-" = false /\ Ascii.eqb c "+" = false.
Proof. split; revert H; by_cases_on_char c. Qed.

Lemma digit_val_range c : Py.isdecimal c = true -> 0 <= Py.digit_val c <= 9.
Proof.
  destruct c as [[] [] [] [] [] [] [] []]; vm_compute; try congruence;
    intros _; split; congruence.
Qed.

Lemma digit_char_cases d :
  0 <= d < 10 ->
  Py.isdecimal (Py.digit_char d) = true /\ Py.digit_val (Py.digit_char d) = d.
Proof.
  intros Hd.
  assert (d = 0 \/ d = 1 \/ d = 2 \/ d = 3 \/ d = 4 \/ d = 5 \/ d = 6 \/ d = 7
          \/ d = 8 \/ d = 9) as Hc by lia.
  repeat destruct Hc as [-> | Hc]; try subst d; by vm_compute.
Qed.

Lemma digits_fuel_parse fuel : forall n acc,
  0 <= n < 2 ^ (Z.of_nat fuel + 1) ->
  exists ds,
    Py.digits_fuel fuel n acc = ds +:+ acc /\
    ds <> EmptyString /\
    all_chars Py.isdecimal ds = true /\
    forall rest a prev,
      Py.int_digits (ds +:+ rest) a prev
      = Py.int_digits rest (a * 10 ^ Z.of_nat (String.length ds) + n) true.
Proof.
  assert (forall n acc, 0 <= n < 10 ->
    exists ds,
      String (Py.digit_char (n mod 10)) acc = ds +:+ acc /\
      ds <> EmptyString /\
      all_chars Py.isdecimal ds = true /\
      forall rest a prev,
        Py.int_digits (ds +:+ rest) a prev
        = Py.int_digits rest (a * 10 ^ Z.of_nat (String.length ds) + n) true) as Hone.
  { intros n acc Hd. rewrite Z.mod_small by lia.
    destruct (digit_char_cases n) as [Hdec Hval]; [lia|].
    exists (String (Py.digit_char n) EmptyString).
    cbn [String.append all_chars Py.int_digits String.length].
    rewrite Hdec, Hval. repeat split; [done|].
    intros rest a prev. f_equal. change (10 ^ Z.of_nat 1) with 10. lia. }
  induction fuel as [|f IH]; intros n acc Hn.
  - cbn [Py.digits_fuel]. apply Hone.
    change (2 ^ (Z.of_nat 0 + 1)) with 2 in Hn. lia.
  - cbn [Py.digits_fuel]. destruct (n <? 10) eqn:Hlt.
    + apply Z.ltb_lt in Hlt. apply Hone. lia.
    + apply Z.ltb_ge in Hlt.
      destruct (digit_char_cases (n mod 10)) as [Hdec Hval];
        [apply Z.mod_pos_bound; lia|].
      destruct (IH (n / 10) (String (Py.digit_char (n mod 10)) acc))
        as (ds & Heq & Hne & Hall & Hparse).
      { split; [apply Z.div_pos; lia|].
        apply Z.div_lt_upper_bound; [lia|].
        replace (Z.of_nat (S f) + 1) with (Z.succ (Z.of_nat f + 1)) in Hn by lia.
        rewrite Z.pow_succ_r in Hn by lia. lia. }
      exists (ds +:+ String (Py.digit_char (n mod 10)) EmptyString).
      rewrite Heq, append_assoc. cbn [String.append]. split; [done|]. split.
      { destruct ds; [done|]. cbn [String.append]. discriminate. }
      split.
      { rewrite all_chars_app, Hall. cbn [all_chars]. by rewrite Hdec. }
      intros rest a prev. rewrite append_assoc, Hparse.
      cbn [String.append Py.int_digits].
      rewrite Hdec, Hval, length_append. cbn [String.length].
      f_equal. rewrite Nat2Z.inj_add, Z.pow_add_r by lia.
      change (10 ^ Z.of_nat 1) with 10.
      pose proof (Z.div_mod n 10). lia.
Qed.

Lemma str_nonneg_spec n :
  0 <= n ->
  Py.str_nonneg n <> EmptyString /\
  all_chars Py.isdecimal (Py.str_nonneg n) = true /\
  forall prev, Py.int_digits (Py.str_nonneg n) 0 prev = Some n.
Proof.
  intros Hn. unfold Py.str_nonneg.
  destruct (digits_fuel_parse (Z.to_nat (Z.log2 n)) n EmptyString)
    as (ds & Heq & Hne & Hall & Hparse).
  { split; [done|]. rewrite Z2Nat.id by apply Z.log2_nonneg.
    destruct (Z.eq_dec n 0) as [->|]; [done|].
    apply Z.log2_spec. lia. }
  rewrite Heq, append_nil_r. repeat split; [done..|].
  intros prev. specialize (Hparse EmptyString 0 prev).
  rewrite append_nil_r in Hparse. rewrite Hparse.
  cbn [Py.int_digits]. f_equal; lia.
Qed.

(** ** SemVer *)

Lemma str_int_nonneg n : 0 <= n -> Py.str_int n = Py.str_nonneg n.
Proof. intros Hn. unfold Py.str_int. by rewrite (proj2 (Z.ltb_ge n 0)). Qed.

Lemma int_of_digits ds n :
  ds <> EmptyString ->
  all_chars Py.isdecimal ds = true ->
  Py.int_digits ds 0 false = Some n ->
  Py.int ds = Some n.
Proof.
  intros Hne Hall Hval. unfold Py.int.
  rewrite strip_by_id.
  2: { eapply all_chars_impl; [|exact Hall]. intros c Hc. unfold not_space.
       by rewrite (decimal_not_int_space c Hc). }
  destruct ds as [|c ds]; [done|].
  cbn [all_chars] in Hall. apply andb_true_iff in Hall as [Hc _].
  destruct (decimal_not_sign c Hc) as [-> ->]. done.
Qed.

Lemma int_str_nonneg n : 0 <= n -> Py.int (Py.str_int n) = Some n.
Proof.
  intros Hn. rewrite str_int_nonneg by done.
  destruct (str_nonneg_spec n Hn) as (Hne & Hall & Hval).
  by apply int_of_digits.
Qed.

Lemma digits_no_dot ds :
  all_chars Py.isdecimal ds = true -> all_chars (not_char ".") ds = true.
Proof.
  apply all_chars_impl. intros c Hc. unfold not_char.
  by rewrite (decimal_not_dot c Hc).
Qed.

Lemma digits_no_space ds :
  all_chars Py.isdecimal ds = true -> all_chars (not_space Py.isspace) ds = true.
Proof.
  apply all_chars_impl. intros c Hc. unfold not_space.
  by rewrite (decimal_not_space c Hc).
Qed.

(** A dotted triple of numerals parses to the three numbers. *)
Lemma parse_dotted d0 d1 d2 a b c :
  all_chars Py.isdecimal d0 = true ->
  all_chars Py.isdecimal d1 = true ->
  all_chars Py.isdecimal d2 = true ->
  Py.int d0 = Some a -> Py.int d1 = Some b -> Py.int d2 = Some c ->
  SemVer_parse (d0 +:+ String "." (d1 +:+ String "." d2)) = Ok (mkSemVer a b c).
Proof.
  intros H0 H1 H2 Ha Hb Hc. unfold SemVer_parse, Py.strip.
  rewrite strip_by_id.
  2: { rewrite all_chars_app. cbn [all_chars]. rewrite all_chars_app. cbn [all_chars].
       by rewrite !digits_no_space. }
  rewrite split_app by by apply digits_no_dot.
  rewrite split_app by by apply digits_no_dot.
  rewrite split_no_sep by by apply digits_no_dot.
  unfold int_or_raise. by rewrite Ha, Hb, Hc.
Qed.

(** C1: for non-negative components, bumping [major] gives (a+1, 0, 0),
    bumping [minor] gives (a, b+1, 0) and bumping [patch] gives
    (a, b, c+1): the bumped component is incremented, the less significant
    ones are reset to zero and the more significant ones are unchanged. *)
Theorem bump_increments_and_resets (a b c : Z) :
  0 <= a -> 0 <= b -> 0 <= c ->
  SemVer_bump (mkSemVer a b c) "major" = Ok (mkSemVer (a + 1) 0 0) /\
  SemVer_bump (mkSemVer a b c) "minor" = Ok (mkSemVer a (b + 1) 0) /\
  SemVer_bump (mkSemVer a b c) "patch" = Ok (mkSemVer a b (c + 1)).
Proof. intros _ _ _. repeat split. Qed.

Lemma bump_increments_and_resets_witness :
  SemVer_bump (mkSemVer 1 2 3) "major" = Ok (mkSemVer (1 + 1) 0 0) /\
  SemVer_bump (mkSemVer 1 2 3) "minor" = Ok (mkSemVer 1 (2 + 1) 0) /\
  SemVer_bump (mkSemVer 1 2 3) "patch" = Ok (mkSemVer 1 2 (3 + 1)).
Proof. apply (bump_increments_and_resets 1 2 3); lia. Defined.

(** C8: parsing the rendered form of a version with non-negative
    components gives the version back. *)
Theorem parse_str_roundtrip (v : SemVer) :
  nonneg v -> SemVer_parse (SemVer_str v) = Ok v.
Proof.
  destruct v as [a b c]. intros (Ha & Hb & Hc). cbn [major minor patch] in *.
  unfold SemVer_str. cbn [major minor patch String.append].
  apply parse_dotted; try by apply int_str_nonneg.
  all: rewrite str_int_nonneg by done; by apply str_nonneg_spec.
Qed.

Lemma parse_str_roundtrip_witness :
  SemVer_parse (SemVer_str (mkSemVer 10 0 27)) = Ok (mkSemVer 10 0 27).
Proof. apply (parse_str_roundtrip (mkSemVer 10 0 27)). unfold nonneg. simpl. lia. Defined.

(** ** The matcher is sound for the declarative reading *)

Lemma take_str_app w s : take_str (String.length w) (w +:+ s) = w.
Proof. induction w as [|c w IH]; cbn; [by destruct s | by rewrite IH]. Qed.

Lemma consumed_app w s : consumed (w +:+ s) s = w.
Proof.
  unfold consumed. rewrite length_append.
  replace (String.length w + String.length s - String.length s)%nat
    with (String.length w) by lia.
  apply take_str_app.
Qed.

Lemma lit_sound icase l : forall s s',
  lit icase l s = Some s' ->
  exists w, s = w +:+ s' /\ lit icase l w = Some EmptyString.
Proof.
  induction l as [|c l IH]; intros s s' H; cbn in H.
  - exists EmptyString. by simplify_eq.
  - destruct s as [|x s]; [done|]. destruct (same_char icase x c) eqn:Hx; [|done].
    destruct (IH _ _ H) as (w & -> & Hw). exists (String x w).
    split; [done|]. cbn. by rewrite Hx.
Qed.

Lemma star_sound {R} (f : ascii -> bool) (k : string -> option R) : forall s x,
  star f s k = Some x ->
  exists w s', s = w +:+ s' /\ all_chars f w = true /\ k s' = Some x.
Proof.
  induction s as [|c s IH]; intros x H; cbn in H.
  - by exists EmptyString, EmptyString.
  - destruct (f c) eqn:Hc; [|by exists EmptyString, (String c s)].
    destruct (star f s k) as [y|] eqn:Hs; [|by exists EmptyString, (String c s)].
    simplify_eq. destruct (IH _ eq_refl) as (w & s' & -> & Hw & Hk).
    exists (String c w), s'. cbn. by rewrite Hc, Hw.
Qed.

Lemma run_sound {R} icase r : forall s caps (k : string -> captures -> option R) x,
  Re.run icase r s caps k = Some x ->
  exists w s' caps',
    s = w +:+ s' /\ lang icase r w caps caps' /\ k s' caps' = Some x.
Proof.
  induction r as [cs|l|cs|cs|r1 IH1 r2 IH2|n r IH]; intros s caps k x H; cbn in H.
  - destruct s as [|c s]; [done|]. destruct (cset_match icase cs c) eqn:Hc; [|done].
    exists (String c EmptyString), s, caps. cbn. eauto 6.
  - destruct (lit icase l s) as [s'|] eqn:Hl; [|done].
    destruct (lit_sound _ _ _ _ Hl) as (w & -> & Hw).
    exists w, s', caps. cbn. eauto.
  - destruct (star_sound _ _ _ _ H) as (w & s' & -> & Hw & Hk).
    exists w, s', caps. cbn. eauto.
  - destruct s as [|c s]; [done|]. destruct (cset_match icase cs c) eqn:Hc; [|done].
    destruct (star_sound _ _ _ _ H) as (w & s' & -> & Hw & Hk).
    exists (String c w), s', caps. cbn. rewrite Hc, Hw. eauto.
  - destruct (IH1 _ _ _ _ H) as (w1 & s1 & c1 & -> & H1 & Hk1).
    destruct (IH2 _ _ _ _ Hk1) as (w2 & s2 & c2 & -> & H2 & Hk2).
    exists (w1 +:+ w2), s2, c2. rewrite append_assoc. cbn. eauto 10.
  - destruct (IH _ _ _ _ H) as (w & s' & c1 & -> & Hr & Hk).
    rewrite consumed_app in Hk. exists w, s', ((n, w) :: c1). cbn. eauto.
Qed.

Lemma match_at_sound p s m :
  match_at p s = Some m ->
  s = whole m +:+ rest m /\ lang (ignorecase p) (pat p) (whole m) [] (groups m).
Proof.
  unfold match_at. intros H.
  destruct (run_sound _ _ _ _ _ _ H) as (w & s' & caps & -> & Hl & Hk).
  rewrite consumed_app in Hk. by simplify_eq.
Qed.

(** Every match reported by [scan] is a match of the pattern at some
    position of the text. *)
Lemma push_snd c r : map snd (fst (push c r)) = map snd (fst r).
Proof. by destruct r as [[|[gap m] segs] tl]. Qed.

Lemma scan_matches p : forall s skip,
  Forall (fun m => exists t, match_at p t = Some m) (map snd (fst (scan p s skip))).
Proof.
  induction s as [|c s IH]; intros [|k]; cbn.
  - destruct (match_at p EmptyString) eqn:H; cbn; eauto.
  - constructor.
  - destruct (match_at p (String c s)) as [m|] eqn:H.
    + cbn. constructor; [eauto|].
      destruct (whole m); [rewrite push_snd|]; apply IH.
    + rewrite push_snd. apply IH.
  - apply IH.
Qed.

Lemma finditer_matches p s m :
  m ∈ finditer p s -> exists t, match_at p t = Some m.
Proof.
  intros Hm. pose proof (scan_matches p s 0) as H.
  rewrite Forall_forall in H. by apply H.
Qed.

(** ** Version declarations *)

Lemma dot_only c : same_char true c "." = true -> c = "."%char.
Proof. by_cases_on_char c. Qed.

Lemma version_match_shape t m :
  match_at VERSION_RE t = Some m ->
  exists d0 d1 d2,
    group m 2 = d0 +:+ String "." (d1 +:+ String "." d2) /\
    numeral d0 /\ numeral d1 /\ numeral d2.
Proof.
  intros H. apply match_at_sound in H as [_ H]. unfold group.
  destruct m as [w caps rst]. cbn in H.
  destruct H as (w1 & w23 & c1 & -> & (c0 & _ & ->) & H).
  destruct H as (w2 & w3 & c2 & -> & (c1' & H2 & ->) & (c2' & H3 & ->)).
  destruct H3 as (? & ? & ? & -> & [_ ->] & [_ ->]).
  destruct H2 as (d0 & r0 & ? & -> & (Hd0 & Ha0 & ->) & H2).
  destruct H2 as (p0 & r1 & ? & -> & [(y0 & -> & Hy0) ->] & H2).
  destruct H2 as (d1 & r2 & ? & -> & (Hd1 & Ha1 & ->) & H2).
  destruct H2 as (p1 & d2 & ? & -> & [(y1 & -> & Hy1) ->] & (Hd2 & Ha2 & ->)).
  apply dot_only in Hy0 as ->. apply dot_only in Hy1 as ->.
  exists d0, d1, d2. cbn. by repeat split.
Qed.

Lemma int_digits_numeral ds : forall a prev,
  all_chars Py.isdecimal ds = true -> 0 <= a ->
  ds <> EmptyString \/ prev = true ->
  exists n, Py.int_digits ds a prev = Some n /\ 0 <= n.
Proof.
  induction ds as [|c ds IH]; intros a prev Hall Ha Hne; cbn.
  - destruct Hne as [Hne | ->]; [done|]. eauto.
  - cbn in Hall. apply andb_true_iff in Hall as [Hc Hall]. rewrite Hc.
    apply IH; [done| |by right]. pose proof (digit_val_range c Hc). lia.
Qed.

Lemma int_numeral ds : numeral ds -> exists n, Py.int ds = Some n /\ 0 <= n.
Proof.
  intros [Hne Hall].
  destruct (int_digits_numeral ds 0 false Hall) as (n & Hn & Hpos); [lia|by left|].
  exists n. split; [|done]. by apply int_of_digits.
Qed.

(** Every version string the pattern captures parses, to a version with
    non-negative components. *)
Lemma captured_version_parses t m :
  match_at VERSION_RE t = Some m ->
  exists v, SemVer_parse (group m 2) = Ok v /\ nonneg v.
Proof.
  intros H. destruct (version_match_shape _ _ H) as (d0 & d1 & d2 & -> & H0 & H1 & H2).
  destruct (int_numeral _ H0) as (a & Ha & ?).
  destruct (int_numeral _ H1) as (b & Hb & ?).
  destruct (int_numeral _ H2) as (c & Hc & ?).
  exists (mkSemVer a b c). split; [|done].
  apply parse_dotted; try done; by (apply H0 || apply H1 || apply H2).
Qed.

Lemma extract_versions_parse text v :
  v ∈ extract_versions text -> exists sv, SemVer_parse v = Ok sv /\ nonneg sv.
Proof.
  unfold extract_versions. intros (m & -> & Hm)%list_elem_of_fmap.
  apply finditer_matches in Hm as [t Ht]. by eapply captured_version_parses.
Qed.

(** The number of replacements is the number of declarations. *)
Lemma replace_version_count text new :
  snd (replace_version text new) = length (extract_versions text).
Proof.
  unfold replace_version, extract_versions, subn, finditer.
  destruct (scan VERSION_RE text 0) as [segs tl]. cbn. by rewrite !length_map.
Qed.

(** ** What [SemVer.parse] accepts *)

Lemma split_nonempty sep t : Py.split sep t <> [].
Proof.
  destruct t as [|c t]; cbn; [done|].
  destruct (Ascii.eqb c sep); [done|]. by destruct (Py.split sep t).
Qed.

Lemma join_cons_char sep c h tl :
  Py.join sep (String c h :: tl) = String c (Py.join sep (h :: tl)).
Proof. by destruct tl. Qed.

Lemma split_join sep t :
  Py.join (String sep EmptyString) (Py.split sep t) = t /\
  Forall (fun part => all_chars (not_char sep) part = true) (Py.split sep t).
Proof.
  induction t as [|c t [IHj IHf]]; cbn; [by repeat constructor|].
  destruct (Ascii.eqb c sep) eqn:Hc.
  - apply Ascii.eqb_eq in Hc as ->. split; [|by constructor].
    pose proof (split_nonempty sep t). destruct (Py.split sep t); [done|].
    cbn in *. by rewrite IHj.
  - pose proof (split_nonempty sep t). destruct (Py.split sep t) as [|h tl]; [done|].
    rewrite join_cons_char, IHj. split; [done|].
    inversion IHf; subst. constructor; [|done]. cbn. unfold not_char at 1.
    by rewrite Hc.
Qed.

Lemma split_three t p0 p1 p2 :
  Py.split "." t = [p0; p1; p2] <->
  t = Py.join "." [p0; p1; p2] /\
  all_chars (not_char ".") p0 = true /\
  all_chars (not_char ".") p1 = true /\
  all_chars (not_char ".") p2 = true.
Proof.
  split.
  - intros H. destruct (split_join "." t) as [Hj Hf]. rewrite H in Hj, Hf.
    inversion Hf as [|? ? ? Hf1]; subst. inversion Hf1 as [|? ? ? Hf2]; subst.
    inversion Hf2; subst. done.
  - intros (-> & H0 & H1 & H2). cbn.
    rewrite split_app by done. rewrite split_app by done.
    by rewrite split_no_sep.
Qed.

Lemma parse_ok_iff s v : SemVer_parse s = Ok v <-> three_components s v.
Proof.
  unfold SemVer_parse, three_components. split.
  - intros H.
    destruct (Py.split "." (Py.strip s)) as [|p0 [|p1 [|p2 [|? ?]]]] eqn:Hs; try done.
    apply split_three in Hs as (Hs & H0 & H1 & H2).
    exists p0, p1, p2. unfold int_or_raise in H.
    destruct (Py.int p0), (Py.int p1), (Py.int p2); cbn in H; try done.
    by simplify_eq.
  - intros (p0 & p1 & p2 & Hs & H0 & H1 & H2 & Ha & Hb & Hc).
    assert (Py.split "." (Py.strip s) = [p0; p1; p2]) as -> by by apply split_three.
    unfold int_or_raise. rewrite Ha, Hb, Hc. cbn. by destruct v.
Qed.

Lemma bump_nonneg v kind v' : nonneg v -> SemVer_bump v kind = Ok v' -> nonneg v'.
Proof.
  unfold nonneg, SemVer_bump. intros (Ha & Hb & Hc) H.
  repeat (destruct (String.eqb _ _); [simplify_eq; cbn; lia|]). done.
Qed.

(** C9, counterexample: [parse] reads a signed component, so a result of
    [parse] can have a negative component. *)
Lemma parse_negative_component :
  exists v, SemVer_parse "-1.2.3" = Ok v /\ major v < 0.
Proof. exists (mkSemVer (-1) 2 3). split; [by vm_compute | done]. Qed.

(** C9, amended: the versions the script constructs are [parse] of a string
    captured by the version pattern and [bump] of such a version, and they
    have non-negative components; [parse] succeeds exactly on the strings
    that, once stripped, split at the dots into three parts each read by
    [int], and raises otherwise. *)
Theorem constructed_versions_nonneg (s : string) :
  (forall text, s ∈ extract_versions text ->
     exists v, SemVer_parse s = Ok v /\ nonneg v /\
       forall kind v', SemVer_bump v kind = Ok v' -> nonneg v') /\
  (forall v, SemVer_parse s = Ok v <-> three_components s v) /\
  ((exists e, SemVer_parse s = Raise e) <-> ~ exists v, three_components s v).
Proof.
  split; [|split].
  - intros text Hs. destruct (extract_versions_parse _ _ Hs) as (v & Hv & Hn).
    exists v. split; [done|]. split; [done|]. intros kind v'. by apply bump_nonneg.
  - apply parse_ok_iff.
  - split.
    + intros [e He] [v Hv%parse_ok_iff]. congruence.
    + intros Hno. destruct (SemVer_parse s) as [v|e] eqn:H; [|eauto].
      destruct Hno. exists v. by apply parse_ok_iff.
Qed.

Lemma constructed_versions_nonneg_witness :
  exists v, SemVer_parse "1.2.3" = Ok v /\ nonneg v /\
    forall kind v', SemVer_bump v kind = Ok v' -> nonneg v'.
Proof.
  apply (proj1 (constructed_versions_nonneg "1.2.3") "<Version>1.2.3</Version>").
  vm_compute. left.
Defined.

(** ** Root resolution *)

Section RootResolution.

Variable f : fsmap.

Lemma ancestors_self p : p ∈ ancestors p.
Proof. destruct p; left. Qed.

Lemma ancestors_length p a : a ∈ ancestors p -> (length a <= length p)%nat.
Proof.
  induction p as [|c p IH]; cbn.
  - by intros ->%list_elem_of_singleton.
  - intros [->|H]%elem_of_cons; [done|]. specialize (IH H). cbn. lia.
Qed.

Lemma not_own_parent_ancestor c p : c :: p ∉ ancestors p.
Proof. intros H%ancestors_length. cbn in H. lia. Qed.

Lemma find_none_barren l :
  List.find (has_solution f) l = None -> forall a, a ∈ l -> has_solution f a = false.
Proof.
  intros H a Ha. apply (List.find_none _ _ H). by apply list_elem_of_In.
Qed.

Lemma walk_up_found : forall p V r,
  List.find (has_solution f) (ancestors p) = Some r ->
  (forall q, q ∈ V -> q ∈ ancestors p -> r ∈ ancestors q -> False) ->
  fst (walk_up f p V) = Some r.
Proof.
  induction p as [|c p IH]; intros V r Hfind HV.
  - cbn in *. unfold has_solution in Hfind.
    assert (r ∈ ancestors []) as Hr.
    { destruct (glob f [] ".sln"); [done|]. simplify_eq. left. }
    case_bool_decide as Hin; [destruct (HV [] Hin); by (left || done)|].
    destruct (glob f [] ".sln"); [done|]. by simplify_eq.
  - assert (r ∈ ancestors (c :: p)) as Hr.
    { apply list_elem_of_In. eapply List.find_some, Hfind. }
    cbn [walk_up]. case_bool_decide as Hin.
    { destruct (HV _ Hin); [apply ancestors_self | done]. }
    cbn [ancestors List.find] in Hfind. unfold has_solution in Hfind at 1.
    destruct (glob f (c :: p) ".sln"); [|by simplify_eq].
    apply IH; [done|]. intros q [Hq| ->%elem_of_singleton]%elem_of_union Hqa Hrq.
    + apply (HV q Hq); [by right | done].
    + by apply not_own_parent_ancestor in Hqa.
Qed.

Lemma walk_up_not_found : forall p V,
  barren f V ->
  List.find (has_solution f) (ancestors p) = None ->
  fst (walk_up f p V) = None /\ barren f (snd (walk_up f p V)).
Proof.
  induction p as [|c p IH]; intros V HV Hfind.
  - pose proof (find_none_barren _ Hfind) as Hb.
    cbn [walk_up]. case_bool_decide; [done|].
    assert (has_solution f [] = false) as H0 by (apply Hb; left).
    unfold has_solution in H0. destruct (glob f [] ".sln"); [|done].
    split; [done|]. cbn [snd].
    intros q a [Hq| ->%elem_of_singleton]%elem_of_union Ha; eauto.
  - pose proof (find_none_barren _ Hfind) as Hb.
    cbn [walk_up]. case_bool_decide; [done|].
    assert (has_solution f (c :: p) = false) as H0 by (apply Hb; apply ancestors_self).
    unfold has_solution in H0. destruct (glob f (c :: p) ".sln"); [|done].
    apply IH.
    + intros q a [Hq| ->%elem_of_singleton]%elem_of_union Ha; eauto.
    + cbn [ancestors List.find] in Hfind.
      by destruct (has_solution f (c :: p)).
Qed.

Lemma find_app {A} (g : A -> bool) l1 l2 :
  List.find g (l1 ++ l2) =
  match List.find g l1 with
  | Some x => Some x
  | None => List.find g l2
  end.
Proof. induction l1 as [|x l1 IH]; cbn; [done|]. by destruct (g x). Qed.

Lemma search_from_spec : forall starts V,
  barren f V ->
  search_from f starts V = List.find (has_solution f) (concat (map ancestors starts)).
Proof.
  induction starts as [|p starts IH]; intros V HV; cbn; [done|].
  rewrite find_app.
  destruct (List.find (has_solution f) (ancestors p)) as [r|] eqn:Hfind.
  - pose proof (walk_up_found p V r Hfind) as Hw.
    destruct (walk_up f p V) as [o V']. cbn in Hw. rewrite Hw; [done|].
    intros q Hq _ Hr. apply List.find_some in Hfind as [_ Hsol].
    by rewrite (HV q r Hq Hr) in Hsol.
  - destruct (walk_up_not_found p V HV Hfind) as [Hw HV'].
    destruct (walk_up f p V) as [o V']. cbn in Hw, HV'. subst o. by apply IH.
Qed.

End RootResolution.

Lemma find_repo_root_eq (E : env) (w : world) :
  find_repo_root E w =
  match List.find (has_solution (fs w)) (ancestors (cwd E) ++ ancestors (script_dir E)) with
  | Some root => (Ok root, w)
  | None => (Raise (RuntimeError ROOT_NOT_FOUND), w)
  end.
Proof.
  unfold find_repo_root, bind, get_fs.
  rewrite search_from_spec by (intros q a Hq; by apply elem_of_empty in Hq).
  cbn [map concat]. rewrite app_nil_r.
  by destruct (List.find _ _).
Qed.

(** C7: root resolution returns the first directory holding a solution
    file among the ancestors of the working directory, nearest first,
    followed by the ancestors of the script's directory, nearest first; when
    there is none it raises the root-not-found error.  It changes nothing. *)
Theorem find_repo_root_first_qualifying (E : env) (w : world) :
  find_repo_root E w =
  match List.find (has_solution (fs w)) (ancestors (cwd E) ++ ancestors (script_dir E)) with
  | Some root => (Ok root, w)
  | None => (Raise (RuntimeError ROOT_NOT_FOUND), w)
  end.
Proof. apply find_repo_root_eq. Qed.

(** ** Reasoning about runs *)

Lemma bind_eq {A B} (m : M A) (k : A -> M B) w :
  bind m k w = match m w with
               | (Ok a, w') => k a w'
               | (Raise e, w') => (Raise e, w')
               end.
Proof. done. Qed.

Lemma ext_refl P w : ext P w w.
Proof. exists []. by rewrite app_nil_r. Qed.

Lemma ext_trans P w1 w2 w3 : ext P w1 w2 -> ext P w2 w3 -> ext P w1 w3.
Proof.
  intros (e1 & H1 & F1) (e2 & H2 & F2). exists (e1 ++ e2).
  rewrite H2, H1, app_assoc. split; [done|]. by apply Forall_app.
Qed.

Lemma ext_impl (P Q : event -> Prop) w w' :
  (forall ev, P ev -> Q ev) -> ext P w w' -> ext Q w w'.
Proof. intros HPQ (evs & H & F). exists evs. split; [done|]. eapply Forall_impl; eauto. Qed.

Lemma ext_emit (P : event -> Prop) ev w : P ev -> ext P w (snd (emit ev w)).
Proof. intros H. exists [ev]. cbn. split; [done|]. by constructor. Qed.

Section Respects.

Context (R : world -> world -> Prop) `{!Reflexive R} `{!Transitive R}.

Lemma respects_ret {A} (a : A) : respects R (ret a).
Proof. intros w. cbn. reflexivity. Qed.

Lemma respects_raise {A} e : respects R (@raise A e).
Proof. intros w. cbn. reflexivity. Qed.

Lemma respects_lift {A} (r : result A) : respects R (lift r).
Proof. intros w. cbn. reflexivity. Qed.

Lemma respects_get_fs : respects R get_fs.
Proof. intros w. cbn. reflexivity. Qed.

Lemma respects_bind {A B} (m : M A) (k : A -> M B) :
  respects R m -> (forall a, respects R (k a)) -> respects R (bind m k).
Proof.
  intros Hm Hk w. rewrite bind_eq. specialize (Hm w).
  destruct (m w) as [[a|e] w']; cbn in *; [|done].
  etrans; [exact Hm|]. apply Hk.
Qed.

Lemma respects_for_each {A} (l : list A) (body : A -> M unit) :
  (forall x, respects R (body x)) -> respects R (for_each l body).
Proof.
  intros Hb. induction l as [|x l IH]; cbn [for_each].
  - apply respects_ret.
  - apply respects_bind; [apply Hb | by intros _].
Qed.

Lemma respects_rel_of p root : respects R (rel_of p root).
Proof. unfold rel_of. destruct (relative_to p root); [apply respects_ret | apply respects_raise]. Qed.

Lemma respects_read_text p : respects R (read_text p).
Proof.
  unfold read_text. apply respects_bind; [apply respects_get_fs|].
  intros f. destruct (f !! p) as [[]|]; (apply respects_ret || apply respects_raise).
Qed.

End Respects.

#[global] Instance ext_reflexive P : Reflexive (ext P).
Proof. intros w. apply ext_refl. Qed.

#[global] Instance ext_transitive P : Transitive (ext P).
Proof. intros w1 w2 w3. apply ext_trans. Qed.

(** ** Base version selection *)

Lemma forallb_elem_of {A} (g : A -> bool) l :
  forallb g l = true <-> forall x, x ∈ l -> g x = true.
Proof.
  rewrite List.forallb_forall. split; intros H x Hx; apply H; by apply list_elem_of_In.
Qed.

Lemma existsb_elem_of {A} (g : A -> bool) l :
  existsb g l = true <-> exists x, x ∈ l /\ g x = true.
Proof.
  rewrite List.existsb_exists. split; intros (x & Hx & Hg); exists x;
    (split; [by apply list_elem_of_In | done]).
Qed.

Lemma find_split {A} (g : A -> bool) l p :
  List.find g l = Some p ->
  exists l1 l2, l = l1 ++ p :: l2 /\ g p = true /\ forall x, x ∈ l1 -> g x = false.
Proof.
  induction l as [|x l IH]; cbn; [done|]. destruct (g x) eqn:Hx.
  - intros [= ->]. exists [], l. split; [done|]. split; [done|]. by intros ? ?%elem_of_nil.
  - intros (l1 & l2 & -> & Hp & Hl1)%IH. exists (x :: l1), l2.
    split; [done|]. split; [done|]. intros y [->|Hy]%elem_of_cons; auto.
Qed.

Lemma find_none_elem_of {A} (g : A -> bool) l :
  List.find g l = None -> forall x, x ∈ l -> g x = false.
Proof. intros H x Hx. apply (List.find_none _ _ H). by apply list_elem_of_In. Qed.

#[global] Instance key_le_transitive {A} (key : A -> string) : Transitive (key_le key).
Proof. intros a b c. unfold key_le. apply transitivity. Qed.

#[global] Instance key_le_total {A} (key : A -> string) : Total (key_le key).
Proof. intros a b. unfold key_le. apply total, _. Qed.

Lemma read_text_file p w :
  is_file (fs w) p = true -> read_text p w = (Ok (file_text (fs w) p), w).
Proof.
  unfold is_file, file_text, read_text. rewrite bind_eq. cbn.
  by destruct (fs w !! p) as [[]|].
Qed.

Lemma first_version_spec : forall l w,
  forallb (is_file (fs w)) l = true ->
  first_version l w =
  match List.find (has_version (fs w)) l with
  | Some p => (SemVer_parse (hd EmptyString (versions_in (fs w) p)), w)
  | None => (Raise (RuntimeError NO_VERSION_FOUND), w)
  end.
Proof.
  induction l as [|p l IH]; intros w Hfiles; cbn [first_version List.find]; [done|].
  cbn in Hfiles. apply andb_true_iff in Hfiles as [Hp Hl].
  rewrite bind_eq, read_text_file by done.
  unfold has_version, versions_in.
  destruct (extract_versions (file_text (fs w) p)) eqn:Hv;
    [by apply IH | by cbv beta; rewrite Hv].
Qed.

Lemma choose_base_version_eq projects w :
  forallb (is_file (fs w)) projects = true ->
  choose_base_version projects w = (base_of (fs w) projects, w).
Proof.
  intros Hfiles. unfold choose_base_version, base_of. rewrite first_version_spec.
  - by destruct (List.find _ _).
  - apply forallb_elem_of. intros x Hx. unfold sorted_by in Hx.
    rewrite merge_sort_Permutation in Hx. revert x Hx. by apply forallb_elem_of.
Qed.

Lemma choose_base_version_spec (projects : list Path) (w : world) :
  forallb (is_file (fs w)) projects = true ->
  if existsb (has_version (fs w)) projects then
    exists p s more v,
      p ∈ projects /\
      versions_in (fs w) p = s :: more /\
      (forall q, q ∈ projects -> has_version (fs w) q = true ->
                 String.le (as_posix p) (as_posix q)) /\
      SemVer_parse s = Ok v /\
      choose_base_version projects w = (Ok v, w)
  else choose_base_version projects w = (Raise (RuntimeError NO_VERSION_FOUND), w).
Proof.
  intros Hfiles. unfold choose_base_version, sorted_by.
  pose proof (merge_sort_Permutation (key_le as_posix) projects) as Hperm.
  pose proof (StronglySorted_merge_sort (key_le as_posix) projects) as Hsorted.
  revert Hperm Hsorted. generalize (merge_sort (key_le as_posix) projects).
  intros l Hperm Hsorted.
  assert (forall x, x ∈ l <-> x ∈ projects) as Hmem by (intros x; by rewrite Hperm).
  rewrite first_version_spec.
  2: { apply forallb_elem_of. intros x Hx%Hmem. revert x Hx. by apply forallb_elem_of. }
  destruct (List.find (has_version (fs w)) l) as [p|] eqn:Hfind.
  - destruct (find_split _ _ _ Hfind) as (l1 & l2 & -> & Hp & Hl1).
    assert (p ∈ projects) as Hpin by (apply Hmem, elem_of_app; right; left).
    assert (existsb (has_version (fs w)) projects = true) as ->.
    { apply existsb_elem_of. by exists p. }
    unfold has_version in Hp.
    destruct (versions_in (fs w) p) as [|s more] eqn:Hvs; [done|].
    destruct (extract_versions_parse (file_text (fs w) p) s) as (v & Hv & _).
    { unfold versions_in in Hvs. rewrite Hvs. left. }
    exists p, s, more, v. split; [done|].
    split; [done|]. split; [|cbv beta; rewrite ?Hvs; cbn [hd]; by rewrite Hv].
    intros q Hq%Hmem Hqv.
    apply elem_of_app in Hq as [Hq|Hq].
    + by rewrite (Hl1 q Hq) in Hqv.
    + apply StronglySorted_app_1_r in Hsorted.
      apply elem_of_cons in Hq as [->|Hq]; [done|].
      apply StronglySorted_cons in Hsorted as [Hall _].
      rewrite Forall_forall in Hall. by apply Hall.
  - assert (existsb (has_version (fs w)) projects = false) as ->; [|done].
    apply not_true_is_false. intros (x & Hx%Hmem & Hxv)%existsb_elem_of.
    by rewrite (find_none_elem_of _ _ Hfind x Hx) in Hxv.
Qed.

(** C6: the base version is the first version declaration of the manifest
    that comes first in the order of the path strings among those that hold
    a declaration; when no manifest holds one, the no-version-found error
    is raised.  The manifests are taken to be readable files. *)
Theorem choose_base_version_first_declaration (projects : list Path) (w : world) :
  forallb (is_file (fs w)) projects = true ->
  if existsb (has_version (fs w)) projects then
    exists p s more v,
      p ∈ projects /\
      versions_in (fs w) p = s :: more /\
      (forall q, q ∈ projects -> has_version (fs w) q = true ->
                 String.le (as_posix p) (as_posix q)) /\
      SemVer_parse s = Ok v /\
      choose_base_version projects w = (Ok v, w)
  else choose_base_version projects w = (Raise (RuntimeError NO_VERSION_FOUND), w).
Proof. apply choose_base_version_spec. Qed.

(** ** Discovery of the manifests *)

Lemma sorted_paths_elem_of l x : x ∈ sorted_paths l <-> x ∈ l.
Proof. unfold sorted_paths. by rewrite merge_sort_Permutation. Qed.

Lemma sorted_paths_nil l : sorted_paths l = [] -> l = [].
Proof.
  intros H. apply Permutation_nil_r. rewrite <- H. unfold sorted_paths.
  by rewrite merge_sort_Permutation.
Qed.

Lemma glob_elem_of f d ext p :
  p ∈ glob f d ext <->
  exists nm, p = nm :: d /\ Py.endswith nm ext = true /\ is_Some (f !! p).
Proof.
  unfold glob. rewrite list_elem_of_filter, list_elem_of_fmap. split.
  - intros [Hp ([q e] & -> & Hq%elem_of_map_to_list)]. cbn in *.
    unfold in_dir_with_ext in Hp. destruct q as [|nm d']; [done|].
    apply Is_true_true, andb_true_iff in Hp as [->%bool_decide_eq_true Hext].
    eauto.
  - intros (nm & -> & Hext & [e He]). split.
    + cbn. rewrite Hext, bool_decide_eq_true_2 by done. done.
    + exists (nm :: d, e). split; [done|]. by apply elem_of_map_to_list.
Qed.

(** A directory qualifies as a root when it holds an entry whose name
    ends in [.sln]. *)
Lemma has_solution_spec f d :
  has_solution f d = true <->
  exists nm, Py.endswith nm ".sln" = true /\ is_Some (f !! (nm :: d)).
Proof.
  unfold has_solution. split.
  - destruct (glob f d ".sln") as [|p l] eqn:Hg; [done|]. intros _.
    assert (p ∈ glob f d ".sln") as Hp by (rewrite Hg; left).
    apply glob_elem_of in Hp as (nm & -> & Hext & Hsome). eauto.
  - intros (nm & Hext & Hsome).
    assert (nm :: d ∈ glob f d ".sln") as Hp by (apply glob_elem_of; eauto).
    destruct (glob f d ".sln"); [by apply elem_of_nil in Hp | done].
Qed.

Lemma find_solution_file_ok root w :
  has_solution (fs w) root = true ->
  exists sln w1,
    find_solution_file root w = (Ok sln, w1) /\ fs w1 = fs w /\ ext is_output w w1.
Proof.
  unfold has_solution, find_solution_file. intros H. rewrite bind_eq. cbn [get_fs].
  destruct (sorted_paths (glob (fs w) root ".sln")) as [|sln [|sln' l]] eqn:Hs.
  - apply sorted_paths_nil in Hs. by rewrite Hs in H.
  - exists sln, w. split; [done|]. split; [done|]. apply ext_refl.
  - eexists sln, _. rewrite bind_eq. cbn [eprint emit ret]. split; [done|].
    split; [done|]. by apply (ext_emit is_output).
Qed.

Lemma collect_csproj_eq root : forall dirs w,
  exists w1,
    collect_csproj root dirs w = (Ok (collected (fs w) root dirs), w1) /\
    fs w1 = fs w /\ ext is_output w w1.
Proof.
  induction dirs as [|rel dirs IH]; intros w; cbn [collect_csproj collected flat_map].
  - exists w. split; [done|]. split; [done|]. apply ext_refl.
  - rewrite bind_eq. cbn [get_fs]. destruct (exists_ (fs w) (join_path root rel)).
    + destruct (IH w) as (w1 & Heq & Hfs & Hext). exists w1.
      rewrite bind_eq, Heq. cbn [ret]. by rewrite Hfs.
    + rewrite bind_eq. cbn [eprint emit].
      set (w0 := World (fs w) _).
      destruct (IH w0) as (w1 & Heq & Hfs & Hext). exists w1.
      rewrite Heq. split; [done|]. split; [done|].
      etrans; [|exact Hext]. by apply (ext_emit is_output).
Qed.

Lemma find_csproj_files_eq root w :
  exists w1,
    find_csproj_files root w = (Ok (discovered (fs w) root), w1) /\
    fs w1 = fs w /\ ext is_output w w1.
Proof.
  destruct (collect_csproj_eq root PROJECT_DIRS w) as (w1 & Heq & Hfs & Hext).
  exists w1. unfold find_csproj_files. rewrite bind_eq, Heq. by cbn [ret].
Qed.

Lemma dedupe_spec : forall files seen,
  NoDup (dedupe files seen) /\
  forall x, x ∈ dedupe files seen -> x ∈ files /\ x ∉ seen.
Proof.
  induction files as [|x files IH]; intros seen; cbn [dedupe].
  - split; [constructor | by intros ? ?%elem_of_nil].
  - unfold resolve. case_bool_decide as Hx.
    + destruct (IH seen) as [Hnd Hin]. split; [done|].
      intros y Hy. destruct (Hin y Hy). split; [by right | done].
    + destruct (IH (seen ∪ {[x]})) as [Hnd Hin]. split.
      * constructor; [|done]. intros [_ Hx']%Hin.
        apply Hx', elem_of_union. right. by apply elem_of_singleton.
      * intros y [->|Hy]%elem_of_cons; [split; [by left | done]|].
        destruct (Hin y Hy) as [Hyf Hys]. split; [by right|].
        intros Hs. apply Hys, elem_of_union. by left.
Qed.

Lemma collected_under root f : forall dirs p,
  p ∈ collected f root dirs ->
  exists nm rel, rel ∈ dirs /\ p = nm :: rel ++ root.
Proof.
  induction dirs as [|rel dirs IH]; intros p; cbn [collected flat_map];
    [by intros ?%elem_of_nil|].
  intros [Hp|Hp]%elem_of_app.
  - destruct (exists_ f (join_path root rel)); [|by apply elem_of_nil in Hp].
    apply sorted_paths_elem_of, glob_elem_of in Hp as (nm & -> & _).
    exists nm, rel. split; [by left | done].
  - destruct (IH p Hp) as (nm & rel' & Hrel & ->). exists nm, rel'.
    split; [by right | done].
Qed.

Lemma relative_to_app x root : relative_to (x ++ root) root = Some x.
Proof.
  induction x as [|c x IH]; cbn [app].
  - destruct root; cbn; by rewrite decide_True.
  - cbn [relative_to]. rewrite decide_False.
    + by rewrite IH.
    + intros H. apply (f_equal length) in H. cbn in H. rewrite length_app in H. lia.
Qed.

Lemma discovered_spec f root :
  NoDup (discovered f root) /\
  forall p, p ∈ discovered f root -> exists rel, relative_to p root = Some rel.
Proof.
  unfold discovered. destruct (dedupe_spec (collected f root PROJECT_DIRS) ∅) as [Hnd Hin].
  split; [done|]. intros p [Hp _]%Hin.
  apply collected_under in Hp as (nm & rel & _ & ->).
  exists (nm :: rel). apply (relative_to_app (nm :: rel)).
Qed.

(** ** The rewriting loop *)

Lemma write_text_file p text w :
  is_file (fs w) p = true ->
  write_text p text w
  = (Ok tt, World (<[p := File text]> (fs w)) (trace w ++ [EvWrite p text])).
Proof.
  unfold is_file, write_text. rewrite bind_eq. cbn [get_fs].
  by destruct (fs w !! p) as [[]|].
Qed.

Lemma rel_of_some p root rel w : relative_to p root = Some rel -> rel_of p root w = (Ok rel, w).
Proof. unfold rel_of. by intros ->. Qed.

Lemma is_file_insert_ne f p q e : p <> q -> is_file (<[p := e]> f) q = is_file f q.
Proof. intros H. unfold is_file. by rewrite lookup_insert_ne. Qed.

Lemma file_text_insert_ne f p q e : p <> q -> file_text (<[p := e]> f) q = file_text f q.
Proof. intros H. unfold file_text. by rewrite lookup_insert_ne. Qed.

Lemma has_version_insert_ne f p q e : p <> q -> has_version (<[p := e]> f) q = has_version f q.
Proof. intros H. unfold has_version, versions_in. by rewrite file_text_insert_ne. Qed.

(** What the loop has done when it stops at the first manifest [p] without
    a version declaration: every manifest before [p] whose text changed
    holds its rewritten text and was written, every other path is untouched,
    and no external tool was run. *)
Lemma rewrite_all_stops root nv p post rp : forall pre changed w,
  NoDup (pre ++ [p]) ->
  (forall q, q ∈ pre ++ [p] ->
     is_file (fs w) q = true /\ exists r, relative_to q root = Some r) ->
  (forall q, q ∈ pre -> has_version (fs w) q = true) ->
  has_version (fs w) p = false ->
  relative_to p root = Some rp ->
  exists w',
    rewrite_all root nv (pre ++ p :: post) changed w
    = (Raise (RuntimeError (missing_version_msg rp)), w') /\
    ext not_exec w w' /\
    (forall q, q ∈ pre ->
       rewrite_left nv (fs w) (fs w') q /\
       (fst (replace_version (file_text (fs w) q) nv) <> file_text (fs w) q ->
        EvWrite q (fst (replace_version (file_text (fs w) q) nv)) ∈ trace w')) /\
    (forall q, q ∉ pre -> fs w' !! q = fs w !! q).
Proof.
  induction pre as [|q pre IH]; intros changed w Hnd Hfiles Hvers Hp Hrp.
  - exists w. cbn [app rewrite_all]. rewrite bind_eq, read_text_file.
    2: { apply Hfiles. left. }
    unfold has_version, versions_in in Hp.
    destruct (extract_versions (file_text (fs w) p)); [|done].
    rewrite bind_eq, (rel_of_some _ _ _ _ Hrp). cbn [raise].
    split; [done|]. split; [apply ext_refl|].
    split; [by intros ? ?%elem_of_nil | done].
  - cbn [app] in *. apply NoDup_cons in Hnd as [Hq Hnd].
    destruct (Hfiles q) as [Hqf [rq Hrq]]; [by left|].
    pose proof (Hvers q (list_elem_of_here _ _)) as Hqv.
    cbn [rewrite_all]. rewrite bind_eq, read_text_file by done.
    unfold has_version, versions_in in Hqv.
    pose proof (replace_version_count (file_text (fs w) q) nv) as Hcount.
    destruct (extract_versions (file_text (fs w) q)) as [|v vs]; [done|].
    cbv zeta. rewrite Hcount. cbn [length Nat.leb].
    set (new := fst (replace_version (file_text (fs w) q) nv)).
    assert (forall w1,
              (fs w1 = <[q := File new]> (fs w) /\ new <> file_text (fs w) q)
              \/ (fs w1 = fs w /\ new = file_text (fs w) q) ->
              ext not_exec w w1 ->
              (new <> file_text (fs w) q -> EvWrite q new ∈ trace w1) ->
              forall changed1,
              exists w',
                rewrite_all root nv (pre ++ p :: post) changed1 w1
                = (Raise (RuntimeError (missing_version_msg rp)), w') /\
                ext not_exec w w' /\
                (forall q0, q0 ∈ q :: pre ->
                   rewrite_left nv (fs w) (fs w') q0 /\
                   (fst (replace_version (file_text (fs w) q0) nv) <> file_text (fs w) q0 ->
                    EvWrite q0 (fst (replace_version (file_text (fs w) q0) nv)) ∈ trace w')) /\
                (forall q0, q0 ∉ q :: pre -> fs w' !! q0 = fs w !! q0)) as Hstep.
    { intros w1 Hfs1 Hext1 Hwr1 changed1.
      assert (forall x, x <> q -> fs w1 !! x = fs w !! x) as Hother.
      { intros x Hx. destruct Hfs1 as [[-> _] | [-> _]]; [by rewrite lookup_insert_ne | done]. }
      assert (forall x, x <> q -> is_file (fs w1) x = is_file (fs w) x) as Hisf.
      { intros x Hx. unfold is_file. by rewrite Hother. }
      assert (forall x, x <> q -> file_text (fs w1) x = file_text (fs w) x) as Htxt.
      { intros x Hx. unfold file_text. by rewrite Hother. }
      assert (forall x, x ∈ pre ++ [p] -> x <> q) as Hne by (intros x Hx ->; done).
      destruct (IH changed1 w1) as (w' & Heq & Hext & Hpre & Hrest); try done.
      { intros x Hx. rewrite Hisf by by apply Hne. apply Hfiles. by right. }
      { intros x Hx. unfold has_version, versions_in.
        rewrite Htxt by (apply Hne, elem_of_app; by left).
        apply (Hvers x). by right. }
      { unfold has_version, versions_in.
        rewrite Htxt by (apply Hne, elem_of_app; right; left). exact Hp. }
      exists w'. split; [done|]. split; [by etrans|]. split.
      - intros x [->|Hx]%elem_of_cons.
        + assert (fs w' !! q = fs w1 !! q) as Hq'
            by (apply Hrest; intros Hin; apply Hq, elem_of_app; by left).
          split.
          * unfold rewrite_left. cbv zeta. fold new. rewrite Hq'.
            destruct Hfs1 as [[-> Hchg] | [-> Hsame]].
            -- split; [intros _; by rewrite lookup_insert_eq | done].
            -- split; [done | done].
          * intros Hchg. destruct Hext as (evs & -> & _).
            apply elem_of_app. left. by apply Hwr1.
        + assert (x <> q) as Hxq by (apply Hne, elem_of_app; by left).
          destruct (Hpre x Hx) as [Hleft Hwr]. unfold rewrite_left in *.
          rewrite (Htxt x Hxq), (Hother x Hxq) in Hleft. rewrite (Htxt x Hxq) in Hwr.
          done.
      - intros x Hx. apply not_elem_of_cons in Hx as [Hxq Hx].
        rewrite Hrest by done. by apply Hother. }
    destruct (String.eqb new (file_text (fs w) q)) eqn:Hsame; cbn [negb].
    + apply String.eqb_eq in Hsame.
      rewrite bind_eq, (rel_of_some _ _ _ _ Hrq), bind_eq. cbn [print emit].
      apply Hstep; [by right | by apply (ext_emit not_exec) | done].
    + apply String.eqb_neq in Hsame.
      rewrite bind_eq, write_text_file by done.
      rewrite bind_eq, (rel_of_some _ _ _ _ Hrq), bind_eq. cbn [print emit fs trace].
      apply Hstep; cbn [fs trace].
      * by left.
      * eexists [_; _]. rewrite <- app_assoc. split; [done|]. by repeat constructor.
      * intros _. rewrite <- app_assoc. apply elem_of_app. right. left.
Qed.

(** ** The version-bump stage *)

Lemma bump_valid_mode base mode :
  mode ∈ ["major"; "minor"; "patch"] -> exists target, SemVer_bump base mode = Ok target.
Proof.
  intros Hm. repeat (apply elem_of_cons in Hm as [->|Hm]); [..|by apply elem_of_nil in Hm];
    eexists; reflexivity.
Qed.

Lemma match_nonempty {A B} (l : list A) (a b : B) :
  l <> [] -> match l with [] => a | _ :: _ => b end = b.
Proof. by destruct l. Qed.

Lemma ext_output_not_exec w w' : ext is_output w w' -> ext not_exec w w'.
Proof. apply ext_impl. by intros []. Qed.

(** The stage stops at the first manifest [p] without a version
    declaration. *)
Lemma bump_stops root mode pre p post w :
  mode ∈ ["major"; "minor"; "patch"] ->
  discovered (fs w) root = pre ++ p :: post ->
  forallb (is_file (fs w)) (discovered (fs w) root) = true ->
  forallb (has_version (fs w)) pre = true ->
  has_version (fs w) p = false ->
  exists rel w',
    relative_to p root = Some rel /\
    ext not_exec w w' /\
    if existsb (has_version (fs w)) (discovered (fs w) root) then
      exists base target,
        base_of (fs w) (discovered (fs w) root) = Ok base /\
        SemVer_bump base mode = Ok target /\
        bump_versions_in_projects root mode w
        = (Raise (RuntimeError (missing_version_msg rel)), w') /\
        nonneg target /\
        (forall q, q ∈ pre ->
           let new := fst (replace_version (file_text (fs w) q) (SemVer_str target)) in
           rewrite_left (SemVer_str target) (fs w) (fs w') q /\
           (new <> file_text (fs w) q -> EvWrite q new ∈ trace w')) /\
        (forall q, q ∉ pre -> fs w' !! q = fs w !! q)
    else
      bump_versions_in_projects root mode w = (Raise (RuntimeError NO_VERSION_FOUND), w') /\
      fs w' = fs w.
Proof.
  intros Hmode Hdisc Hfiles Hpre Hp.
  destruct (discovered_spec (fs w) root) as [Hnd Hrel].
  destruct (Hrel p) as [rel Hrelp]; [rewrite Hdisc; apply elem_of_app; right; left|].
  destruct (find_csproj_files_eq root w) as (w1 & Hfind & Hfs1 & Hext1).
  pose proof (choose_base_version_spec (discovered (fs w) root) w Hfiles) as Hbase.
  rewrite choose_base_version_eq in Hbase by done.
  assert (choose_base_version (discovered (fs w) root) w1
          = (base_of (fs w) (discovered (fs w) root), w1)) as Hchoose.
  { rewrite <- Hfs1. apply choose_base_version_eq. by rewrite Hfs1. }
  unfold bump_versions_in_projects. rewrite bind_eq, Hfind.
  rewrite match_nonempty by (rewrite Hdisc; by destruct pre).
  rewrite bind_eq, Hchoose.
  destruct (existsb (has_version (fs w)) (discovered (fs w) root)).
  - destruct Hbase as (p0 & s0 & more & base & _ & Hs0 & _ & Hparse & [= Hbase]).
    rewrite Hbase.
    destruct (bump_valid_mode base mode Hmode) as [target Htarget].
    assert (nonneg target) as Hnonneg.
    { destruct (extract_versions_parse (file_text (fs w) p0) s0) as (sv & Hsv & Hnn).
      { unfold versions_in in Hs0. rewrite Hs0. left. }
      rewrite Hparse in Hsv. injection Hsv as <-. by apply (bump_nonneg base mode). }
    set (w2 := World (fs w1) (trace w1 ++
      [EvStdout ("Version bump: " +:+ SemVer_str base +:+ " -> " +:+ SemVer_str target)])).
    destruct (rewrite_all_stops root (SemVer_str target) p post rel pre [] w2)
      as (w' & Hrw & Hext & Hprefix & Hrest); cbn [w2 fs]; rewrite ?Hfs1.
    { rewrite Hdisc in Hnd. apply NoDup_app in Hnd as (Hnd1 & Hdisj & Hnd2).
      apply NoDup_app. split; [done|]. split; [|apply NoDup_singleton].
      intros x Hx ->%list_elem_of_singleton. apply (Hdisj p Hx). left. }
    { intros q Hq. split.
      - revert q Hq. apply forallb_elem_of. rewrite Hdisc in Hfiles.
        rewrite forallb_app in Hfiles. apply andb_true_iff in Hfiles as [H1 H2].
        rewrite forallb_app, H1. cbn in *. by destruct (is_file (fs w) p).
      - apply Hrel. rewrite Hdisc. apply elem_of_app in Hq as [Hq| ->%list_elem_of_singleton];
          apply elem_of_app; [by left | right; left]. }
    { by apply forallb_elem_of. }
    { done. }
    { done. }
    exists rel, w'. split; [done|]. split.
    { etrans; [by apply ext_output_not_exec|]. etrans; [|exact Hext].
      by apply (ext_emit not_exec). }
    exists base, target. split; [done|]. split; [done|]. split.
    { rewrite bind_eq. unfold lift at 1. rewrite Htarget.
      cbv zeta. rewrite bind_eq. cbn [print emit]. fold w2.
      rewrite bind_eq, Hdisc. by rewrite Hrw. }
    cbn [w2 fs] in Hprefix, Hrest. rewrite Hfs1 in Hprefix, Hrest. done.
  - injection Hbase as Hbase. rewrite Hbase.
    exists rel, w1. split; [done|]. split; [by apply ext_output_not_exec|]. done.
Qed.

(** ** The run as a whole *)

Lemma bump_mode_cases mode :
  mode ∈ ["major"; "minor"; "patch"] ->
  bool_decide (mode ∈ ["major"; "minor"; "patch"; "publish-only"]) = true /\
  String.eqb mode "publish-only" = false.
Proof.
  intros Hm. repeat (apply elem_of_cons in Hm as [->|Hm]); [..|by apply elem_of_nil in Hm];
    by vm_compute.
Qed.

(** In a bump mode the run reaches the version-bump stage having only
    printed, and an exception of that stage ends [main]. *)
Lemma main_enters_bump E w argv mode root :
  bump_setup E w argv mode root ->
  exists w2,
    fs w2 = fs w /\ ext is_output w w2 /\
    forall e w', bump_versions_in_projects root mode w2 = (Raise e, w') ->
                 main E argv w = (Raise e, w').
Proof.
  intros (a0 & arg1 & arg2 & -> & Hmode & Hin & Hkey & Hroot).
  destruct (bump_mode_cases mode Hin) as [Hdec Hpub].
  assert (has_solution (fs w) root = true) as Hsol.
  { by apply List.find_some in Hroot as [_ ?]. }
  destruct (find_solution_file_ok root w Hsol) as (sln & w1 & Hsln & Hfs1 & Hext1).
  set (w2 := World (fs w1) (trace w1 ++
    [EvStdout ("Repo root: " +:+ as_posix root); EvStdout ("Solution:  " +:+ name sln);
     EvStdout ("Mode:      " +:+ mode)])).
  exists w2. split; [done|]. split.
  { etrans; [exact Hext1|]. eexists. split; [done|]. by repeat constructor. }
  intros e w' Hbump. unfold main. cbv zeta. rewrite <- Hmode, Hdec. cbn [negb].
  apply String.eqb_neq in Hkey. rewrite Hkey.
  rewrite bind_eq, find_repo_root_eq, Hroot.
  rewrite bind_eq, Hsln.
  do 3 (rewrite bind_eq; cbn [print emit fs trace]).
  rewrite <- !app_assoc. cbn [app]. fold w2.
  rewrite Hpub. cbn [negb]. rewrite bind_eq, bind_eq, Hbump. done.
Qed.

Lemma script_after_runtime_error E argv w msg w' :
  main E argv w = (Raise (RuntimeError msg), w') ->
  script E argv w =
  (Ok 1, World (fs w')
           (trace w' ++ [EvStderr ("Error: " +:+ msg);
                         EvStderr "Traceback (most recent call last):";
                         EvStderr ("RuntimeError: " +:+ msg)])).
Proof.
  intros H. unfold script. rewrite H. unfold report_uncaught.
  repeat (rewrite bind_eq; cbn [eprint emit ret fs trace exn_name exn_str]).
  rewrite <- ?app_assoc. reflexivity.
Qed.

(** ** The effects of the stages of a publish-only run *)

Section StageEffects.

Context (E : env) (R : world -> world -> Prop) `{!Reflexive R} `{!Transitive R}.

Hypothesis R_output : forall w ev,
  is_output ev -> R w (World (fs w) (trace w ++ [ev])).
Hypothesis R_exec : forall w cmd dir,
  is_git cmd = false ->
  R w (World (fst (tool E cmd dir (fs w))) (trace w ++ [EvExec cmd dir])).
Hypothesis R_rmtree : forall w root,
  R w (World (rmtree (fs w) (join_path root ARTIFACTS_DIR))
             (trace w ++ [EvRmtree (join_path root ARTIFACTS_DIR)])).
Hypothesis R_mkdir : forall w d,
  R w (World (mkdir_parents (fs w) d) (trace w ++ [EvMkdir d])).

Lemma respects_print line : respects R (print line).
Proof. intros w. by apply R_output. Qed.

Lemma respects_eprint line : respects R (eprint line).
Proof. intros w. by apply R_output. Qed.

Lemma respects_run cmd dir redact :
  is_git cmd = false -> respects R (run E cmd dir redact).
Proof.
  intros Hcmd w. unfold run. cbv zeta.
  repeat (rewrite bind_eq; cbn [print emit get_fs set_fs fs trace]).
  match goal with
  | |- context [ trace w ++ [EvStdout ?line] ] =>
      pose proof (R_output w (EvStdout line) I) as H1;
      pose proof (R_exec (World (fs w) (trace w ++ [EvStdout line])) cmd dir Hcmd) as H2
  end.
  cbn [fs trace] in H2.
  destruct (snd (tool E cmd dir (fs w)) =? 0); cbn [ret raise snd]; by etrans.
Qed.

Lemma respects_find_repo_root : respects R (find_repo_root E).
Proof.
  unfold find_repo_root. apply respects_bind; [done..|apply respects_get_fs; done|].
  intros f. destruct (search_from _ _ _); [by apply respects_ret | by apply respects_raise].
Qed.

Lemma respects_find_solution_file root : respects R (find_solution_file root).
Proof.
  unfold find_solution_file. apply respects_bind; [done..|by apply respects_get_fs|].
  intros f. destruct (sorted_paths _) as [|sln [|? ?]].
  - by apply respects_raise.
  - by apply respects_ret.
  - apply respects_bind; [done..|apply respects_eprint|]. intros _. by apply respects_ret.
Qed.

Lemma respects_collect_csproj root dirs : respects R (collect_csproj root dirs).
Proof.
  induction dirs as [|rel dirs IH]; cbn [collect_csproj]; [by apply respects_ret|].
  apply respects_bind; [done..|by apply respects_get_fs|]. intros f.
  destruct (exists_ f _).
  - apply respects_bind; [done..|exact IH|]. intros ?. by apply respects_ret.
  - apply respects_bind; [done..|apply respects_eprint|]. by intros _.
Qed.

Lemma respects_find_csproj_files root : respects R (find_csproj_files root).
Proof.
  unfold find_csproj_files. apply respects_bind; [done..|apply respects_collect_csproj|].
  intros ?. by apply respects_ret.
Qed.

Lemma respects_select_packable csprojs : respects R (select_packable csprojs).
Proof.
  induction csprojs as [|p l IH]; cbn [select_packable]; [by apply respects_ret|].
  apply respects_bind; [done..| |].
  - unfold is_packable_csproj. apply respects_bind; [done..|by apply respects_read_text|].
    intros ?. by apply respects_ret.
  - intros b. apply respects_bind; [done..|exact IH|]. intros ?. by apply respects_ret.
Qed.

Lemma respects_build_solution root sln : respects R (build_solution E root sln).
Proof. unfold build_solution. by apply respects_run. Qed.

Lemma respects_clean root : respects R (clean_publish_output_dir root).
Proof.
  intros w. unfold clean_publish_output_dir. cbv zeta.
  rewrite bind_eq. cbn [get_fs]. rewrite bind_eq.
  destruct (fs w !! join_path root ARTIFACTS_DIR) as [[text|]|] eqn:Hout.
  - cbn. reflexivity.
  - repeat (rewrite ?bind_eq; progress cbn [emit get_fs set_fs ret fs trace snd]).
    destruct (existsb (is_file _) _); cbn [raise snd];
      repeat (rewrite ?bind_eq; progress cbn [emit get_fs set_fs ret fs trace snd]).
    + apply (R_rmtree w root).
    + etrans; [apply (R_rmtree w root)|]. apply (R_mkdir (World _ _)).
  - repeat (rewrite ?bind_eq; progress cbn [emit get_fs set_fs ret fs trace snd]).
    destruct (existsb (is_file _) _); cbn [raise snd];
      repeat (rewrite ?bind_eq; progress cbn [emit get_fs set_fs ret fs trace snd]).
    + reflexivity.
    + apply (R_mkdir w).
Qed.

Lemma respects_pack_projects root out_dir : respects R (pack_projects E root out_dir).
Proof.
  unfold pack_projects.
  apply respects_bind; [done..|apply respects_find_csproj_files|]. intros csprojs.
  apply respects_bind; [done..|apply respects_select_packable|]. intros [|p0 packable].
  { by apply respects_raise. }
  apply respects_bind; [done..|apply respects_print|]. intros _.
  apply respects_bind; [done..| |].
  { apply respects_for_each; [done..|]. intros p.
    apply respects_bind; [done..|by apply respects_rel_of|]. intros ?.
    apply respects_print. }
  intros _. apply respects_bind; [done..| |].
  { apply respects_for_each; [done..|]. intros p. by apply respects_run. }
  intros _. apply respects_bind; [done..|by apply respects_get_fs|]. intros f.
  destruct (sorted_paths _); [by apply respects_raise | by apply respects_ret].
Qed.

Lemma respects_push_packages root packages api_key :
  respects R (push_packages E root packages api_key).
Proof.
  unfold push_packages. cbv zeta. apply respects_for_each; [done..|]. intros pkg.
  apply respects_bind; [done..|apply respects_print|]. intros _. by apply respects_run.
Qed.


End StageEffects.





Lemma ext_step (P : event -> Prop) w f ev : P ev -> ext P w (World f (trace w ++ [ev])).
Proof. intros H. exists [ev]. split; [done|]. by constructor. Qed.


Lemma rmtree_keeps f d p e :
  is_under d p = false -> f !! p = Some e -> rmtree f d !! p = Some e.
Proof.
  intros Hp He. unfold rmtree. apply map_lookup_filter_Some. split; [done|].
  cbn [fst]. rewrite Hp. intros [].
Qed.

Lemma mkdir_parents_keeps : forall d f p e,
  f !! p = Some e -> mkdir_parents f d !! p = Some e.
Proof.
  assert (forall (g : fsmap) d p e, g !! p = Some e ->
            match g !! d with Some _ => g | None => <[d := Dir]> g end !! p = Some e) as Hins.
  { intros g d p e Hp. destruct (g !! d) eqn:Hd; [done|].
    rewrite lookup_insert_ne; [done|]. intros ->. congruence. }
  induction d as [|c d IH]; intros f p e Hp; cbn [mkdir_parents]; apply Hins; auto.
Qed.

#[global] Instance keeps_reflexive p : Reflexive (keeps p).
Proof. by intros w text. Qed.

#[global] Instance keeps_transitive p : Transitive (keeps p).
Proof. intros w1 w2 w3 H12 H23 text Ht. by apply H23, H12. Qed.



(** The effects of a stage are only ever added to. *)
Lemma ext_any_elem_of w w' ev : ext any_event w w' -> ev ∈ trace w -> ev ∈ trace w'.
Proof. intros (evs & -> & _) H. apply elem_of_app. by left. Qed.

Lemma run_event E cmd dir redact w :
  EvExec cmd dir ∈ trace (snd (run E cmd dir redact w)).
Proof.
  unfold run. cbv zeta.
  repeat (rewrite ?bind_eq; progress cbn [print emit get_fs set_fs fs trace]).
  destruct (snd (tool E cmd dir (fs w)) =? 0); cbn [ret raise snd trace];
    apply elem_of_app; right; left.
Qed.

Lemma stage_grows {A} (m : M A) w r w' :
  (forall R, Reflexive R -> Transitive R ->
     (forall w ev, is_output ev -> R w (World (fs w) (trace w ++ [ev]))) ->
     (forall w f ev, R w (World f (trace w ++ [ev]))) ->
     respects R m) ->
  m w = (r, w') -> ext any_event w w'.
Proof.
  intros Hm Heq. specialize (Hm (ext any_event) _ _). unfold respects in Hm.
  specialize (Hm (fun w ev _ => ext_step any_event w (fs w) ev I)
                 (fun w f ev => ext_step any_event w f ev I) w).
  by rewrite Heq in Hm.
Qed.

Lemma pack_projects_event E root out_dir w packages w' :
  pack_projects E root out_dir w = (Ok packages, w') ->
  exists proj,
    EvExec ["dotnet"; "pack"; proj; "-c"; "Release"; "-o"; as_posix out_dir] root ∈ trace w'.
Proof.
  unfold pack_projects. rewrite bind_eq.
  destruct (find_csproj_files root w) as [[csprojs|?] w1]; [|done].
  rewrite bind_eq. destruct (select_packable csprojs w1) as [[[|p0 packable]|?] w2]; [done| |done].
  rewrite bind_eq. cbn [print emit]. rewrite bind_eq.
  destruct (for_each (p0 :: packable) _ _) as [[[]|?] w3]; [|done].
  rewrite bind_eq. cbn [for_each]. rewrite bind_eq.
  pose proof (run_event E ["dotnet"; "pack"; as_posix p0; "-c"; "Release"; "-o"; as_posix out_dir]
                root [] w3) as Hev.
  destruct (run E _ root [] w3) as [[[]|?] w4]; [|done]. cbn [snd] in Hev.
  destruct (for_each packable _ w4) as [[[]|?] w5] eqn:Hrest; [|done].
  assert (ext any_event w4 w5) as Hgrow.
  { eapply stage_grows; [|exact Hrest]. intros R ? ? Hout Hany.
    apply respects_for_each; [done..|]. intros proj.
    apply (respects_run E R); try done; intros; apply Hany. }
  rewrite bind_eq. cbn [get_fs]. destruct (sorted_paths _); [done|].
  intros [= _ <-]. exists (as_posix p0). by apply (ext_any_elem_of w4).
Qed.

(** A publish-only run that ends with exit status 0 has invoked the build
    and, at least once, the packing tool. *)
Lemma publish_only_success E api_key w w' :
  publish_only_pipeline E api_key w = (Ok 0, w') ->
  exists root sln proj out_dir,
    EvExec ["dotnet"; "build"; sln; "-c"; "Release"] root ∈ trace w' /\
    EvExec ["dotnet"; "pack"; proj; "-c"; "Release"; "-o"; out_dir] root ∈ trace w'.
Proof.
  unfold publish_only_pipeline. rewrite bind_eq.
  destruct (find_repo_root E w) as [[root|?] w1]; [|done].
  rewrite bind_eq. destruct (find_solution_file root w1) as [[sln|?] w2]; [|done].
  do 4 (rewrite bind_eq; cbn [print emit]).
  rewrite bind_eq. unfold build_solution.
  match goal with
  | |- context [ run E ?cmd root [] ?w3 ] =>
      pose proof (run_event E cmd root [] w3) as Hbuild;
      destruct (run E cmd root [] w3) as [[[]|?] w4]; [|done]
  end.
  cbn [snd] in Hbuild. rewrite bind_eq.
  destruct (clean_publish_output_dir root w4) as [[out_dir|?] w5] eqn:Hclean; [|done].
  rewrite bind_eq.
  destruct (pack_projects E root out_dir w5) as [[packages|?] w6] eqn:Hpack; [|done].
  rewrite bind_eq.
  destruct (push_packages E root packages api_key w6) as [[[]|?] w7] eqn:Hpush; [|done].
  rewrite bind_eq. cbn [print emit ret]. intros [= <-]. cbn [trace].
  destruct (pack_projects_event _ _ _ _ _ _ Hpack) as [proj Hproj].
  assert (ext any_event w4 w5) as H45.
  { eapply stage_grows; [|exact Hclean]. intros R ? ? Hout Hany.
    apply (respects_clean R); try done; intros; apply Hany. }
  assert (ext any_event w5 w6) as H56.
  { eapply stage_grows; [|exact Hpack]. intros R ? ? Hout Hany.
    apply (respects_pack_projects E R); try done; intros; apply Hany. }
  assert (ext any_event w6 w7) as H67.
  { eapply stage_grows; [|exact Hpush]. intros R ? ? Hout Hany.
    apply (respects_push_packages E R); try done; intros; apply Hany. }
  exists root, (as_posix sln), proj, (as_posix out_dir). split; apply elem_of_app; left.
  - by apply (ext_any_elem_of w6), (ext_any_elem_of w5), (ext_any_elem_of w4).
  - by apply (ext_any_elem_of w6).
Qed.



(** ** A missing version declaration *)

(** C5, counterexample: when the only manifest holds no version
    declaration, the run fails with the no-version-found error, whose
    message names no file. *)
Lemma no_version_error_names_no_file :
  let w := demo_world [(manifest_A, text_unversioned)] in
  discovered (fs w) demo_root = [manifest_A] /\
  has_version (fs w) manifest_A = false /\
  fst (main (demo_env 0) ["publish.py"; "patch"; "key"] w)
  = Raise (RuntimeError NO_VERSION_FOUND) /\
  Py.contains "A.csproj" NO_VERSION_FOUND = false.
Proof. by vm_compute. Qed.

(** C5, amended: in a bump mode, when some discovered manifest holds no
    version declaration, the run raises a fatal error before any external
    tool is invoked.  When some manifest holds a declaration the error names
    the first manifest, in discovery order, that holds none; when no
    manifest holds one it is the no-version-found error.  A rewrite replaces
    as many occurrences as the manifest has declarations, so it never
    replaces zero occurrences in a manifest that has one.  The manifests are
    taken to be readable files. *)
Theorem missing_version_aborts_before_tools (E : env) (w : world) (argv : list string)
    (mode : string) (root : Path) (pre : list Path) (p : Path) (post : list Path) :
  bump_setup E w argv mode root ->
  discovered (fs w) root = pre ++ p :: post ->
  forallb (is_file (fs w)) (discovered (fs w) root) = true ->
  forallb (has_version (fs w)) pre = true ->
  has_version (fs w) p = false ->
  exists rel w',
    relative_to p root = Some rel /\
    main E argv w
    = (Raise (RuntimeError
               (if existsb (has_version (fs w)) (discovered (fs w) root)
                then missing_version_msg rel else NO_VERSION_FOUND)), w') /\
    ext not_exec w w' /\
    forall text new_version,
      snd (replace_version text new_version) = length (extract_versions text).
Proof.
  intros Hsetup Hdisc Hfiles Hpre Hp.
  destruct (main_enters_bump E w argv mode root Hsetup) as (w2 & Hfs2 & Hext2 & Hmain).
  destruct Hsetup as (a0 & arg1 & arg2 & -> & Hmode & Hin & Hkey & Hroot).
  destruct (bump_stops root mode pre p post w2) as (rel & w' & Hrel & Hext & Hres);
    rewrite ?Hfs2; try done.
  rewrite Hfs2 in Hres. exists rel, w'. split; [done|].
  split; [|split; [|apply replace_version_count]].
  - apply Hmain. destruct (existsb _ _).
    + by destruct Hres as (base & target & _ & _ & Hbump & _).
    + by destruct Hres as [Hbump _].
  - etrans; [by apply ext_output_not_exec|]. done.
Qed.

Lemma missing_version_aborts_before_tools_witness :
  let w := demo_world [(manifest_A, text_versioned); (manifest_B, text_unversioned)] in
  exists rel w',
    relative_to manifest_B demo_root = Some rel /\
    main (demo_env 0) ["publish.py"; "minor"; "key"] w
    = (Raise (RuntimeError
               (if existsb (has_version (fs w)) (discovered (fs w) demo_root)
                then missing_version_msg rel else NO_VERSION_FOUND)), w') /\
    ext not_exec w w' /\
    forall text new_version,
      snd (replace_version text new_version) = length (extract_versions text).
Proof.
  apply (missing_version_aborts_before_tools (demo_env 0)
           (demo_world [(manifest_A, text_versioned); (manifest_B, text_unversioned)])
           ["publish.py"; "minor"; "key"] "minor" demo_root [manifest_A] manifest_B []).
  - exists "publish.py", "minor", "key". repeat split; try by vm_compute.
    right. left.
  - by vm_compute.
  - by vm_compute.
  - by vm_compute.
  - by vm_compute.
Defined.

Lemma choose_base_version_first_declaration_witness :
  let w := demo_world [(manifest_C, text_other_version); (manifest_A, text_versioned)] in
  exists p s more v,
    p ∈ [manifest_C; manifest_A] /\
    versions_in (fs w) p = s :: more /\
    (forall q, q ∈ [manifest_C; manifest_A] -> has_version (fs w) q = true ->
               String.le (as_posix p) (as_posix q)) /\
    SemVer_parse s = Ok v /\
    choose_base_version [manifest_C; manifest_A] w = (Ok v, w).
Proof.
  exact (choose_base_version_first_declaration [manifest_C; manifest_A]
           (demo_world [(manifest_C, text_other_version); (manifest_A, text_versioned)])
           eq_refl).
Defined.

(** ** Packability and the credential *)

(** C2, the code at the failing input: a manifest that declares a package
    identity and sets [IsPackable] first to true and then to false is
    classified packable, because only the first declaration is looked at. *)
Theorem first_packable_flag_decides :
  Py.contains "<IsPackable>false</IsPackable>" text_two_flags = true /\
  map (fun m => Py.lower (Py.strip (group m 1))) (finditer IS_PACKABLE_RE text_two_flags)
  = ["true"; "false"] /\
  packable_text text_two_flags = true /\
  fst (is_packable_csproj manifest_A (demo_world [(manifest_A, text_two_flags)])) = Ok true.
Proof. by vm_compute. Qed.

(** C4, the code at the failing input: when the push fails, the script
    re-raises the exception of the failed command, and the interpreter's
    report of it prints the command line with the credential in it. *)
Theorem failed_push_prints_credential :
  let r := script (demo_env 1) ["publish.py"; "publish-only"; "s3cr3t"]
             (demo_world [(manifest_A, text_versioned)]) in
  fst r = Ok 1 /\
  EvStderr
    "subprocess.CalledProcessError: Command '['dotnet', 'nuget', 'push', '/repo/artifacts/nuget/_publish/Demo.1.2.3.nupkg', '--api-key', 's3cr3t', '--source', 'https://api.nuget.org/v3/index.json', '--skip-duplicate']' returned non-zero exit status 1."
    ∈ trace (snd r) /\
  EvStdout
    "> dotnet nuget push /repo/artifacts/nuget/_publish/Demo.1.2.3.nupkg --api-key **** --source https://api.nuget.org/v3/index.json --skip-duplicate"
    ∈ trace (snd r) /\
  printed "s3cr3t" (trace (snd r)) = true.
Proof.
  vm_compute. repeat split; apply list_elem_of_In; vm_compute; tauto.
Qed.

(** * Further properties of the script *)

(** ** Versions *)

(** X1: a bump always yields a strictly greater version in the order of
    the dataclass, whatever the components. *)
Theorem bump_strictly_increases (v v' : SemVer) (kind : string) :
  SemVer_bump v kind = Ok v' -> SemVer_ltb v v' = true.
Proof.
  unfold SemVer_bump, SemVer_ltb. destruct v as [a b c]. cbn [major minor patch].
  repeat (destruct (String.eqb _ _); [intros [= <-]; cbn [major minor patch]|]);
    [..|done].
  - apply orb_true_iff. left. apply Z.ltb_lt. lia.
  - rewrite Z.eqb_refl. cbn [andb]. apply orb_true_iff. right.
    apply orb_true_iff. left. apply Z.ltb_lt. lia.
  - rewrite !Z.eqb_refl. cbn [andb]. rewrite !orb_true_iff. right. right.
    apply Z.ltb_lt. lia.
Qed.

Lemma bump_strictly_increases_witness :
  SemVer_ltb (mkSemVer 1 9 9) (mkSemVer 2 0 0) = true.
Proof. apply (bump_strictly_increases (mkSemVer 1 9 9) (mkSemVer 2 0 0) " Major"). reflexivity. Defined.

Lemma minus_not_space : Py.isspace "-" = false /\ Py.int_isspace "-" = false /\
  Ascii.eqb "-" "." = false.
Proof. by vm_compute. Qed.

Lemma int_str_int n : Py.int (Py.str_int n) = Some n.
Proof.
  destruct (Z.ltb_spec n 0) as [Hneg|Hpos]; [|by apply int_str_nonneg].
  unfold Py.str_int. rewrite (proj2 (Z.ltb_lt n 0)) by done.
  destruct (str_nonneg_spec (- n)) as (Hne & Hall & Hval); [lia|].
  unfold Py.int. rewrite strip_by_id.
  - change (Ascii.eqb "-" "-") with true. cbv iota. rewrite Hval. cbn. f_equal. lia.
  - cbn [all_chars]. unfold not_space at 1.
    rewrite (proj1 (proj2 minus_not_space)). cbn [negb andb].
    eapply all_chars_impl; [|exact Hall]. intros c Hc. unfold not_space.
    by rewrite (decimal_not_int_space c Hc).
Qed.

Lemma str_int_plain n :
  all_chars (not_char ".") (Py.str_int n) = true /\
  all_chars (not_space Py.isspace) (Py.str_int n) = true.
Proof.
  assert (forall m, 0 <= m ->
            all_chars (not_char ".") (Py.str_nonneg m) = true /\
            all_chars (not_space Py.isspace) (Py.str_nonneg m) = true) as Hpos.
  { intros m Hm. destruct (str_nonneg_spec m Hm) as (_ & Hall & _).
    split; [by apply digits_no_dot | by apply digits_no_space]. }
  unfold Py.str_int. destruct (Z.ltb_spec n 0) as [Hneg|Hge]; [|by apply Hpos].
  destruct (Hpos (- n)) as [H1 H2]; [lia|]. cbn [all_chars].
  unfold not_char at 1, not_space at 1.
  rewrite (proj2 (proj2 minus_not_space)), (proj1 minus_not_space). by rewrite H1, H2.
Qed.

Lemma parse_dotted_plain p0 p1 p2 a b c :
  all_chars (not_char ".") p0 = true -> all_chars (not_space Py.isspace) p0 = true ->
  all_chars (not_char ".") p1 = true -> all_chars (not_space Py.isspace) p1 = true ->
  all_chars (not_char ".") p2 = true -> all_chars (not_space Py.isspace) p2 = true ->
  Py.int p0 = Some a -> Py.int p1 = Some b -> Py.int p2 = Some c ->
  SemVer_parse (p0 +:+ String "." (p1 +:+ String "." p2)) = Ok (mkSemVer a b c).
Proof.
  intros D0 S0 D1 S1 D2 S2 Ha Hb Hc. unfold SemVer_parse, Py.strip.
  rewrite strip_by_id.
  2: { rewrite all_chars_app. cbn [all_chars]. rewrite all_chars_app. cbn [all_chars].
       by rewrite S0, S1, S2. }
  rewrite split_app by done. rewrite split_app by done. rewrite split_no_sep by done.
  unfold int_or_raise. by rewrite Ha, Hb, Hc.
Qed.

(** X2: parsing the rendered form gives the version back for every
    version, negative components included. *)
Theorem parse_str_roundtrip_any (v : SemVer) : SemVer_parse (SemVer_str v) = Ok v.
Proof.
  destruct v as [a b c]. unfold SemVer_str. cbn [major minor patch String.append].
  apply parse_dotted_plain; try apply int_str_int; apply str_int_plain.
Qed.

(** ** Exit status *)

Lemma returns_0_or_raises_bind {A} (m : M A) (k : A -> M Z) :
  (forall a, returns_0_or_raises (k a)) -> returns_0_or_raises (bind m k).
Proof.
  intros Hk w. rewrite bind_eq. destruct (m w) as [[a|e] w']; [apply Hk|].
  right. by exists e.
Qed.

Lemma usage_error_exit E argv w :
  usage_ok argv = false ->
  exists lines,
    main E argv w = (Ok 2, World (fs w) (trace w ++ map EvStderr lines)).
Proof.
  unfold usage_ok, main. cbv zeta.
  destruct argv as [|a0 [|a1 [|a2 [|a3 rest]]]];
    try (intros _; exists ["Refusing to run."; usage]; cbn; by rewrite <- app_assoc).
  destruct (bool_decide _); cbn [andb negb].
  - destruct (String.eqb (Py.strip a2) EmptyString); [|done]. intros _.
    by exists ["Refusing to run: api_key is empty."].
  - intros _.
    exists ["Refusing to run.";
            "First argument must be one of: major, minor, patch, publish-only"].
    cbn. by rewrite <- app_assoc.
Qed.

Lemma usage_ok_exit E argv w :
  usage_ok argv = true -> fst (main E argv w) = Ok 0 \/ exists e, fst (main E argv w) = Raise e.
Proof.
  unfold usage_ok, main. cbv zeta.
  destruct argv as [|a0 [|a1 [|a2 [|a3 rest]]]]; try done.
  intros [Hmode Hkey]%andb_true_iff. rewrite Hmode. apply negb_true_iff in Hkey.
  rewrite Hkey. cbn [negb]. revert w.
  repeat (apply returns_0_or_raises_bind; intros ?).
  intros w. by left.
Qed.

(** X3: the exit status of the script.  It is 2 exactly when the command
    line is refused, and then the run has only written to the error stream; it
    is 1 exactly when [main] raised, whatever the exception (the exit status
    of a failed tool is not passed on); otherwise it is 0. *)
Theorem script_exit_status (E : env) (argv : list string) (w : world) :
  exists rc,
    fst (script E argv w) = Ok rc /\
    (rc = 0 \/ rc = 1 \/ rc = 2) /\
    (rc = 2 <-> usage_ok argv = false) /\
    (rc = 1 <-> exists e, fst (main E argv w) = Raise e) /\
    (rc = 2 -> fs (snd (script E argv w)) = fs w /\ ext is_stderr w (snd (script E argv w))).
Proof.
  destruct (usage_ok argv) eqn:Husage.
  - pose proof (usage_ok_exit E argv w Husage) as Hmain. unfold script.
    destruct (main E argv w) as [[rc|e] w1]; cbn [fst] in Hmain.
    + destruct Hmain as [[= ->]|[e He]]; [|done]. exists 0. cbn [fst].
      repeat split; try done; try lia; try (by intros [e He]); auto.
    + exists 1. unfold report_uncaught.
      destruct e; repeat (rewrite ?bind_eq; progress cbn [eprint emit ret fs trace fst]);
        repeat split; try done; try lia; eauto.
  - destruct (usage_error_exit E argv w Husage) as [lines Hmain]. unfold script.
    rewrite Hmain. exists 2. cbn [fst snd fs]. repeat split; try done; try lia; auto.
    + by intros [e He].
    + exists (map EvStderr lines). split; [done|]. apply Forall_forall.
      by intros ev (line & -> & _)%list_elem_of_fmap.
Qed.

(** ** The order of paths *)

Lemma compare_lt_trans x y z :
  String.compare x y = Lt -> String.compare y z = Lt -> String.compare x z = Lt.
Proof.
  intros Hxy Hyz.
  assert (String.le x z) as Hle.
  { transitivity y; unfold String.le, String.leb; [by rewrite Hxy | by rewrite Hyz]. }
  unfold String.le, String.leb in Hle.
  destruct (String.compare x z) eqn:Hxz; [|done|done].
  apply String.compare_eq_iff in Hxz as ->.
  rewrite String.compare_antisym, Hyz in Hxy. done.
Qed.

Lemma parts_leb_trans : forall a b c,
  parts_leb a b = true -> parts_leb b c = true -> parts_leb a c = true.
Proof.
  induction a as [|x a IH]; intros [|y b] [|z c]; cbn; try done.
  destruct (String.compare x y) eqn:Hxy; [|intros _|done].
  - apply String.compare_eq_iff in Hxy as ->.
    destruct (String.compare y z); [apply IH|done|done].
  - destruct (String.compare y z) eqn:Hyz; [|intros _|done].
    + apply String.compare_eq_iff in Hyz as ->. by rewrite Hxy.
    + by rewrite (compare_lt_trans x y z).
Qed.

Lemma parts_leb_total : forall a b, parts_leb a b = true \/ parts_leb b a = true.
Proof.
  induction a as [|x a IH]; intros [|y b]; cbn; auto.
  rewrite (String.compare_antisym y x).
  destruct (String.compare x y) eqn:Hxy; cbn; auto.
Qed.

#[global] Instance path_le_transitive : Transitive path_le.
Proof. intros p q r. unfold path_le. apply parts_leb_trans. Qed.

#[global] Instance path_le_total : Total path_le.
Proof. intros p q. unfold path_le. apply parts_leb_total. Qed.

Lemma sorted_paths_head l x rest :
  sorted_paths l = x :: rest -> x ∈ l /\ forall y, y ∈ l -> path_le x y.
Proof.
  intros Hs. pose proof (StronglySorted_merge_sort path_le l) as Hsorted.
  fold (sorted_paths l) in Hsorted. rewrite Hs in Hsorted.
  apply StronglySorted_cons in Hsorted as [Hall _]. rewrite Forall_forall in Hall.
  assert (forall y, y ∈ l <-> y ∈ x :: rest) as Hmem.
  { intros y. by rewrite <- Hs, sorted_paths_elem_of. }
  split; [apply Hmem; left|].
  intros y [->|Hy]%Hmem%elem_of_cons; [|by apply Hall].
  destruct (parts_leb_total (rev x) (rev x)); done.
Qed.

(** ** Solution selection *)

(** X4: solution selection returns the least [*.sln] entry of the root in
    the order of paths, warns on the error stream exactly when there are
    several, and changes nothing else; without any such entry it raises. *)
Theorem find_solution_file_least (root : Path) (w : world) :
  if has_solution (fs w) root then
    exists sln,
      sln ∈ glob (fs w) root ".sln" /\
      (forall other, other ∈ glob (fs w) root ".sln" -> path_le sln other) /\
      find_solution_file root w =
      (Ok sln,
       World (fs w)
         (trace w ++
          if (length (glob (fs w) root ".sln") <=? 1)%nat then []
          else [EvStderr ("Warning: multiple .sln files found in " +:+ as_posix root
                            +:+ ". Using: " +:+ name sln)]))
  else
    find_solution_file root w
    = (Raise (RuntimeError ("No .sln found in repo root: " +:+ as_posix root)), w).
Proof.
  unfold has_solution, find_solution_file. rewrite bind_eq. cbn [get_fs].
  assert (length (sorted_paths (glob (fs w) root ".sln")) = length (glob (fs w) root ".sln"))
    as Hlen by (unfold sorted_paths; by rewrite merge_sort_Permutation).
  destruct (sorted_paths (glob (fs w) root ".sln")) as [|sln [|sln' l]] eqn:Hs.
  - apply sorted_paths_nil in Hs. by rewrite Hs.
  - destruct (glob (fs w) root ".sln") as [|g [|g' gs]] eqn:Hg; [done| |done].
    destruct (sorted_paths_head _ _ _ Hs) as [Hin Hmin].
    exists sln. split; [done|]. split; [done|]. cbn. rewrite app_nil_r. by destruct w.
  - destruct (glob (fs w) root ".sln") as [|g [|g' gs]] eqn:Hg; [done|done|].
    destruct (sorted_paths_head _ _ _ Hs) as [Hin Hmin].
    exists sln. split; [done|]. split; [done|]. by rewrite bind_eq.
Qed.

(** X5: the root that resolution returns is an ancestor of one of the two
    origins and holds a solution file, so that solution selection cannot
    fail on it. *)
Theorem resolved_root_has_solution (E : env) (w w1 : world) (root : Path) :
  find_repo_root E w = (Ok root, w1) ->
  w1 = w /\
  root ∈ ancestors (cwd E) ++ ancestors (script_dir E) /\
  has_solution (fs w) root = true /\
  exists sln w2, find_solution_file root w1 = (Ok sln, w2).
Proof.
  rewrite find_repo_root_eq.
  destruct (List.find _ _) as [r|] eqn:Hfind; [|done]. intros [= -> <-].
  apply List.find_some in Hfind as [Hin Hsol].
  split; [done|]. split; [by apply list_elem_of_In|]. split; [done|].
  destruct (find_solution_file_ok root w Hsol) as (sln & w2 & Heq & _). eauto.
Qed.

Lemma resolved_root_has_solution_witness :
  let w := demo_world [(manifest_A, text_versioned)] in
  w = w /\
  demo_root ∈ ancestors (cwd (demo_env 0)) ++ ancestors (script_dir (demo_env 0)) /\
  has_solution (fs w) demo_root = true /\
  exists sln w2, find_solution_file demo_root w = (Ok sln, w2).
Proof.
  apply (resolved_root_has_solution (demo_env 0)
           (demo_world [(manifest_A, text_versioned)])
           (demo_world [(manifest_A, text_versioned)]) demo_root).
  by vm_compute.
Defined.

(** ** Discovery *)

Lemma dedupe_complete : forall files seen x,
  x ∈ files -> x ∉ seen -> x ∈ dedupe files seen.
Proof.
  induction files as [|y files IH]; intros seen x Hx Hseen; cbn [dedupe];
    [by apply elem_of_nil in Hx|].
  unfold resolve. apply elem_of_cons in Hx as [->|Hx].
  - rewrite bool_decide_eq_false_2 by done. left.
  - case_bool_decide as Hy; [by apply IH|].
    destruct (decide (x = y)) as [->|Hne]; [left|]. right. apply IH; [done|].
    intros [H|H%elem_of_singleton]%elem_of_union; done.
Qed.

Lemma collected_elem_of f root : forall dirs p,
  p ∈ collected f root dirs <->
  exists rel, rel ∈ dirs /\ exists_ f (rel ++ root) = true /\
              p ∈ glob f (rel ++ root) ".csproj".
Proof.
  induction dirs as [|rel dirs IH]; intros p; cbn [collected flat_map].
  - split; [by intros ?%elem_of_nil | by intros (? & ?%elem_of_nil & _)].
  - rewrite elem_of_app. fold (collected f root dirs). rewrite IH. unfold join_path. split.
    + intros [Hp|(rel' & Hrel & Hex & Hp)].
      * destruct (exists_ f (rel ++ root)) eqn:Hex; [|by apply elem_of_nil in Hp].
        rewrite sorted_paths_elem_of in Hp. exists rel. split; [left|by split].
      * exists rel'. split; [by right | by split].
    + intros (rel' & [->|Hrel]%elem_of_cons & Hex & Hp).
      * left. rewrite Hex. by rewrite sorted_paths_elem_of.
      * right. eauto.
Qed.

Lemma collect_csproj_stderr root : forall dirs w,
  exists w1,
    collect_csproj root dirs w = (Ok (collected (fs w) root dirs), w1) /\
    fs w1 = fs w /\ ext is_stderr w w1.
Proof.
  induction dirs as [|rel dirs IH]; intros w; cbn [collect_csproj collected flat_map].
  - exists w. split; [done|]. split; [done|]. apply ext_refl.
  - rewrite bind_eq. cbn [get_fs]. destruct (exists_ (fs w) (join_path root rel)).
    + destruct (IH w) as (w1 & Heq & Hfs & Hext). exists w1.
      rewrite bind_eq, Heq. cbn [ret]. by rewrite Hfs.
    + rewrite bind_eq. cbn [eprint emit].
      set (w0 := World (fs w) _).
      destruct (IH w0) as (w1 & Heq & Hfs & Hext). exists w1.
      rewrite Heq. split; [done|]. split; [done|].
      etrans; [|exact Hext]. by apply (ext_emit is_stderr).
Qed.

(** The de-duplication loop, whatever [resolve] does: it keeps a
    sub-sequence of the files, no two of the kept files resolve to the same
    path, and every file resolves to the same path as a kept one. *)
Lemma dedupe_by_resolved : forall files seen,
  sublist (dedupe files seen) files /\
  NoDup (map resolve (dedupe files seen)) /\
  (forall x, x ∈ dedupe files seen -> resolve x ∉ seen) /\
  (forall x, x ∈ files -> resolve x ∉ seen ->
             exists y, y ∈ dedupe files seen /\ resolve y = resolve x).
Proof.
  induction files as [|f files IH]; intros seen; cbn [dedupe].
  { split; [constructor|]. split; [constructor|].
    split; [by intros ? ?%elem_of_nil | by intros ? ?%elem_of_nil]. }
  case_bool_decide as Hf.
  - destruct (IH seen) as (Hsub & Hnd & Hout & Hall).
    split; [by apply sublist_cons|]. split; [done|]. split; [done|].
    intros x [->|Hx]%elem_of_cons Hx'; [done | by apply Hall].
  - destruct (IH (seen ∪ {[resolve f]})) as (Hsub & Hnd & Hout & Hall).
    split; [by apply sublist_skip|]. split; [|split].
    + cbn [map]. apply NoDup_cons. split; [|done].
      intros (y & Heq & Hy)%list_elem_of_fmap. apply (Hout y Hy).
      apply elem_of_union. right. by apply elem_of_singleton.
    + intros x [->|Hx]%elem_of_cons; [done|].
      intros Hs. apply (Hout x Hx), elem_of_union. by left.
    + intros x Hx Hx'. destruct (decide (resolve x = resolve f)) as [Heq|Hne].
      { exists f. split; [left | done]. }
      apply elem_of_cons in Hx as [->|Hx]; [done|].
      destruct (Hall x Hx) as (y & Hy & Heq).
      { intros [H|H%elem_of_singleton]%elem_of_union; done. }
      exists y. split; [by right | done].
Qed.

(** X6: discovery returns, in discovery order, one entry for every file
    among the [.csproj] entries that lie directly inside one of the three
    target directories that exist under the root: each returned path is such
    an entry, no two returned paths resolve to the same path, and every such
    entry resolves to the same path as a returned one.  It changes nothing
    and only warns on the error stream.  (The file system of the model has
    no symbolic links, so there a path resolves to itself and the result
    holds every such entry; the proof does not use this.) *)
Theorem find_csproj_files_exact (root : Path) (w : world) :
  exists l w',
    find_csproj_files root w = (Ok l, w') /\
    fs w' = fs w /\
    ext is_stderr w w' /\
    sublist l (collected (fs w) root PROJECT_DIRS) /\
    NoDup (map resolve l) /\
    (forall p, p ∈ l -> manifest_entry (fs w) root p) /\
    (forall p, manifest_entry (fs w) root p ->
               exists q, q ∈ l /\ resolve q = resolve p).
Proof.
  destruct (collect_csproj_stderr root PROJECT_DIRS w) as (w1 & Heq & Hfs & Hext).
  exists (discovered (fs w) root), w1. unfold find_csproj_files.
  rewrite bind_eq, Heq. cbn [ret]. split; [done|]. split; [done|]. split; [done|].
  unfold discovered.
  destruct (dedupe_by_resolved (collected (fs w) root PROJECT_DIRS) ∅)
    as (Hsub & Hnd & _ & Hall).
  split; [done|]. split; [done|]. split.
  - intros p Hp. apply (elem_of_sublist _ _ _ Hp) in Hsub as Hp'.
    apply collected_elem_of in Hp' as (rel & Hrel & Hex & Hp').
    apply glob_elem_of in Hp' as (nm & -> & Hext' & Hsome). by exists nm, rel.
  - intros p (nm & rel & Hrel & -> & Hext' & Hsome & Hex).
    apply Hall; [|by intros ?%elem_of_empty].
    apply collected_elem_of. exists rel. split; [done|]. split; [done|].
    apply glob_elem_of. by exists nm.
Qed.

(** ** The output directory *)

Lemma ancestors_elem_of_under d : forall p, d ∈ ancestors p <-> is_under d p = true.
Proof.
  induction p as [|c p IH]; cbn [ancestors is_under].
  - rewrite orb_false_r, bool_decide_eq_true, list_elem_of_singleton. by split.
  - rewrite elem_of_cons, orb_true_iff, bool_decide_eq_true, IH.
    split; (intros [H|H]; [left | right]; done).
Qed.

Lemma ancestors_same_length a p : a ∈ ancestors p -> length a = length p -> a = p.
Proof.
  destruct p as [|c p]; cbn [ancestors].
  - by intros ->%list_elem_of_singleton.
  - intros [->|H%ancestors_length]%elem_of_cons Hlen; [done|]. cbn in Hlen. lia.
Qed.

Lemma mkdir_parents_other : forall d f p,
  p ∉ ancestors d -> mkdir_parents f d !! p = f !! p.
Proof.
  assert (forall (g : fsmap) d p, p <> d ->
            match g !! d with Some _ => g | None => <[d := Dir]> g end !! p = g !! p) as Hins.
  { intros g d p Hp. destruct (g !! d); [done|]. by rewrite lookup_insert_ne. }
  induction d as [|c d IH]; intros f p Hp; cbn [mkdir_parents ancestors] in *.
  - apply Hins. intros ->. apply Hp. left.
  - rewrite Hins by (intros ->; apply Hp; left). apply IH. intros H. apply Hp. by right.
Qed.

Lemma mkdir_parents_creates f d :
  existsb (is_file f) (ancestors d) = false -> mkdir_parents f d !! d = Some Dir.
Proof.
  intros Hnofile.
  assert (is_file f d = false) as Hd.
  { destruct (is_file f d) eqn:H; [|done].
    assert (existsb (is_file f) (ancestors d) = true); [|congruence].
    apply existsb_elem_of. exists d. split; [apply ancestors_self | done]. }
  assert (forall g : fsmap, g !! d = f !! d ->
            match g !! d with Some _ => g | None => <[d := Dir]> g end !! d = Some Dir) as Hins.
  { intros g Hg. unfold is_file in Hd. rewrite Hg.
    destruct (f !! d) as [[]|] eqn:Hfd; [done| |by rewrite lookup_insert_eq].
    by rewrite Hg. }
  destruct d as [|c d]; cbn [mkdir_parents]; apply Hins; [done|].
  apply mkdir_parents_other, not_own_parent_ancestor.
Qed.

Lemma rmtree_removes f d p : is_under d p = true -> rmtree f d !! p = None.
Proof.
  intros Hp. unfold rmtree. apply map_lookup_filter_None. right.
  intros e _ Hnot. apply Hnot. cbn [fst]. by rewrite Hp.
Qed.

Lemma parent_closed_spec f p a :
  parent_closed f = true -> is_Some (f !! p) -> a ∈ ancestors p -> is_Some (f !! a).
Proof.
  unfold parent_closed. intros Hc [e He] Ha.
  rewrite forallb_elem_of in Hc. specialize (Hc p).
  rewrite forallb_elem_of in Hc. unfold exists_ in Hc.
  specialize (Hc ltac:(apply list_elem_of_fmap; exists (p, e); split;
                       [done | by apply elem_of_map_to_list]) a Ha).
  by destruct (f !! a).
Qed.

(** X7: when the cleaning of the output directory succeeds, the directory
    exists and holds nothing, and every entry outside it is as before.  The
    file system is taken to be well formed: entries lie in existing
    directories. *)
Theorem clean_leaves_empty_directory (root d : Path) (w w' : world) :
  parent_closed (fs w) = true ->
  clean_publish_output_dir root w = (Ok d, w') ->
  d = join_path root ARTIFACTS_DIR /\
  fs w' !! d = Some Dir /\
  (forall p, is_under d p = true -> p <> d -> fs w' !! p = None) /\
  (forall p e, is_under d p = false -> fs w !! p = Some e -> fs w' !! p = Some e).
Proof.
  intros Hclosed. unfold clean_publish_output_dir. cbv zeta.
  remember (join_path root ARTIFACTS_DIR) as out eqn:Hdef.
  rewrite bind_eq. cbn [get_fs]. rewrite bind_eq.
  assert (forall p, is_under out p = true -> p <> out -> p ∉ ancestors out) as Hbelow.
  { intros p Hp Hne Hanc. apply ancestors_elem_of_under in Hp.
    pose proof (ancestors_length _ _ Hp). pose proof (ancestors_length _ _ Hanc).
    apply Hne, ancestors_same_length; [done | lia]. }
  destruct (fs w !! out) as [[text|]|] eqn:Hout.
  - done.
  - repeat (rewrite ?bind_eq; progress cbn [emit get_fs set_fs ret fs trace]).
    destruct (existsb (is_file _) _) eqn:Hnofile; [done|].
    repeat (rewrite ?bind_eq; progress cbn [emit get_fs set_fs ret fs trace]).
    intros [= <- <-]. cbn [fs]. split; [done|]. split; [by apply mkdir_parents_creates|].
    split.
    + intros p Hp Hne. rewrite mkdir_parents_other by by apply Hbelow.
      by apply rmtree_removes.
    + intros p e Hp He. by apply mkdir_parents_keeps, rmtree_keeps.
  - repeat (rewrite ?bind_eq; progress cbn [emit get_fs set_fs ret fs trace]).
    destruct (existsb (is_file _) _) eqn:Hnofile; [done|].
    repeat (rewrite ?bind_eq; progress cbn [emit get_fs set_fs ret fs trace]).
    intros [= <- <-]. cbn [fs]. split; [done|]. split; [by apply mkdir_parents_creates|].
    split.
    + intros p Hp Hne. rewrite mkdir_parents_other by by apply Hbelow.
      destruct (fs w !! p) as [ep|] eqn:Hfp; [|done].
      destruct (parent_closed_spec (fs w) p out Hclosed) as [eo Heo]; [eauto| |congruence].
      by apply ancestors_elem_of_under.
    + intros p e Hp He. by apply mkdir_parents_keeps.
Qed.

Lemma clean_leaves_empty_directory_witness :
  let d := join_path demo_root ARTIFACTS_DIR in
  let w' := snd (clean_publish_output_dir demo_root demo_stale_world) in
  d = join_path demo_root ARTIFACTS_DIR /\
  fs w' !! d = Some Dir /\
  (forall p, is_under d p = true -> p <> d -> fs w' !! p = None) /\
  (forall p e, is_under d p = false -> fs demo_stale_world !! p = Some e ->
               fs w' !! p = Some e).
Proof.
  apply (clean_leaves_empty_directory demo_root (join_path demo_root ARTIFACTS_DIR)
           demo_stale_world (snd (clean_publish_output_dir demo_root demo_stale_world))).
  - by vm_compute.
  - by vm_compute.
Defined.

(** ** What the version-bump stage touches *)

#[global] Instance touches_only_reflexive l : Reflexive (touches_only l).
Proof. intros w. split; [apply ext_refl | done]. Qed.

#[global] Instance touches_only_transitive l : Transitive (touches_only l).
Proof.
  intros w1 w2 w3 [E12 F12] [E23 F23]. split; [by etrans|].
  intros p Hp. by rewrite F23, F12.
Qed.

Lemma touches_only_output l w ev :
  is_output ev -> touches_only l w (World (fs w) (trace w ++ [ev])).
Proof. intros Hev. split; [|done]. apply ext_step. by destruct ev. Qed.

Lemma respects_print_touches l line : respects (touches_only l) (print line).
Proof. intros w. by apply touches_only_output. Qed.

Lemma respects_write_text l p text : p ∈ l -> respects (touches_only l) (write_text p text).
Proof.
  intros Hp w. unfold write_text. rewrite bind_eq. cbn [get_fs].
  destruct (fs w !! p) as [[t|]|]; [|reflexivity|].
  all: repeat (rewrite ?bind_eq; progress cbn [emit get_fs set_fs ret fs trace snd]).
  all: split; [by apply ext_step|]; cbn [fs]; intros q Hq;
    apply lookup_insert_ne; by intros ->.
Qed.

Lemma respects_rewrite_all l root nv : forall csprojs changed,
  (forall p, p ∈ csprojs -> p ∈ l) ->
  respects (touches_only l) (rewrite_all root nv csprojs changed).
Proof.
  induction csprojs as [|p more IH]; intros changed Hsub; cbn [rewrite_all].
  { apply respects_ret; apply _. }
  apply respects_bind; [apply _..|apply respects_read_text; apply _|]. intros old_text.
  destruct (extract_versions old_text).
  { apply respects_bind; [apply _..|apply respects_rel_of; apply _|]. intros ?.
    apply respects_raise; apply _. }
  cbv zeta. destruct (_ <=? 0)%nat.
  { apply respects_bind; [apply _..|apply respects_rel_of; apply _|]. intros ?.
    apply respects_raise; apply _. }
  assert (forall changed', respects (touches_only l) (rewrite_all root nv more changed'))
    as Hrest by (intros; apply IH; intros q Hq; apply Hsub; by right).
  destruct (negb _).
  - apply respects_bind; [apply _..|apply respects_write_text, Hsub; left|]. intros _.
    apply respects_bind; [apply _..|apply respects_rel_of; apply _|]. intros ?.
    apply respects_bind; [apply _..|apply respects_print_touches|]. intros _. apply Hrest.
  - apply respects_bind; [apply _..|apply respects_rel_of; apply _|]. intros ?.
    apply respects_bind; [apply _..|apply respects_print_touches|]. intros _. apply Hrest.
Qed.

Lemma respects_first_version {R : world -> world -> Prop} `{!Reflexive R} `{!Transitive R}
    projects :
  respects R (first_version projects).
Proof.
  induction projects as [|p more IH]; cbn [first_version]; [by apply respects_raise|].
  apply respects_bind; [done..|by apply respects_read_text|]. intros text.
  destruct (extract_versions text); [done | by apply respects_lift].
Qed.

Lemma bump_touches_only (root : Path) (bump_kind : string) (w : world) :
  touches_only (discovered (fs w) root) w (snd (bump_versions_in_projects root bump_kind w)).
Proof.
  destruct (find_csproj_files_eq root w) as (w1 & Hfind & Hfs1 & Hext1).
  unfold bump_versions_in_projects. rewrite bind_eq, Hfind.
  set (l := discovered (fs w) root).
  assert (touches_only l w w1) as H01.
  { split; [|by intros; rewrite Hfs1]. eapply ext_impl; [|exact Hext1]. by intros []. }
  etrans; [exact H01|]. destruct l as [|c cs] eqn:Hl; [reflexivity|]. rewrite <- Hl.
  revert w1 Hfind Hfs1 Hext1 H01. intros w1 _ _ _ _. revert w1.
  change (respects (touches_only l)
    (let! base := choose_base_version l in
     let! newv := lift (SemVer_bump base bump_kind) in
     print ("Version bump: " +:+ SemVer_str base +:+ " -> " +:+ SemVer_str newv) ;;
     let! changed := rewrite_all root (SemVer_str newv) l [] in
     ret (base, newv, changed))).
  apply respects_bind; [apply _..|apply respects_first_version|]. intros base.
  apply respects_bind; [apply _..|apply respects_lift; apply _|]. intros newv.
  apply respects_bind; [apply _..|apply respects_print_touches|]. intros _.
  apply respects_bind; [apply _..|by apply respects_rewrite_all|]. intros changed.
  apply respects_ret; apply _.
Qed.

(** X8: whatever its outcome, the version-bump stage writes only to
    discovered manifests, leaves every other path of the file system as it
    was, and runs no external tool. *)
Theorem bump_touches_only_manifests (root : Path) (bump_kind : string) (w : world) :
  touches_only (discovered (fs w) root) w (snd (bump_versions_in_projects root bump_kind w)).
Proof. apply bump_touches_only. Qed.

(** ** Loops of external invocations *)

Lemma execs_app tr1 tr2 : execs (tr1 ++ tr2) = execs tr1 ++ execs tr2.
Proof. unfold execs. apply omap_app. Qed.

Lemma run_outcome E cmd dir redact w :
  exists line,
    run E cmd dir redact w =
    (if snd (tool E cmd dir (fs w)) =? 0 then Ok tt
     else Raise (CalledProcessError (snd (tool E cmd dir (fs w))) cmd),
     World (fst (tool E cmd dir (fs w))) (trace w ++ [EvStdout line; EvExec cmd dir])).
Proof.
  eexists. unfold run. cbv zeta.
  repeat (rewrite ?bind_eq; progress cbn [print emit get_fs set_fs fs trace]).
  rewrite <- app_assoc. cbn [app].
  by destruct (snd (tool E cmd dir (fs w)) =? 0).
Qed.

(** A loop whose body prints and then runs one command per element runs
    the commands in order and stops at the first that fails. *)
Lemma for_each_run {A} E (cmd : A -> list string) dir (redact : A -> list string)
    (pre : A -> M unit) (body : A -> M unit) :
  (forall x w, exists line,
     pre x w = (Ok tt, World (fs w) (trace w ++ [EvStdout line]))
     \/ pre x w = (Ok tt, w)) ->
  (forall x w, body x w = bind (pre x) (fun _ => run E (cmd x) dir (redact x)) w) ->
  forall l w r w',
    for_each l body w = (r, w') ->
    exists done_ rest,
      l = done_ ++ rest /\
      execs (trace w') = execs (trace w) ++ map (fun x => (cmd x, dir)) done_ /\
      match r with
      | Ok _ => rest = []
      | Raise e =>
          exists pre_ x rc, done_ = pre_ ++ [x] /\ rc <> 0 /\ e = CalledProcessError rc (cmd x)
      end.
Proof.
  intros Hpre Hbody. induction l as [|x l IH]; intros w r w' Hrun; cbn [for_each] in Hrun.
  - injection Hrun as <- <-. exists [], []. cbn [map app]. by rewrite app_nil_r.
  - rewrite bind_eq, Hbody, bind_eq in Hrun.
    assert (exists w0, pre x w = (Ok tt, w0) /\ fs w0 = fs w /\
                       execs (trace w0) = execs (trace w)) as (w0 & Hp & Hfs0 & Hex0).
    { destruct (Hpre x w) as [line [H|H]]; rewrite H; eexists; (split; [done|]);
        (split; [done|]); [|done]. cbn [trace]. rewrite execs_app. cbn. by rewrite app_nil_r. }
    rewrite Hp in Hrun.
    destruct (run_outcome E (cmd x) dir (redact x) w0) as [line Hout].
    rewrite Hout in Hrun.
    assert (execs (trace w0 ++ [EvStdout line; EvExec (cmd x) dir])
            = execs (trace w) ++ [(cmd x, dir)]) as Hex1.
    { rewrite execs_app, Hex0. done. }
    destruct (snd (tool E (cmd x) dir (fs w0)) =? 0) eqn:Hrc.
    + destruct (IH _ _ _ Hrun) as (done_ & rest & -> & Hex & Hr).
      exists (x :: done_), rest. split; [done|]. split.
      * rewrite Hex. cbn [trace]. rewrite Hex1, <- app_assoc. done.
      * destruct r; [done|]. destruct Hr as (pre_ & y & rc & -> & Hrc' & ->).
        by exists (x :: pre_), y, rc.
    + injection Hrun as <- <-. exists [x], l. split; [done|]. split.
      * cbn [trace]. by rewrite Hex1.
      * exists [], x, (snd (tool E (cmd x) dir (fs w0))). split; [done|].
        split; [|done]. by apply Z.eqb_neq.
Qed.

(** ** Pushing *)

Lemma filter_sorted_paths_elem_of (g : Path -> bool) l x :
  x ∈ sorted_paths (filter (fun p => Is_true (g p)) l) <-> x ∈ l /\ g x = true.
Proof.
  rewrite sorted_paths_elem_of, list_elem_of_filter, Is_true_true. tauto.
Qed.

(** X9: pushing runs one push command per eligible package, carrying the
    credential, first for the primary packages (suffix [.nupkg], symbols
    variants left out) and then for the symbol packages (suffix [.snupkg]),
    each group in the order of paths; it stops at the first push that fails
    and raises for that command. *)
Theorem push_packages_order (E : env) (root : Path) (packages : list Path)
    (api_key : string) (w w' : world) (r : result unit) :
  push_packages E root packages api_key w = (r, w') ->
  exists primary symbols pushed rest,
    (forall p, p ∈ primary <-> p ∈ packages /\ is_primary p = true) /\
    (forall p, p ∈ symbols <-> p ∈ packages /\ is_symbols p = true) /\
    Sorted path_le primary /\ Sorted path_le symbols /\
    primary ++ symbols = pushed ++ rest /\
    execs (trace w') = execs (trace w) ++ map (fun pkg => (push_cmd api_key pkg, root)) pushed /\
    match r with
    | Ok _ => rest = []
    | Raise e =>
        exists before pkg rc,
          pushed = before ++ [pkg] /\ rc <> 0 /\
          e = CalledProcessError rc (push_cmd api_key pkg)
    end.
Proof.
  unfold push_packages. cbv zeta. intros Hrun.
  eapply (for_each_run E (push_cmd api_key) root (fun _ => [api_key])
            (fun pkg => print ("Pushing: " +:+ name pkg))) in Hrun.
  - destruct Hrun as (pushed & rest & Hsplit & Hex & Hr).
    eexists _, _, pushed, rest. split; [apply (filter_sorted_paths_elem_of is_primary)|].
    split; [apply (filter_sorted_paths_elem_of is_symbols)|].
    split; [apply Sorted_merge_sort, _|]. split; [apply Sorted_merge_sort, _|].
    done.
  - intros x w0. eexists. left. reflexivity.
  - done.
Qed.

Lemma push_packages_order_witness :
  let E := demo_env 1 in
  let w := demo_world [(manifest_A, text_versioned)] in
  let out := push_packages E demo_root demo_packages "key" w in
  exists primary symbols pushed rest,
    (forall p, p ∈ primary <-> p ∈ demo_packages /\ is_primary p = true) /\
    (forall p, p ∈ symbols <-> p ∈ demo_packages /\ is_symbols p = true) /\
    Sorted path_le primary /\ Sorted path_le symbols /\
    primary ++ symbols = pushed ++ rest /\
    execs (trace (snd out))
    = execs (trace w) ++ map (fun pkg => (push_cmd "key" pkg, demo_root)) pushed /\
    match fst out with
    | Ok _ => rest = []
    | Raise e =>
        exists before pkg rc,
          pushed = before ++ [pkg] /\ rc <> 0 /\
          e = CalledProcessError rc (push_cmd "key" pkg)
    end.
Proof.
  apply (push_packages_order (demo_env 1) demo_root demo_packages "key"
           (demo_world [(manifest_A, text_versioned)])).
  vm_compute. reflexivity.
Defined.

(** ** The echo of a command *)

Lemma redacts_singleton (part key : string) :
  bool_decide (part ∈ (list_to_set [key] : gset string)) = bool_decide (part = key).
Proof.
  apply bool_decide_ext. cbn [list_to_set].
  rewrite elem_of_union, elem_of_singleton. split.
  - by intros [H|H%elem_of_empty].
  - by left.
Qed.

(** X10: the echo of a push command shows four stars in place of the
    credential and nothing else of it, while the tool receives the command
    with the credential.  The credential is taken to be non-empty and
    different from the other arguments of the command. *)
Theorem push_echo_masks_key (E : env) (root pkg : Path) (api_key : string) (w : world) :
  api_key <> EmptyString ->
  api_key ∉ ["dotnet"; "nuget"; "push"; as_posix pkg; "--api-key"; "--source";
             NUGET_SOURCE; "--skip-duplicate"] ->
  trace (snd (run E (push_cmd api_key pkg) root [api_key] w))
  = trace w ++
    [EvStdout ("> dotnet nuget push " +:+ as_posix pkg +:+
               " --api-key **** --source https://api.nuget.org/v3/index.json --skip-duplicate");
     EvExec (push_cmd api_key pkg) root].
Proof.
  intros Hne Hother. unfold run, push_cmd. cbv zeta. cbn [map].
  rewrite !redacts_singleton.
  repeat (rewrite (bool_decide_eq_false_2 (_ = api_key));
          [|intros Heq; apply Hother; rewrite Heq; repeat constructor]).
  rewrite (bool_decide_eq_true_2 (api_key = api_key)) by done.
  repeat (rewrite (bool_decide_eq_false_2 (_ = api_key));
          [|intros Heq; apply Hother; rewrite Heq; repeat constructor]).
  apply String.eqb_neq in Hne. rewrite Hne. cbn [andb negb].
  repeat (rewrite ?bind_eq; progress cbn [print emit get_fs set_fs fs trace]).
  rewrite <- app_assoc.
  by destruct (snd (tool E _ root (fs w)) =? 0).
Qed.

Lemma push_echo_masks_key_witness :
  let w := demo_world [(manifest_A, text_versioned)] in
  trace (snd (run (demo_env 0) (push_cmd "s3cr3t" demo_package) demo_root ["s3cr3t"] w))
  = trace w ++
    [EvStdout ("> dotnet nuget push " +:+ as_posix demo_package +:+
               " --api-key **** --source https://api.nuget.org/v3/index.json --skip-duplicate");
     EvExec (push_cmd "s3cr3t" demo_package) demo_root].
Proof.
  apply (push_echo_masks_key (demo_env 0) demo_root demo_package "s3cr3t"
           (demo_world [(manifest_A, text_versioned)])).
  - discriminate.
  - vm_compute. intros H. repeat (apply elem_of_cons in H as [H|H]; [discriminate H|]).
    by apply elem_of_nil in H.
Defined.

(** ** Packing *)

Lemma ext_output_execs w w' : ext is_output w w' -> execs (trace w') = execs (trace w).
Proof.
  intros (evs & -> & Hall). rewrite execs_app.
  assert (execs evs = []) as ->; [|by rewrite app_nil_r].
  induction Hall as [|ev evs Hev _ IH]; [done|]. by destruct ev.
Qed.

Lemma select_packable_eq : forall l w,
  forallb (is_file (fs w)) l = true ->
  select_packable l w
  = (Ok (filter (fun p => Is_true (packable_text (file_text (fs w) p))) l), w).
Proof.
  induction l as [|p l IH]; intros w Hfiles; cbn [select_packable]; [done|].
  cbn in Hfiles. apply andb_true_iff in Hfiles as [Hp Hl].
  unfold is_packable_csproj.
  rewrite bind_eq, bind_eq, read_text_file by done. cbn [ret].
  rewrite bind_eq, (IH w Hl). cbn [ret]. rewrite filter_cons.
  destruct (packable_text (file_text (fs w) p));
    [rewrite decide_True by exact I | rewrite decide_False by (intros [])]; done.
Qed.

Lemma print_relative_paths root (label : string) : forall l w,
  (forall p, p ∈ l -> exists rel, relative_to p root = Some rel) ->
  exists w',
    for_each l (fun p => let! rel := rel_of p root in print (label +:+ rel_str rel)) w
    = (Ok tt, w') /\
    fs w' = fs w /\ ext is_output w w'.
Proof.
  induction l as [|p l IH]; intros w Hrel; cbn [for_each].
  - exists w. split; [done|]. split; [done|]. apply ext_refl.
  - destruct (Hrel p) as [rel Hp]; [left|].
    rewrite bind_eq, bind_eq, (rel_of_some _ _ _ _ Hp). cbn [print emit].
    set (w0 := World (fs w) _).
    destruct (IH w0) as (w' & Heq & Hfs & Hext); [intros q Hq; apply Hrel; by right|].
    exists w'. split; [done|]. split; [done|].
    etrans; [|exact Hext]. by apply ext_step.
Qed.

Lemma pack_projects_outcome (E : env) (root out_dir : Path) (w w' : world)
    (r : result (list Path)) :
  forallb (is_file (fs w)) (discovered (fs w) root) = true ->
  pack_projects E root out_dir w = (r, w') ->
  match pack_plan (fs w) root with
  | [] =>
      r = Raise (RuntimeError NO_PACKABLE) /\
      fs w' = fs w /\ execs (trace w') = execs (trace w)
  | _ :: _ =>
      exists packed rest,
        pack_plan (fs w) root = packed ++ rest /\
        execs (trace w')
        = execs (trace w) ++ map (fun proj => (pack_cmd out_dir proj, root)) packed /\
        match r with
        | Ok produced =>
            rest = [] /\ produced <> [] /\
            forall p, p ∈ produced <->
                      p ∈ glob (fs w') out_dir ".nupkg" \/ p ∈ glob (fs w') out_dir ".snupkg"
        | Raise e =>
            (exists before proj rc,
               packed = before ++ [proj] /\ rc <> 0 /\
               e = CalledProcessError rc (pack_cmd out_dir proj)) \/
            (rest = [] /\ e = RuntimeError ("No packages produced in " +:+ as_posix out_dir))
        end
  end.
Proof.
  intros Hfiles. unfold pack_projects, pack_plan.
  destruct (find_csproj_files_eq root w) as (w1 & Hfind & Hfs1 & Hext1).
  rewrite bind_eq, Hfind, bind_eq, select_packable_eq by by rewrite Hfs1.
  rewrite Hfs1. apply ext_output_execs in Hext1.
  destruct (filter _ (discovered (fs w) root)) as [|p0 plan] eqn:Hplan.
  { intros [= <- <-]. by rewrite Hfs1. }
  rewrite bind_eq. cbn [print emit]. set (w2 := World (fs w1) _).
  destruct (print_relative_paths root "  - " (p0 :: plan) w2) as (w3 & Hprint & Hfs3 & Hext3).
  { intros q Hq. apply (discovered_spec (fs w) root).
    rewrite <- Hplan in Hq. by apply list_elem_of_filter in Hq as [_ ?]. }
  rewrite bind_eq, Hprint. apply ext_output_execs in Hext3.
  rewrite bind_eq.
  destruct (for_each (p0 :: plan) _ w3) as [rloop w4] eqn:Hloop.
  eapply (for_each_run E (pack_cmd out_dir) root (fun _ => []) (fun _ => ret tt)) in Hloop.
  2: { intros x w0. exists EmptyString. by right. }
  2: { done. }
  destruct Hloop as (packed & rest & Hsplit & Hex & Hr).
  assert (execs (trace w4)
          = execs (trace w) ++ map (fun proj => (pack_cmd out_dir proj, root)) packed) as Hex'.
  { rewrite Hex, Hext3. cbn [w2 trace]. rewrite execs_app, Hext1. cbn.
    by rewrite app_nil_r. }
  destruct rloop as [[]|e].
  - rewrite bind_eq. cbn [get_fs].
    destruct (sorted_paths _) as [|pr prs] eqn:Hprod; intros [= <- <-];
      exists packed, rest; (split; [done|]); (split; [done|]).
    + right. done.
    + split; [done|]. split; [done|]. intros p.
      by rewrite <- Hprod, sorted_paths_elem_of, elem_of_app.
  - intros [= <- <-]. exists packed, rest. split; [done|]. split; [done|]. by left.
Qed.

(** X11: packing runs one pack command per packable discovered manifest,
    in discovery order, and stops at the first that fails.  Without any
    packable manifest it raises before running a tool and leaves the file
    system as it was.  When it returns, every selected manifest was packed
    and the result is the non-empty set of [.nupkg] and [.snupkg] entries of
    the output directory.  The manifests are taken to be readable files. *)
Theorem pack_projects_plan (E : env) (root out_dir : Path) (w w' : world)
    (r : result (list Path)) :
  forallb (is_file (fs w)) (discovered (fs w) root) = true ->
  pack_projects E root out_dir w = (r, w') ->
  match pack_plan (fs w) root with
  | [] =>
      r = Raise (RuntimeError NO_PACKABLE) /\
      fs w' = fs w /\ execs (trace w') = execs (trace w)
  | _ :: _ =>
      exists packed rest,
        pack_plan (fs w) root = packed ++ rest /\
        execs (trace w')
        = execs (trace w) ++ map (fun proj => (pack_cmd out_dir proj, root)) packed /\
        match r with
        | Ok produced =>
            rest = [] /\ produced <> [] /\
            forall p, p ∈ produced <->
                      p ∈ glob (fs w') out_dir ".nupkg" \/ p ∈ glob (fs w') out_dir ".snupkg"
        | Raise e =>
            (exists before proj rc,
               packed = before ++ [proj] /\ rc <> 0 /\
               e = CalledProcessError rc (pack_cmd out_dir proj)) \/
            (rest = [] /\ e = RuntimeError ("No packages produced in " +:+ as_posix out_dir))
        end
  end.
Proof. apply pack_projects_outcome. Qed.

Lemma pack_projects_plan_witness :
  let E := demo_env 0 in
  let w := demo_world [(manifest_A, text_versioned); (manifest_B, text_two_flags)] in
  let out_dir := join_path demo_root ARTIFACTS_DIR in
  let out := pack_projects E demo_root out_dir w in
  match pack_plan (fs w) demo_root with
  | [] =>
      fst out = Raise (RuntimeError NO_PACKABLE) /\
      fs (snd out) = fs w /\ execs (trace (snd out)) = execs (trace w)
  | _ :: _ =>
      exists packed rest,
        pack_plan (fs w) demo_root = packed ++ rest /\
        execs (trace (snd out))
        = execs (trace w) ++ map (fun proj => (pack_cmd out_dir proj, demo_root)) packed /\
        match fst out with
        | Ok produced =>
            rest = [] /\ produced <> [] /\
            forall p, p ∈ produced <->
                      p ∈ glob (fs (snd out)) out_dir ".nupkg"
                      \/ p ∈ glob (fs (snd out)) out_dir ".snupkg"
        | Raise e =>
            (exists before proj rc,
               packed = before ++ [proj] /\ rc <> 0 /\
               e = CalledProcessError rc (pack_cmd out_dir proj)) \/
            (rest = [] /\ e = RuntimeError ("No packages produced in " +:+ as_posix out_dir))
        end
  end.
Proof.
  apply (pack_projects_plan (demo_env 0) demo_root (join_path demo_root ARTIFACTS_DIR)
           (demo_world [(manifest_A, text_versioned); (manifest_B, text_two_flags)])).
  - by vm_compute.
  - vm_compute. reflexivity.
Defined.

(** ** A successful version bump *)

Lemma rewrite_all_ok (root : Path) (nv : string) (f0 : fsmap) :
  forall (l changed : list Path) (w : world),
  NoDup l ->
  (forall q, q ∈ l -> fs w !! q = f0 !! q) ->
  (forall q, q ∈ l ->
     is_file f0 q = true /\ has_version f0 q = true /\
     exists r, relative_to q root = Some r) ->
  exists w',
    rewrite_all root nv l changed w
    = (Ok (changed ++ filter (fun q => rewritten f0 nv q <> file_text f0 q) l), w') /\
    ext not_exec w w' /\
    (forall q, q ∈ l -> rewrite_left nv f0 (fs w') q) /\
    (forall q, q ∉ l -> fs w' !! q = fs w !! q).
Proof.
  induction l as [|q l IH]; intros changed w Hnd Hagree Hok; cbn [rewrite_all].
  { exists w. rewrite filter_nil, app_nil_r. split; [done|]. split; [apply ext_refl|].
    split; [by intros ? ?%elem_of_nil | done]. }
  apply NoDup_cons in Hnd as [Hq Hnd].
  destruct (Hok q) as (Hqf & Hqv & rq & Hrq); [left|].
  assert (fs w !! q = f0 !! q) as Hq0 by (apply Hagree; left).
  assert (file_text (fs w) q = file_text f0 q) as Htext by (unfold file_text; by rewrite Hq0).
  assert (is_file (fs w) q = true) as Hqf' by (unfold is_file in *; by rewrite Hq0).
  rewrite bind_eq, read_text_file, Htext by done.
  unfold has_version, versions_in in Hqv.
  pose proof (replace_version_count (file_text f0 q) nv) as Hcount.
  destruct (extract_versions (file_text f0 q)) as [|v vs]; [done|].
  cbv zeta. rewrite Hcount. cbn [length Nat.leb]. fold (rewritten f0 nv q).
  assert (forall w1 changed1,
            ((fs w1 = <[q := File (rewritten f0 nv q)]> (fs w)
              /\ rewritten f0 nv q <> file_text f0 q)
             \/ (fs w1 = fs w /\ rewritten f0 nv q = file_text f0 q)) ->
            ext not_exec w w1 ->
            exists w',
              rewrite_all root nv l changed1 w1
              = (Ok (changed1 ++ filter (fun q => rewritten f0 nv q <> file_text f0 q) l), w') /\
              ext not_exec w w' /\
              (forall x, x ∈ q :: l -> rewrite_left nv f0 (fs w') x) /\
              (forall x, x ∉ q :: l -> fs w' !! x = fs w !! x)) as Hstep.
  { intros w1 changed1 Hfs1 Hext1.
    assert (forall x, x <> q -> fs w1 !! x = fs w !! x) as Hother.
    { intros x Hx. destruct Hfs1 as [[-> _] | [-> _]]; [by rewrite lookup_insert_ne | done]. }
    destruct (IH changed1 w1) as (w' & Heq & Hext & Hin & Hout); try done.
    { intros x Hx. rewrite Hother by (intros ->; done). apply Hagree. by right. }
    { intros x Hx. apply Hok. by right. }
    exists w'. split; [done|]. split; [by etrans|]. split.
    - intros x [->|Hx]%elem_of_cons; [|by apply Hin].
      unfold rewrite_left. cbv zeta. fold (rewritten f0 nv q). rewrite (Hout q Hq).
      destruct Hfs1 as [[-> Hchg] | [-> Hsame]].
      + split; [intros _; by rewrite lookup_insert_eq | done].
      + split; [done | by intros _].
    - intros x [Hxq Hx]%not_elem_of_cons. rewrite Hout by done. by apply Hother. }
  destruct (String.eqb (rewritten f0 nv q) (file_text f0 q)) eqn:Hsame; cbn [negb].
  - apply String.eqb_eq in Hsame.
    rewrite bind_eq, (rel_of_some _ _ _ _ Hrq), bind_eq. cbn [print emit].
    rewrite filter_cons_False by (intros H; by apply H).
    apply Hstep; [by right | by apply (ext_emit not_exec)].
  - apply String.eqb_neq in Hsame.
    rewrite bind_eq, write_text_file by done.
    rewrite bind_eq, (rel_of_some _ _ _ _ Hrq), bind_eq. cbn [print emit fs trace].
    rewrite filter_cons_True by done.
    replace (changed ++ q :: filter (fun q0 => rewritten f0 nv q0 <> file_text f0 q0) l)
      with ((changed ++ [q]) ++ filter (fun q0 => rewritten f0 nv q0 <> file_text f0 q0) l)
      by by rewrite <- app_assoc.
    apply Hstep; cbn [fs trace]; [by left|].
    eexists [_; _]. rewrite <- app_assoc. split; [done|]. by repeat constructor.
Qed.

Lemma bump_success (root : Path) (mode : string) (w : world) :
  mode ∈ ["major"; "minor"; "patch"] ->
  discovered (fs w) root <> [] ->
  forallb (is_file (fs w)) (discovered (fs w) root) = true ->
  forallb (has_version (fs w)) (discovered (fs w) root) = true ->
  exists base target w',
    nonneg target /\
    base_of (fs w) (discovered (fs w) root) = Ok base /\
    SemVer_bump base mode = Ok target /\
    bump_versions_in_projects root mode w
    = (Ok (base, target,
           filter (fun q => rewritten (fs w) (SemVer_str target) q <> file_text (fs w) q)
                  (discovered (fs w) root)), w') /\
    (forall q, q ∈ discovered (fs w) root ->
               rewrite_left (SemVer_str target) (fs w) (fs w') q) /\
    (forall q, q ∉ discovered (fs w) root -> fs w' !! q = fs w !! q) /\
    ext not_exec w w'.
Proof.
  intros Hmode Hne Hfiles Hvers.
  destruct (discovered_spec (fs w) root) as [Hnd Hrel].
  destruct (find_csproj_files_eq root w) as (w1 & Hfind & Hfs1 & Hext1).
  pose proof (choose_base_version_spec (discovered (fs w) root) w Hfiles) as Hbase.
  rewrite choose_base_version_eq in Hbase by done.
  assert (choose_base_version (discovered (fs w) root) w1
          = (base_of (fs w) (discovered (fs w) root), w1)) as Hchoose.
  { rewrite <- Hfs1. apply choose_base_version_eq. by rewrite Hfs1. }
  assert (existsb (has_version (fs w)) (discovered (fs w) root) = true) as Hsome.
  { destruct (discovered (fs w) root) as [|c cs]; [done|]. cbn in *.
    by apply andb_true_iff in Hvers as [-> _]. }
  rewrite Hsome in Hbase.
  destruct Hbase as (p0 & s0 & more & base & _ & Hs0 & _ & Hparse & [= Hbase]).
  destruct (bump_valid_mode base mode Hmode) as [target Htarget].
  assert (nonneg target) as Hnonneg.
  { destruct (extract_versions_parse (file_text (fs w) p0) s0) as (sv & Hsv & Hnn).
    { unfold versions_in in Hs0. rewrite Hs0. left. }
    rewrite Hparse in Hsv. injection Hsv as <-. by apply (bump_nonneg base mode). }
  set (w2 := World (fs w1) (trace w1 ++
    [EvStdout ("Version bump: " +:+ SemVer_str base +:+ " -> " +:+ SemVer_str target)])).
  destruct (rewrite_all_ok root (SemVer_str target) (fs w) (discovered (fs w) root) [] w2)
    as (w' & Hrw & Hext & Hin & Hout); [done| | |].
  { intros q _. cbn [w2 fs]. by rewrite Hfs1. }
  { intros q Hq. split; [by apply (proj1 (forallb_elem_of _ _) Hfiles)|].
    split; [by apply (proj1 (forallb_elem_of _ _) Hvers) | by apply Hrel]. }
  exists base, target, w'. split; [done|]. split; [done|]. split; [done|]. split.
  { unfold bump_versions_in_projects. rewrite bind_eq, Hfind.
    rewrite match_nonempty by done. rewrite bind_eq, Hchoose, Hbase, bind_eq.
    unfold lift at 1. rewrite Htarget. cbv zeta. rewrite bind_eq. cbn [print emit].
    fold w2. rewrite bind_eq, Hrw. done. }
  split; [done|]. split.
  { intros q Hq. rewrite (Hout q Hq). cbn [w2 fs]. by rewrite Hfs1. }
  etrans; [by apply ext_output_not_exec|]. etrans; [|exact Hext].
  by apply (ext_emit not_exec).
Qed.


(** ** The commit stage *)

Lemma relative_paths_eq (root : Path) : forall (l : list Path) (w : world),
  (forall p, p ∈ l -> exists rel, relative_to p root = Some rel) ->
  (fix rels (l : list Path) : M (list string) :=
     match l with
     | [] => ret []
     | p :: l' =>
         let! r := rel_of p root in
         let! rs := rels l' in
         ret (rel_str r :: rs)
     end) l w
  = (Ok (map (fun p => rel_str (default [] (relative_to p root))) l), w).
Proof.
  induction l as [|p l IH]; intros w Hrel; [done|].
  destruct (Hrel p) as [rel Hp]; [left|].
  rewrite bind_eq, (rel_of_some _ _ _ _ Hp), bind_eq, IH by (intros q Hq; apply Hrel; by right).
  cbn [ret map]. by rewrite Hp.
Qed.

(** X13: the commit stage.  Without a [.git] entry in the root it raises
    before running anything; with no changed file it runs nothing and
    returns; otherwise it stages exactly the changed files, by their paths
    relative to the root, and commits with the bracketed upper-cased bump
    kind in the message only if the staging succeeded.  The changed files
    are taken to lie under the root, and the bump kind to be free of the two
    characters whose capitals lie outside the alphabet of the model (the
    three kinds that [main] lets through are). *)
Theorem commit_stage_invocations (E : env) (root : Path) (changed_files : list Path)
    (bump_kind : string) (w w' : world) (r : result unit) :
  all_chars upper_in_alphabet bump_kind = true ->
  (forall p, p ∈ changed_files -> exists rel, relative_to p root = Some rel) ->
  git_commit_version_bump E root changed_files bump_kind w = (r, w') ->
  if negb (exists_ (fs w) (".git" :: root)) then
    (exists msg, r = Raise (RuntimeError msg)) /\ w' = w
  else
    match changed_files with
    | [] => r = Ok tt /\ fs w' = fs w /\ execs (trace w') = execs (trace w)
    | _ :: _ =>
        let add := (git_add_cmd root changed_files, root) in
        let commit := (git_commit_cmd bump_kind, root) in
        (r = Ok tt /\ execs (trace w') = execs (trace w) ++ [add; commit]) \/
        (exists rc, rc <> 0 /\ r = Raise (CalledProcessError rc (fst add)) /\
                    execs (trace w') = execs (trace w) ++ [add]) \/
        (exists rc, rc <> 0 /\ r = Raise (CalledProcessError rc (fst commit)) /\
                    execs (trace w') = execs (trace w) ++ [add; commit])
    end.
Proof.
  intros _ Hrel. unfold git_commit_version_bump. cbv zeta. rewrite bind_eq. cbn [get_fs].
  unfold join_path. cbn [app].
  destruct (exists_ (fs w) (".git" :: root)); cbn [negb].
  { destruct changed_files as [|c cs].
    - intros [= <- <-]. cbn [fs trace]. split; [done|]. split; [done|].
      rewrite execs_app. cbn. by rewrite app_nil_r.
    - rewrite bind_eq, (relative_paths_eq root (c :: cs) w Hrel), bind_eq.
      fold (git_commit_cmd bump_kind). cbv zeta.
      change (run E (_ :: _ :: _ :: map _ _) root [] w)
        with (run E (git_add_cmd root (c :: cs)) root [] w).
      destruct (run_outcome E (git_add_cmd root (c :: cs)) root [] w) as [l1 H1].
      rewrite H1. set (w1 := World _ _).
      assert (execs (trace w1) = execs (trace w) ++ [(git_add_cmd root (c :: cs), root)])
        as Hex1 by (cbn [w1 trace]; by rewrite execs_app).
      destruct (snd (tool E (git_add_cmd root (c :: cs)) root (fs w)) =? 0) eqn:Hrc1.
      + destruct (run_outcome E (git_commit_cmd bump_kind) root [] w1) as [l2 H2].
        rewrite H2. set (w2 := World _ _).
        assert (execs (trace w2)
                = execs (trace w) ++ [(git_add_cmd root (c :: cs), root);
                                      (git_commit_cmd bump_kind, root)]) as Hex2.
        { cbn [w2 trace]. rewrite execs_app, Hex1, <- app_assoc. done. }
        destruct (snd (tool E (git_commit_cmd bump_kind) root (fs w1)) =? 0) eqn:Hrc2;
          intros [= <- <-].
        * by left.
        * right. right. eexists. split; [by apply Z.eqb_neq|]. done.
      + intros [= <- <-]. right. left. eexists. split; [by apply Z.eqb_neq|]. done. }
  intros [= <- <-]. split; [eauto | done].
Qed.

Lemma commit_stage_invocations_witness :
  let E := demo_env 0 in
  let w := demo_world [(manifest_A, text_versioned)] in
  let out := git_commit_version_bump E demo_root [manifest_A] "minor" w in
  let add := (git_add_cmd demo_root [manifest_A], demo_root) in
  let commit := (git_commit_cmd "minor", demo_root) in
  (fst out = Ok tt /\ execs (trace (snd out)) = execs (trace w) ++ [add; commit]) \/
  (exists rc, rc <> 0 /\ fst out = Raise (CalledProcessError rc (fst add)) /\
              execs (trace (snd out)) = execs (trace w) ++ [add]) \/
  (exists rc, rc <> 0 /\ fst out = Raise (CalledProcessError rc (fst commit)) /\
              execs (trace (snd out)) = execs (trace w) ++ [add; commit]).
Proof.
  apply (commit_stage_invocations (demo_env 0) demo_root [manifest_A] "minor"
           (demo_world [(manifest_A, text_versioned)])).
  - reflexivity.
  - intros p ->%list_elem_of_singleton. by eexists.
  - vm_compute. reflexivity.
Defined.

(** ** The matcher on version declarations *)

Lemma star_greedy {R} (f : ascii -> bool) (k : string -> option R) w s r :
  all_chars f w = true -> starts_outside f s = true -> k s = Some r ->
  star f (w +:+ s) k = Some r.
Proof.
  intros Hw Hs Hk. induction w as [|c w IH]; cbn [String.append].
  - destruct s as [|x s']; cbn [star]; [done|]. cbn in Hs. by destruct (f x).
  - cbn in Hw. apply andb_true_iff in Hw as [Hc Hw]. cbn [star]. by rewrite Hc, IH.
Qed.

Lemma star_complete {R} (f : ascii -> bool) (k : string -> option R) w s :
  all_chars f w = true -> is_Some (k s) -> is_Some (star f (w +:+ s) k).
Proof.
  intros Hw Hk. induction w as [|c w IH]; cbn [String.append].
  - destruct s as [|x s']; cbn [star]; [done|].
    destruct (f x); [|done]. by destruct (star f s' k).
  - cbn in Hw. apply andb_true_iff in Hw as [Hc Hw]. cbn [star]. rewrite Hc.
    by destruct (IH Hw) as [r ->].
Qed.

Lemma lit_complete icase l : forall w s,
  lit icase l w = Some EmptyString -> lit icase l (w +:+ s) = Some s.
Proof.
  induction l as [|c l IH]; intros [|x w] s H; cbn in *; try done.
  destruct (same_char icase x c); [by apply IH | done].
Qed.

Lemma run_complete {R} icase r :
  forall w s cin cout (k : string -> captures -> option R) c0,
  lang icase r w cin cout -> (forall c, is_Some (k s c)) ->
  is_Some (Re.run icase r (w +:+ s) c0 k).
Proof.
  induction r as [cs|l|cs|cs|r1 IH1 r2 IH2|n r IH]; intros w s cin cout k c0 H Hk;
    cbn [lang] in H; cbn [Re.run].
  - destruct H as [(x & -> & Hx) _]. cbn. by rewrite Hx.
  - destruct H as [H _]. by rewrite (lit_complete _ _ _ _ H).
  - destruct H as [H _]. by apply star_complete.
  - destruct H as (Hne & H & _). destruct w as [|x w]; [done|].
    cbn in H. apply andb_true_iff in H as [Hx H]. cbn [String.append]. rewrite Hx.
    by apply star_complete.
  - destruct H as (w1 & w2 & c1 & -> & H1 & H2). rewrite append_assoc.
    apply (IH1 _ _ _ _ _ _ H1). intros c. by apply (IH2 _ _ _ _ _ _ H2).
  - destruct H as (c1 & H & _). apply (IH _ _ _ _ _ _ H). intros c. apply Hk.
Qed.

Lemma match_at_complete p w s cout :
  lang (ignorecase p) (pat p) w [] cout -> is_Some (match_at p (w +:+ s)).
Proof. intros H. unfold match_at. by apply (run_complete _ _ _ _ _ _ _ _ H). Qed.

Lemma lt_only c : same_char true c "<" = true -> c = "<"%char.
Proof. by_cases_on_char c. Qed.

Lemma slash_only c : same_char true c "/" = true -> c = "/"%char.
Proof. by_cases_on_char c. Qed.

Lemma lit_avoids icase l y : forall w,
  all_chars (fun c => negb (same_char icase y c)) l = true ->
  lit icase l w = Some EmptyString ->
  all_chars (not_char y) w = true.
Proof.
  induction l as [|c l IH]; intros [|x w] Hl H; cbn in *; try done.
  apply andb_true_iff in Hl as [Hc Hl].
  destruct (same_char icase x c) eqn:Hx; [|done].
  rewrite (IH _ Hl H), andb_true_r. unfold not_char.
  destruct (Ascii.eqb_spec x y) as [->|]; [|done]. by rewrite Hx in Hc.
Qed.

(** The parts of a match of the version pattern. *)
Lemma version_match_parts t m :
  match_at VERSION_RE t = Some m ->
  exists o ws1 d0 d1 d2 ws3 c,
    lit true "<Version>" o = Some EmptyString /\
    all_chars Py.isspace ws1 = true /\
    numeral d0 /\ numeral d1 /\ numeral d2 /\
    all_chars Py.isspace ws3 = true /\
    lit true "</Version>" c = Some EmptyString /\
    m = Match ((o +:+ ws1) +:+ (d0 +:+ String "." (d1 +:+ String "." d2)) +:+ (ws3 +:+ c))
              [(3%nat, ws3 +:+ c);
               (2%nat, d0 +:+ String "." (d1 +:+ String "." d2));
               (1%nat, o +:+ ws1)]
              (rest m) /\
    t = whole m +:+ rest m.
Proof.
  intros H. apply match_at_sound in H as [Ht H].
  destruct m as [w caps rst]. cbn [whole groups rest] in *. cbn in H.
  destruct H as (w1 & w23 & c1 & -> & (c0 & H1 & ->) & H).
  destruct H as (w2 & w3 & c2 & -> & (c1' & H2 & ->) & (c2' & H3 & ->)).
  destruct H1 as (o & ws1 & ? & -> & [Ho ->] & [Hws1 ->]).
  destruct H3 as (ws3 & c & ? & -> & [Hws3 ->] & [Hc ->]).
  destruct H2 as (d0 & r0 & ? & -> & (Hd0 & Ha0 & ->) & H2).
  destruct H2 as (p0 & r1 & ? & -> & [(y0 & -> & Hy0) ->] & H2).
  destruct H2 as (d1 & r2 & ? & -> & (Hd1 & Ha1 & ->) & H2).
  destruct H2 as (p1 & d2 & ? & -> & [(y1 & -> & Hy1) ->] & (Hd2 & Ha2 & ->)).
  apply dot_only in Hy0 as ->. apply dot_only in Hy1 as ->.
  exists o, ws1, d0, d1, d2, ws3, c. cbn [String.append] in *. by repeat split.
Qed.

Lemma numeral_starts f d s :
  numeral d -> (forall c, Py.isdecimal c = true -> f c = false) ->
  starts_outside f (d +:+ s) = true.
Proof.
  intros [Hne Hd] Hf. destruct d as [|x d]; [done|]. cbn in *.
  apply andb_true_iff in Hd as [Hx _]. by rewrite (Hf _ Hx).
Qed.

Lemma plus_greedy {R} (k : string -> option R) d s r :
  numeral d -> starts_outside Py.isdecimal s = true -> k s = Some r ->
  match d +:+ s with
  | EmptyString => None
  | String x s' => if Py.isdecimal x then star (cset_match true Digit) s' k else None
  end = Some r.
Proof.
  intros [Hne Hd] Hs Hk. destruct d as [|x d]; [done|]. cbn in Hd.
  apply andb_true_iff in Hd as [Hx Hd]. cbn [String.append]. rewrite Hx.
  by apply star_greedy.
Qed.

Lemma lit_head l w :
  lit true (String "<" l) w = Some EmptyString ->
  exists w', w = String "<" w' /\ lit true l w' = Some EmptyString.
Proof.
  destruct w as [|x w]; cbn [lit]; [done|].
  destruct (same_char true x "<") eqn:Hx; [|done].
  apply lt_only in Hx as ->. eauto.
Qed.

Lemma spaces_start_outside_digits ws s :
  all_chars Py.isspace ws = true -> starts_outside Py.isdecimal s = true ->
  starts_outside Py.isdecimal (ws +:+ s) = true.
Proof.
  intros Hws Hs. destruct ws as [|y ws]; [done|]. cbn in *.
  apply andb_true_iff in Hws as [Hy _].
  destruct (Py.isdecimal y) eqn:Hd; [|done]. by rewrite (decimal_not_space _ Hd) in Hy.
Qed.

Lemma consumed_eq s w r : s = w +:+ r -> consumed s r = w.
Proof. intros ->. apply consumed_app. Qed.

Ltac reassoc := repeat (progress (rewrite ?append_assoc; cbn [String.append])).
Ltac reassoc_in H :=
  repeat (progress (rewrite ?append_assoc in H; cbn [String.append] in H)).

(** A declaration with numerals in it is matched as it stands, whatever
    follows it. *)
Lemma version_match_at o ws1 d0 d1 d2 ws3 c R :
  lit true "<Version>" o = Some EmptyString ->
  all_chars Py.isspace ws1 = true ->
  numeral d0 -> numeral d1 -> numeral d2 ->
  all_chars Py.isspace ws3 = true ->
  lit true "</Version>" c = Some EmptyString ->
  match_at VERSION_RE
    (o +:+ ws1 +:+ d0 +:+ String "." (d1 +:+ String "." (d2 +:+ ws3 +:+ c +:+ R)))
  = Some (Match ((o +:+ ws1) +:+ (d0 +:+ String "." (d1 +:+ String "." d2)) +:+ (ws3 +:+ c))
                [(3%nat, ws3 +:+ c);
                 (2%nat, d0 +:+ String "." (d1 +:+ String "." d2));
                 (1%nat, o +:+ ws1)]
                R).
Proof.
  intros Ho Hws1 Hd0 Hd1 Hd2 Hws3 Hc.
  destruct (lit_head _ _ Hc) as (c' & Hceq & _).
  unfold match_at, VERSION_RE. cbn [Re.run pat ignorecase cset_match].
  rewrite (lit_complete _ _ _ _ Ho).
  apply star_greedy; [done | by apply numeral_starts, decimal_not_space |].
  apply plus_greedy; [done | done |].
  change (same_char true "." ".") with true. cbv iota.
  apply plus_greedy; [done | done |].
  change (same_char true "." ".") with true. cbv iota.
  apply plus_greedy; [done | apply spaces_start_outside_digits; [done | by subst c] |].
  apply star_greedy; [done | by subst c |].
  rewrite (lit_complete _ _ _ _ Hc).
  repeat f_equal; apply consumed_eq; by reassoc.
Qed.

Lemma prefix_free y U : forall G N R,
  all_chars (not_char y) U = true ->
  G +:+ String y N = U +:+ R -> exists X, G = U +:+ X.
Proof.
  induction U as [|u U IH]; intros G N R HU H; [by exists G|].
  cbn in HU. apply andb_true_iff in HU as [Hu HU].
  destruct G as [|g G]; cbn [String.append] in H.
  - injection H as -> _. unfold not_char in Hu. by rewrite Ascii.eqb_refl in Hu.
  - injection H as -> H. destruct (IH _ _ _ HU H) as [X ->]. by exists X.
Qed.

Lemma split_at_mark y z P U : forall G v M' R,
  all_chars (not_char y) P = true -> all_chars (not_char y) (String z U) = true ->
  v <> z ->
  G +:+ String y (String v M') = P +:+ String y (String z U +:+ R) ->
  exists X, G = P +:+ String y (String z U +:+ X).
Proof.
  induction P as [|p P IH]; intros G v M' R HP HU Hv H.
  - destruct G as [|g G]; cbn [String.append] in H.
    + congruence.
    + injection H as -> H. destruct (prefix_free _ _ _ _ _ HU H) as [X ->]. by exists X.
  - cbn in HP. apply andb_true_iff in HP as [Hp HP].
    destruct G as [|g G]; cbn [String.append] in H.
    + injection H as -> _. unfold not_char in Hp. by rewrite Ascii.eqb_refl in Hp.
    + injection H as -> H. destruct (IH _ _ _ _ HP HU Hv H) as [X ->]. by exists X.
Qed.

Lemma lit_head_slash l w :
  lit true (String "/" l) w = Some EmptyString ->
  exists w', w = String "/" w' /\ lit true l w' = Some EmptyString.
Proof.
  destruct w as [|x w]; cbn [lit]; [done|].
  destruct (same_char true x "/") eqn:Hx; [|done].
  apply slash_only in Hx as ->. eauto.
Qed.

Lemma space_not_lt c : Py.isspace c = true -> not_char "<" c = true.
Proof. by_cases_on_char c. Qed.

Lemma decimal_not_lt c : Py.isdecimal c = true -> not_char "<" c = true.
Proof. by_cases_on_char c. Qed.

(** A match that begins before an opening tag ends before it. *)
Lemma match_confined g G v N m :
  v <> "/"%char ->
  match_at VERSION_RE (String g (G +:+ String "<" (String v N))) = Some m ->
  exists X, String g G = whole m +:+ X.
Proof.
  intros Hv H.
  apply version_match_parts in H
    as (o & ws1 & d0 & d1 & d2 & ws3 & c & Ho & Hws1 & Hd0 & Hd1 & Hd2 & Hws3 & Hc & Hm & Ht).
  destruct m as [W caps rst]. cbn [whole rest] in *. injection Hm as -> _.
  destruct (lit_head _ _ Ho) as (o' & -> & Ho').
  destruct (lit_head _ _ Hc) as (c' & -> & Hc').
  destruct (lit_head_slash _ _ Hc') as (c'' & -> & Hc'').
  destruct Hd0 as [_ Hd0], Hd1 as [_ Hd1], Hd2 as [_ Hd2].
  set (P := o' +:+ ws1 +:+ d0 +:+ String "." (d1 +:+ String "." (d2 +:+ ws3))).
  assert (all_chars (not_char "<") P = true) as HP.
  { unfold P. repeat (progress (rewrite ?all_chars_app; cbn [all_chars])).
    rewrite (lit_avoids true "Version>" "<" o') by done.
    rewrite (all_chars_impl _ _ ws1 space_not_lt) by done.
    rewrite (all_chars_impl _ _ ws3 space_not_lt) by done.
    rewrite (all_chars_impl _ _ d0 decimal_not_lt) by done.
    rewrite (all_chars_impl _ _ d1 decimal_not_lt) by done.
    rewrite (all_chars_impl _ _ d2 decimal_not_lt) by done. done. }
  assert (all_chars (not_char "<") (String "/" c'') = true) as HU.
  { cbn [all_chars]. by rewrite (lit_avoids true "Version>" "<" c''). }
  assert (G +:+ String "<" (String v N) = P +:+ String "<" (String "/" c'' +:+ rst)) as Heq.
  { unfold P. reassoc. reassoc_in Ht. by injection Ht as _ ->. }
  destruct (split_at_mark _ _ _ _ _ _ _ _ HP HU Hv Heq) as [X ->].
  assert (g = "<"%char) as -> by (reassoc_in Ht; by injection Ht as ->).
  exists X. unfold P. by reassoc.
Qed.

Lemma no_match_before g G Y v N :
  v <> "/"%char ->
  match_at VERSION_RE (String g (G +:+ Y)) = None ->
  match_at VERSION_RE (String g (G +:+ String "<" (String v N))) = None.
Proof.
  intros Hv Hold.
  destruct (match_at VERSION_RE (String g (G +:+ String "<" (String v N)))) as [m|] eqn:Hm;
    [|done].
  destruct (match_confined _ _ _ _ _ Hv Hm) as [X HX].
  apply match_at_sound in Hm as [_ Hlang].
  pose proof (match_at_complete VERSION_RE (whole m) (X +:+ Y) _ Hlang) as Hsome.
  rewrite <- append_assoc, <- HX in Hsome. cbn [String.append] in Hsome.
  rewrite Hold in Hsome. by destruct Hsome.
Qed.

(** ** Scanning a text for matches *)

Lemma scan_skip p : forall w t, scan p (w +:+ t) (String.length w) = scan p t 0.
Proof. induction w as [|c w IH]; intros t; [done|]. cbn [String.append String.length scan]. apply IH. Qed.

Lemma rebuild_push f c r :
  rebuild f (fst (push c r)) (snd (push c r)) = String c (rebuild f (fst r) (snd r)).
Proof. by destruct r as [[|[gap m] segs] tl]. Qed.

Lemma scan_match p s m :
  match_at p s = Some m -> whole m <> EmptyString ->
  scan p s 0 = ((EmptyString, m) :: fst (scan p (rest m) 0), snd (scan p (rest m) 0)).
Proof.
  intros Hm Hne. destruct (match_at_sound _ _ _ Hm) as [Hs _].
  destruct (whole m) as [|x w] eqn:Hw; [done|].
  cbn [String.append] in Hs. subst s. cbn [scan]. rewrite Hm, Hw.
  by rewrite scan_skip.
Qed.

Lemma scan_rebuild p : forall n s, (String.length s <= n)%nat ->
  rebuild whole (fst (scan p s 0)) (snd (scan p s 0)) = s.
Proof.
  assert (forall m, match_at p EmptyString = Some m -> whole m = EmptyString) as Hempty.
  { intros m [Hm _]%match_at_sound. by destruct (whole m). }
  induction n as [|n IH]; intros [|c s'] Hn; cbn [String.length] in Hn; try lia.
  - cbn [scan]. destruct (match_at p EmptyString) as [m|] eqn:Hm; [|done].
    cbn. by rewrite (Hempty m).
  - cbn [scan]. destruct (match_at p EmptyString) as [m|] eqn:Hm; [|done].
    cbn. by rewrite (Hempty m).
  - destruct (match_at p (String c s')) as [m|] eqn:Hm.
    + destruct (match_at_sound _ _ _ Hm) as [Hs _].
      destruct (whole m) as [|x w] eqn:Hw.
      * cbn [scan]. rewrite Hm, Hw. cbn [fst snd rebuild]. rewrite Hw.
        rewrite rebuild_push, IH by lia. done.
      * rewrite (scan_match _ _ _ Hm) by (by rewrite Hw). cbn [fst snd rebuild].
        rewrite IH; [by rewrite Hs, Hw|].
        apply (f_equal String.length) in Hs. rewrite length_append in Hs.
        cbn [String.length] in Hs. lia.
    + cbn [scan]. rewrite Hm. rewrite rebuild_push, IH by lia. done.
Qed.

Lemma version_match_nonempty t m :
  match_at VERSION_RE t = Some m -> whole m <> EmptyString.
Proof.
  intros H. apply version_match_parts in H
    as (o & ws1 & d0 & d1 & d2 & ws3 & c & Ho & _ & _ & _ & _ & _ & _ & -> & _).
  destruct (lit_head _ _ Ho) as (o' & -> & _). done.
Qed.

Lemma opening_tag_start t m :
  match_at VERSION_RE t = Some m ->
  exists v N, v <> "/"%char /\ group m 1 = String "<" (String v N).
Proof.
  intros H. apply version_match_parts in H
    as (o & ws1 & d0 & d1 & d2 & ws3 & c & Ho & _ & _ & _ & _ & _ & _ & -> & _).
  destruct (lit_head _ _ Ho) as (o' & -> & Ho').
  destruct o' as [|v o'']; [done|]. cbn [lit] in Ho'.
  destruct (same_char true v "V") eqn:Hv; [|done].
  exists v, (o'' +:+ ws1). split; [|done].
  intros ->. by vm_compute in Hv.
Qed.

(** Scanning the rewritten text finds the declarations where they were,
    each with the new version between the markup it had. *)
Lemma scan_rewritten d0 d1 d2 :
  numeral d0 -> numeral d1 -> numeral d2 ->
  forall n s, (String.length s <= n)%nat ->
  exists segs',
    scan VERSION_RE
      (rebuild (fun m => group m 1 +:+ (d0 +:+ String "." (d1 +:+ String "." d2))
                           +:+ group m 3)
               (fst (scan VERSION_RE s 0)) (snd (scan VERSION_RE s 0))) 0
    = (segs', snd (scan VERSION_RE s 0)) /\
    Forall2 (retagged (d0 +:+ String "." (d1 +:+ String "." d2)))
            (fst (scan VERSION_RE s 0)) segs'.
Proof.
  intros Hd0 Hd1 Hd2.
  set (nv := d0 +:+ String "." (d1 +:+ String "." d2)).
  set (repl := fun m => group m 1 +:+ nv +:+ group m 3).
  assert (match_at VERSION_RE EmptyString = None) as Hempty by (by vm_compute).
  assert (scan VERSION_RE EmptyString 0 = ([], EmptyString)) as Hscan0
    by (cbn [scan]; by rewrite Hempty).
  induction n as [|n IH]; intros [|c s'] Hn; cbn [String.length] in Hn; try lia.
  - exists []. rewrite Hscan0. cbn [fst snd rebuild]. by rewrite Hscan0.
  - exists []. rewrite Hscan0. cbn [fst snd rebuild]. by rewrite Hscan0.
  - destruct (match_at VERSION_RE (String c s')) as [m|] eqn:Hm.
    + pose proof (version_match_nonempty _ _ Hm) as Hne.
      rewrite (scan_match _ _ _ Hm Hne). cbn [fst snd rebuild].
      destruct (match_at_sound _ _ _ Hm) as [Hs _].
      assert (String.length (rest m) <= n)%nat as Hlen.
      { apply (f_equal String.length) in Hs. rewrite length_append in Hs.
        cbn [String.length] in Hs. destruct (whole m); [done|].
        cbn [String.length] in Hs. lia. }
      destruct (IH (rest m) Hlen) as (segs_r' & Hscan & Hrel).
      destruct (version_match_parts _ _ Hm)
        as (o & ws1 & e0 & e1 & e2 & ws3 & cl & Ho & Hws1 & _ & _ & _ & Hws3 & Hc & Heqm & _).
      set (new_r := rebuild repl (fst (scan VERSION_RE (rest m) 0))
                      (snd (scan VERSION_RE (rest m) 0))) in *.
      assert (group m 1 = o +:+ ws1 /\ group m 3 = ws3 +:+ cl) as [Hg1 Hg3]
        by (by rewrite Heqm).
      pose proof (version_match_at o ws1 d0 d1 d2 ws3 cl new_r
                    Ho Hws1 Hd0 Hd1 Hd2 Hws3 Hc) as Hnew.
      assert (EmptyString +:+ repl m +:+ new_r
              = o +:+ ws1 +:+ d0 +:+ String "." (d1 +:+ String "." (d2 +:+ ws3 +:+ cl +:+ new_r)))
        as -> by (unfold repl, nv; rewrite Hg1, Hg3; by reassoc).
      rewrite (scan_match _ _ _ Hnew (version_match_nonempty _ _ Hnew)).
      cbn [rest]. rewrite Hscan. cbn [fst snd].
      eexists. split; [done|]. constructor; [|done].
      unfold retagged. cbn [fst snd]. by rewrite Hg1, Hg3.
    + cbn [scan]. rewrite Hm.
      destruct (IH s' ltac:(lia)) as (segs0' & Hscan & Hrel).
      pose proof (scan_rebuild VERSION_RE _ s' (le_n _)) as Hs'.
      pose proof (scan_matches VERSION_RE s' 0) as Hall.
      destruct (scan VERSION_RE s' 0) as [segs0 tl0]. cbn [fst snd] in *.
      destruct segs0 as [|[gap m] segs1].
      * cbn [push fst snd rebuild] in *. subst tl0.
        exists []. split; [|constructor]. cbn [scan]. rewrite Hm.
        apply Forall2_nil_inv_l in Hrel as ->. by rewrite Hscan.
      * cbn [push fst snd rebuild map] in *.
        apply Forall_cons in Hall as [[t Ht] _].
        destruct (opening_tag_start _ _ Ht) as (v & N & Hv & Hg1).
        apply Forall2_cons_inv_l in Hrel as ([gap' m'] & l' & Hxy & Hrest & ->).
        assert (String c gap +:+ repl m +:+ rebuild repl segs1 tl0
                = String c (gap +:+ String "<"
                     (String v (N +:+ nv +:+ group m 3 +:+ rebuild repl segs1 tl0))))
          as -> by (unfold repl; rewrite Hg1; by reassoc).
        rewrite <- Hs' in Hm.
        cbn [scan]. rewrite (no_match_before _ _ _ _ _ Hv Hm).
        assert (gap +:+ String "<"
                  (String v (N +:+ nv +:+ group m 3 +:+ rebuild repl segs1 tl0))
                = gap +:+ repl m +:+ rebuild repl segs1 tl0)
          as -> by (unfold repl; rewrite Hg1; by reassoc).
        rewrite Hscan. cbn [push].
        eexists. split; [done|]. constructor; [|done].
        destruct Hxy as (Hgap & H1 & H2 & H3). cbn [fst snd] in *.
        unfold retagged. cbn [fst snd]. by rewrite Hgap.
Qed.

(** ** Rewriting the version declarations of a text *)

Lemma version_numerals v :
  nonneg v ->
  exists d0 d1 d2,
    SemVer_str v = d0 +:+ String "." (d1 +:+ String "." d2) /\
    numeral d0 /\ numeral d1 /\ numeral d2.
Proof.
  intros (H0 & H1 & H2).
  exists (Py.str_int (major v)), (Py.str_int (minor v)), (Py.str_int (patch v)).
  split; [done|]. rewrite !str_int_nonneg by done.
  destruct (str_nonneg_spec _ H0) as (? & ? & _).
  destruct (str_nonneg_spec _ H1) as (? & ? & _).
  destruct (str_nonneg_spec _ H2) as (? & ? & _).
  by repeat split.
Qed.

Lemma replace_version_rescan text v :
  nonneg v ->
  exists segs',
    scan VERSION_RE (fst (replace_version text (SemVer_str v))) 0
    = (segs', snd (scan VERSION_RE text 0)) /\
    Forall2 (retagged (SemVer_str v)) (fst (scan VERSION_RE text 0)) segs'.
Proof.
  intros (d0 & d1 & d2 & -> & Hd0 & Hd1 & Hd2)%version_numerals.
  destruct (scan_rewritten d0 d1 d2 Hd0 Hd1 Hd2 _ text (le_n _)) as (segs' & Hscan & Hrel).
  exists segs'. split; [|done]. unfold replace_version, subn.
  by destruct (scan VERSION_RE text 0).
Qed.

Lemma retagged_versions nv segs segs' :
  Forall2 (retagged nv) segs segs' ->
  map (fun m => group m 2) (map snd segs') = replicate (length segs) nv.
Proof.
  induction 1 as [|x y l l' (_ & _ & H2 & _) _ IH]; [done|].
  cbn [map length replicate]. by rewrite H2, IH.
Qed.

Lemma retagged_rebuild nv segs segs' tl :
  Forall2 (retagged nv) segs segs' ->
  rebuild (fun m => group m 1 +:+ nv +:+ group m 3) segs' tl
  = rebuild (fun m => group m 1 +:+ nv +:+ group m 3) segs tl.
Proof.
  induction 1 as [|[gap m] [gap' m'] l l' (H0 & H1 & _ & H3) _ IH]; [done|].
  cbn [fst snd] in *. cbn [rebuild]. by rewrite H0, H1, H3, IH.
Qed.

Lemma rewritten_uniform text v :
  nonneg v ->
  extract_versions (fst (replace_version text (SemVer_str v)))
  = replicate (length (extract_versions text)) (SemVer_str v).
Proof.
  intros Hv. destruct (replace_version_rescan text v Hv) as (segs' & Hscan & Hrel).
  unfold extract_versions, finditer. rewrite Hscan. cbn [fst].
  rewrite (retagged_versions _ _ _ Hrel). by rewrite !length_map.
Qed.

(** X14: after the declarations of a text are rewritten to a version with
    non-negative components, the text holds as many declarations as before
    and every one of them gives that version. *)
Theorem rewritten_declarations_uniform (text : string) (v : SemVer) :
  nonneg v ->
  extract_versions (fst (replace_version text (SemVer_str v)))
  = replicate (length (extract_versions text)) (SemVer_str v).
Proof. apply rewritten_uniform. Qed.

Lemma rewritten_declarations_uniform_witness :
  nonneg (mkSemVer 1 3 0) /\
  extract_versions (fst (replace_version text_other_version (SemVer_str (mkSemVer 1 3 0))))
  = replicate (length (extract_versions text_other_version)) (SemVer_str (mkSemVer 1 3 0)).
Proof.
  split; [unfold nonneg; cbn; lia|].
  apply (rewritten_declarations_uniform text_other_version (mkSemVer 1 3 0)).
  unfold nonneg; cbn; lia.
Defined.

(** X15: rewriting the declarations to a version with non-negative
    components a second time changes nothing: the same text comes back,
    with the same number of replacements. *)
Theorem replace_version_idempotent (text : string) (v : SemVer) :
  nonneg v ->
  replace_version (fst (replace_version text (SemVer_str v))) (SemVer_str v)
  = replace_version text (SemVer_str v).
Proof.
  intros Hv. destruct (replace_version_rescan text v Hv) as (segs' & Hscan & Hrel).
  unfold replace_version at 1. unfold subn. rewrite Hscan.
  rewrite (retagged_rebuild _ _ _ _ Hrel), <- (Forall2_length _ _ _ Hrel).
  unfold replace_version, subn. by destruct (scan VERSION_RE text 0).
Qed.

Lemma replace_version_idempotent_witness :
  nonneg (mkSemVer 1 3 0) /\
  replace_version (fst (replace_version text_versioned (SemVer_str (mkSemVer 1 3 0))))
                  (SemVer_str (mkSemVer 1 3 0))
  = replace_version text_versioned (SemVer_str (mkSemVer 1 3 0)).
Proof.
  split; [unfold nonneg; cbn; lia|].
  apply (replace_version_idempotent text_versioned (mkSemVer 1 3 0)).
  unfold nonneg; cbn; lia.
Defined.

Lemma append_cancel (a x y : string) : a +:+ x = a +:+ y -> x = y.
Proof.
  induction a as [|c a IH]; cbn [String.append]; [done|]. intros [= H]. by apply IH.
Qed.

Lemma span_unique f : forall a b s t,
  all_chars f a = true -> all_chars f b = true ->
  starts_outside f s = true -> starts_outside f t = true ->
  a +:+ s = b +:+ t -> a = b /\ s = t.
Proof.
  induction a as [|x a IH]; intros [|y b] s t Ha Hb Hs Ht H; cbn [String.append] in H.
  - done.
  - subst s. cbn in Hs, Hb. apply andb_true_iff in Hb as [Hy _]. by rewrite Hy in Hs.
  - subst t. cbn in Ht, Ha. apply andb_true_iff in Ha as [Hx _]. by rewrite Hx in Ht.
  - injection H as -> H. cbn in Ha, Hb.
    apply andb_true_iff in Ha as [_ Ha]. apply andb_true_iff in Hb as [_ Hb].
    by destruct (IH b s t Ha Hb Hs Ht H) as [-> ->].
Qed.

Lemma whole_groups t m :
  match_at VERSION_RE t = Some m ->
  whole m = group m 1 +:+ group m 2 +:+ group m 3.
Proof.
  intros H. apply version_match_parts in H
    as (o & ws1 & d0 & d1 & d2 & ws3 & c & _ & _ & _ & _ & _ & _ & _ & -> & _).
  done.
Qed.

Lemma rebuild_ext (f g : mtch -> string) segs tl :
  Forall (fun m => f m = g m) (map snd segs) ->
  rebuild f segs tl = rebuild g segs tl.
Proof.
  induction segs as [|[gap m] segs IH]; [done|]. cbn [map snd].
  intros [Hm Hrest]%Forall_cons. cbn [rebuild]. by rewrite Hm, IH.
Qed.

Lemma rebuild_same d0 d1 d2 :
  numeral d0 -> numeral d1 -> numeral d2 ->
  forall segs tl,
  Forall (fun m => exists t, match_at VERSION_RE t = Some m) (map snd segs) ->
  rebuild (fun m => group m 1 +:+ (d0 +:+ String "." (d1 +:+ String "." d2)) +:+ group m 3)
          segs tl
  = rebuild whole segs tl ->
  Forall (fun m => group m 2 = d0 +:+ String "." (d1 +:+ String "." d2)) (map snd segs).
Proof.
  intros [_ Hd0] [_ Hd1] [_ Hd2].
  induction segs as [|[gap m] segs IH]; intros tl Hall H; [constructor|].
  cbn [map snd] in *. apply Forall_cons in Hall as [[t Ht] Hall].
  cbn [rebuild] in H. apply append_cancel in H.
  apply version_match_parts in Ht
    as (o & ws1 & e0 & e1 & e2 & ws3 & c & _ & _ & [_ He0] & [_ He1] & [_ He2]
        & Hws3 & Hc & Hm & _).
  destruct (lit_head _ _ Hc) as (c' & Hceq & _).
  assert (group m 1 = o +:+ ws1 /\ group m 3 = ws3 +:+ c /\
          group m 2 = e0 +:+ String "." (e1 +:+ String "." e2) /\
          whole m = (o +:+ ws1) +:+ (e0 +:+ String "." (e1 +:+ String "." e2))
                      +:+ (ws3 +:+ c)) as (Hg1 & Hg3 & Hg2 & Hw) by (by rewrite Hm).
  rewrite Hg1, Hg3, Hw in H. clear Hm Hg1 Hg3 Hw.
  reassoc_in H. do 2 apply append_cancel in H.
  apply (span_unique Py.isdecimal) in H as [<- H]; [|done..].
  injection H as H.
  apply (span_unique Py.isdecimal) in H as [<- H]; [|done..].
  injection H as H.
  apply (span_unique Py.isdecimal) in H as [<- H]; [|done|done| |];
    [|apply spaces_start_outside_digits; [done | by subst c]..].
  do 2 apply append_cancel in H.
  constructor; [done|]. by apply (IH tl).
Qed.

Lemma unchanged_iff text v :
  nonneg v ->
  fst (replace_version text (SemVer_str v)) = text <->
  Forall (fun d => d = SemVer_str v) (extract_versions text).
Proof.
  intros (d0 & d1 & d2 & Hstr & Hd0 & Hd1 & Hd2)%version_numerals.
  unfold replace_version, subn, extract_versions, finditer.
  pose proof (scan_rebuild VERSION_RE _ text (le_n _)) as Htext.
  pose proof (scan_matches VERSION_RE text 0) as Hall.
  destruct (scan VERSION_RE text 0) as [segs tl]. cbn [fst snd] in *.
  rewrite Forall_map, <- Htext. clear Htext. split.
  - intros H. rewrite Hstr in *.
    by apply (rebuild_same d0 d1 d2 Hd0 Hd1 Hd2 segs tl).
  - intros H. apply rebuild_ext.
    apply Forall_forall. intros m Hm.
    destruct (proj1 (Forall_forall _ _) Hall m Hm) as [t Ht].
    rewrite (whole_groups _ _ Ht). by rewrite (proj1 (Forall_forall _ _) H m Hm).
Qed.

(** X16: rewriting to a version with non-negative components leaves a text
    as it was exactly when every declaration in it already gave that
    version. *)
Theorem unchanged_iff_already_target (text : string) (v : SemVer) :
  nonneg v ->
  fst (replace_version text (SemVer_str v)) = text <->
  (forall d, d ∈ extract_versions text -> d = SemVer_str v).
Proof. intros Hv. rewrite unchanged_iff by done. apply Forall_forall. Qed.

Lemma unchanged_iff_already_target_witness :
  nonneg (mkSemVer 1 3 0) /\
  (fst (replace_version text_versioned (SemVer_str (mkSemVer 1 3 0))) = text_versioned <->
   (forall d, d ∈ extract_versions text_versioned -> d = SemVer_str (mkSemVer 1 3 0))).
Proof.
  split; [unfold nonneg; cbn; lia|].
  apply (unchanged_iff_already_target text_versioned (mkSemVer 1 3 0)).
  unfold nonneg; cbn; lia.
Defined.

(** ** Line ends *)

Lemma universal_newlines_no_cr : forall n s,
  (String.length s <= n)%nat ->
  all_chars (not_char Py.CR) (Py.universal_newlines s) = true.
Proof.
  induction n as [|n IH]; intros [|c s] Hn; cbn [String.length] in Hn; try lia; try done.
  cbn [Py.universal_newlines]. destruct (Ascii.eqb c Py.CR) eqn:Hc; cbn [all_chars].
  - change (not_char Py.CR Py.LF) with true. cbn [andb].
    destruct s as [|c' s']; [done|]. cbn [String.length] in Hn.
    destruct (Ascii.eqb c' Py.LF); apply IH; cbn [String.length]; lia.
  - unfold not_char at 1. rewrite Hc. cbn [negb andb]. apply IH. lia.
Qed.

Lemma universal_newlines_id s :
  all_chars (not_char Py.CR) s = true -> Py.universal_newlines s = s.
Proof.
  induction s as [|c s IH]; [done|]. cbn [all_chars]. intros [Hc Hs]%andb_true_iff.
  cbn [Py.universal_newlines]. unfold not_char in Hc. apply negb_true_iff in Hc.
  by rewrite Hc, IH.
Qed.

Lemma file_text_no_cr f q : all_chars (not_char Py.CR) (file_text f q) = true.
Proof.
  unfold file_text. destruct (f !! q) as [[text|]|]; [|done..].
  by apply (universal_newlines_no_cr _ text (le_n _)).
Qed.

Lemma decimal_not_cr c : Py.isdecimal c = true -> not_char Py.CR c = true.
Proof. by_cases_on_char c. Qed.

Lemma version_str_no_cr v : nonneg v -> all_chars (not_char Py.CR) (SemVer_str v) = true.
Proof.
  intros (d0 & d1 & d2 & -> & [_ H0] & [_ H1] & [_ H2])%version_numerals.
  rewrite all_chars_app. cbn [all_chars]. rewrite all_chars_app. cbn [all_chars].
  rewrite (all_chars_impl _ _ d0 decimal_not_cr H0), (all_chars_impl _ _ d1 decimal_not_cr H1),
    (all_chars_impl _ _ d2 decimal_not_cr H2).
  done.
Qed.

Lemma rebuild_all_chars (P : ascii -> bool) nv : forall segs tl,
  Forall (fun m => exists t, match_at VERSION_RE t = Some m) (map snd segs) ->
  all_chars P nv = true ->
  all_chars P (rebuild whole segs tl) = true ->
  all_chars P (rebuild (fun m => group m 1 +:+ nv +:+ group m 3) segs tl) = true.
Proof.
  induction segs as [|[gap m] segs IH]; intros tl Hall Hnv H; [done|].
  cbn [map snd] in Hall. apply Forall_cons in Hall as [[t Ht] Hall].
  cbn [rebuild] in *. rewrite (whole_groups _ _ Ht) in H.
  rewrite !all_chars_app in H. rewrite !all_chars_app.
  apply andb_true_iff in H as [Hgap H]. apply andb_true_iff in H as [Hw Hrest].
  apply andb_true_iff in Hw as [Hg1 Hw]. apply andb_true_iff in Hw as [_ Hg3].
  by rewrite Hgap, Hg1, Hnv, Hg3, (IH tl Hall Hnv Hrest).
Qed.

(** A rewrite brings in no character that the text and the version do not
    have. *)
Lemma replace_version_all_chars (P : ascii -> bool) text nv :
  all_chars P text = true -> all_chars P nv = true ->
  all_chars P (fst (replace_version text nv)) = true.
Proof.
  intros Htext Hnv. unfold replace_version, subn.
  pose proof (scan_rebuild VERSION_RE _ text (le_n _)) as Hre.
  pose proof (scan_matches VERSION_RE text 0) as Hall.
  destruct (scan VERSION_RE text 0) as [segs tl]. cbn [fst snd] in *.
  apply rebuild_all_chars; [done..|]. by rewrite Hre.
Qed.

(** Reading a manifest after the rewrite gives the rewritten text. *)
Lemma rewrite_left_reads nv f f' q :
  all_chars (not_char Py.CR) nv = true ->
  rewrite_left nv f f' q ->
  file_text f' q = fst (replace_version (file_text f q) nv).
Proof.
  intros Hnv [Hchg Hsame].
  destruct (decide (fst (replace_version (file_text f q) nv) = file_text f q)) as [Heq|Hne].
  - unfold file_text at 1. rewrite (Hsame Heq). fold (file_text f q). by rewrite Heq.
  - unfold file_text at 1. rewrite (Hchg Hne). apply universal_newlines_id.
    apply replace_version_all_chars; [apply file_text_no_cr | done].
Qed.

(** X17: a successful version bump leaves every discovered manifest with
    as many declarations as it had, all giving the bumped version, and
    reports as changed exactly the discovered manifests that had a
    declaration giving another version. *)
Theorem bump_makes_versions_uniform (root : Path) (mode : string) (w : world) :
  mode ∈ ["major"; "minor"; "patch"] ->
  discovered (fs w) root <> [] ->
  forallb (is_file (fs w)) (discovered (fs w) root) = true ->
  forallb (has_version (fs w)) (discovered (fs w) root) = true ->
  exists base target changed w',
    bump_versions_in_projects root mode w = (Ok (base, target, changed), w') /\
    SemVer_bump base mode = Ok target /\
    (forall q, q ∈ discovered (fs w) root ->
       versions_in (fs w') q
       = replicate (length (versions_in (fs w) q)) (SemVer_str target)) /\
    (forall q, q ∈ changed <->
       q ∈ discovered (fs w) root /\
       exists d, d ∈ versions_in (fs w) q /\ d <> SemVer_str target).
Proof.
  intros Hmode Hne Hfiles Hvers.
  destruct (bump_success root mode w Hmode Hne Hfiles Hvers)
    as (base & target & w' & Hnn & _ & Hbump & Hrun & Hin & _ & _).
  eexists base, target, _, w'. split; [exact Hrun|]. split; [done|]. split.
  - intros q Hq. unfold versions_in.
    rewrite (rewrite_left_reads _ _ _ _ (version_str_no_cr _ Hnn) (Hin q Hq)).
    by apply rewritten_uniform.
  - intros q. rewrite list_elem_of_filter. unfold rewritten, versions_in.
    rewrite (unchanged_iff _ _ Hnn). split.
    + intros [Hnot Hq]. split; [done|].
      apply not_Forall_Exists in Hnot; [|intros d; apply _].
      apply Exists_exists in Hnot as (d & Hd & Hneq). by exists d.
    + intros [Hq (d & Hd & Hneq)]. split; [|done].
      intros Hall. by apply Hneq, (proj1 (Forall_forall _ _) Hall).
Qed.

Lemma bump_makes_versions_uniform_witness :
  let w := demo_world [(manifest_A, text_versioned); (manifest_C, text_other_version)] in
  exists base target changed w',
    bump_versions_in_projects demo_root "minor" w = (Ok (base, target, changed), w') /\
    SemVer_bump base "minor" = Ok target /\
    (forall q, q ∈ discovered (fs w) demo_root ->
       versions_in (fs w') q
       = replicate (length (versions_in (fs w) q)) (SemVer_str target)) /\
    (forall q, q ∈ changed <->
       q ∈ discovered (fs w) demo_root /\
       exists d, d ∈ versions_in (fs w) q /\ d <> SemVer_str target).
Proof.
  apply (bump_makes_versions_uniform demo_root "minor"
           (demo_world [(manifest_A, text_versioned); (manifest_C, text_other_version)])).
  - right. left.
  - by vm_compute.
  - by vm_compute.
  - by vm_compute.
Defined.

(** X12: when every discovered manifest is a readable file with a version
    declaration, the version-bump stage succeeds: it returns the base
    version, the bumped version and, in discovery order, the manifests whose
    text as read differs from the rewritten text.  Afterwards each of these
    is stored as the rewritten text (with [LF] line ends, whatever it had
    before), every other path is stored as before, reading any discovered
    manifest gives its rewritten text, and no external tool was run. *)
Theorem bump_rewrites_every_manifest (root : Path) (mode : string) (w : world) :
  mode ∈ ["major"; "minor"; "patch"] ->
  discovered (fs w) root <> [] ->
  forallb (is_file (fs w)) (discovered (fs w) root) = true ->
  forallb (has_version (fs w)) (discovered (fs w) root) = true ->
  exists base target changed w',
    base_of (fs w) (discovered (fs w) root) = Ok base /\
    SemVer_bump base mode = Ok target /\
    bump_versions_in_projects root mode w = (Ok (base, target, changed), w') /\
    changed = filter (fun q => rewritten (fs w) (SemVer_str target) q <> file_text (fs w) q)
                     (discovered (fs w) root) /\
    (forall q, q ∈ changed ->
               fs w' !! q = Some (File (rewritten (fs w) (SemVer_str target) q))) /\
    (forall q, q ∉ changed -> fs w' !! q = fs w !! q) /\
    (forall q, q ∈ discovered (fs w) root ->
               file_text (fs w') q = rewritten (fs w) (SemVer_str target) q) /\
    ext not_exec w w'.
Proof.
  intros Hmode Hne Hfiles Hvers.
  destruct (bump_success root mode w Hmode Hne Hfiles Hvers)
    as (base & target & w' & Hnn & Hbase & Hbump & Hrun & Hin & Hout & Hext).
  eexists base, target, _, w'. split; [done|]. split; [done|]. split; [exact Hrun|].
  split; [done|]. split; [|split; [|split; [|done]]].
  - intros q [Hchg Hq]%list_elem_of_filter. by apply (Hin q Hq).
  - intros q Hq. destruct (decide (q ∈ discovered (fs w) root)) as [Hd|Hd]; [|by apply Hout].
    apply (Hin q Hd).
    destruct (decide (rewritten (fs w) (SemVer_str target) q = file_text (fs w) q))
      as [Heq|Hneq]; [done|].
    destruct Hq. by apply list_elem_of_filter.
  - intros q Hq. by apply rewrite_left_reads; [apply version_str_no_cr | apply Hin].
Qed.

Lemma bump_rewrites_every_manifest_witness :
  let w := demo_world [(manifest_A, text_crlf); (manifest_C, text_other_version)] in
  exists base target changed w',
    base_of (fs w) (discovered (fs w) demo_root) = Ok base /\
    SemVer_bump base "patch" = Ok target /\
    bump_versions_in_projects demo_root "patch" w = (Ok (base, target, changed), w') /\
    changed = filter (fun q => rewritten (fs w) (SemVer_str target) q <> file_text (fs w) q)
                     (discovered (fs w) demo_root) /\
    (forall q, q ∈ changed ->
               fs w' !! q = Some (File (rewritten (fs w) (SemVer_str target) q))) /\
    (forall q, q ∉ changed -> fs w' !! q = fs w !! q) /\
    (forall q, q ∈ discovered (fs w) demo_root ->
               file_text (fs w') q = rewritten (fs w) (SemVer_str target) q) /\
    ext not_exec w w'.
Proof.
  apply (bump_rewrites_every_manifest demo_root "patch"
           (demo_world [(manifest_A, text_crlf); (manifest_C, text_other_version)])).
  - right. right. left.
  - by vm_compute.
  - by vm_compute.
  - by vm_compute.
Defined.

(** ** A version bump that fails part of the way *)

(** C10: the rewrite stage is not atomic.  When the stage raises at a
    manifest that is not the first in discovery order, the script ends with
    exit status 1 after reporting the missing declaration, and every earlier
    manifest that had a declaration giving another version than the target
    has been written and not rolled back: the content stored for it when
    the script ends differs from the text it had and is that text with every
    declaration set to the target.  Every other path, the earlier manifests
    that already gave the target, the failing manifest and the later ones
    among them, is stored as before. *)
Theorem failed_bump_leaves_rewritten_manifests (E : env) (w : world) (argv : list string)
    (mode : string) (root : Path) (pre : list Path) (p : Path) (post : list Path) :
  bump_setup E w argv mode root ->
  discovered (fs w) root = pre ++ p :: post ->
  pre <> [] ->
  forallb (is_file (fs w)) (discovered (fs w) root) = true ->
  forallb (has_version (fs w)) pre = true ->
  has_version (fs w) p = false ->
  exists base target rel w',
    base_of (fs w) (discovered (fs w) root) = Ok base /\
    SemVer_bump base mode = Ok target /\
    relative_to p root = Some rel /\
    script E argv w = (Ok 1, w') /\
    EvStderr ("Error: " +:+ missing_version_msg rel) ∈ trace w' /\
    (forall q, q ∈ pre ->
       (exists d, d ∈ versions_in (fs w) q /\ d <> SemVer_str target) ->
       exists new,
         new = rewritten (fs w) (SemVer_str target) q /\
         new <> file_text (fs w) q /\
         extract_versions new
         = replicate (length (versions_in (fs w) q)) (SemVer_str target) /\
         EvWrite q new ∈ trace w' /\
         fs w' !! q = Some (File new)) /\
    (forall q,
       (q ∈ pre -> forall d, d ∈ versions_in (fs w) q -> d = SemVer_str target) ->
       fs w' !! q = fs w !! q).
Proof.
  intros Hsetup Hdisc Hne Hfiles Hpre Hp.
  destruct (main_enters_bump E w argv mode root Hsetup) as (w2 & Hfs2 & Hext2 & Hmain).
  destruct Hsetup as (a0 & arg1 & arg2 & -> & Hmode & Hin & Hkey & Hroot).
  destruct (bump_stops root mode pre p post w2) as (rel & w' & Hrel & Hext & Hres);
    rewrite ?Hfs2; try done.
  rewrite Hfs2 in Hres.
  assert (existsb (has_version (fs w)) (discovered (fs w) root) = true) as Hsome.
  { rewrite Hdisc. destruct pre as [|q pre]; [done|]. cbn in *.
    apply andb_true_iff in Hpre as [-> _]. done. }
  rewrite Hsome in Hres.
  destruct Hres as (base & target & Hbase & Htarget & Hbump & Hnn & Hprefix & Hrest).
  pose proof (script_after_runtime_error E _ w _ w' (Hmain _ _ Hbump)) as Hscript.
  eexists base, target, rel, _. split; [done|]. split; [done|]. split; [done|].
  split; [exact Hscript|]. cbn [fs trace]. split; [|split].
  { apply elem_of_app. right. left. }
  - intros q Hq (d & Hd & Hneq). destruct (Hprefix q Hq) as [[Hleft _] Hwritten].
    assert (rewritten (fs w) (SemVer_str target) q <> file_text (fs w) q) as Hchg.
    { intros Hsame%(unchanged_iff _ _ Hnn).
      by apply Hneq, (proj1 (Forall_forall _ _) Hsame). }
    exists (rewritten (fs w) (SemVer_str target) q). split; [done|]. split; [done|].
    split; [by apply rewritten_uniform|]. split.
    + apply elem_of_app. left. by apply Hwritten.
    + by apply Hleft.
  - intros q Hq. destruct (decide (q ∈ pre)) as [Hin'|Hout]; [|by apply Hrest].
    destruct (Hprefix q Hin') as [[_ Hkeep] _]. apply Hkeep.
    apply (unchanged_iff _ _ Hnn), Forall_forall. by apply Hq.
Qed.

Lemma failed_bump_leaves_rewritten_manifests_witness :
  let w := demo_world [(manifest_A, text_crlf); (manifest_B, text_unversioned)] in
  exists w' new,
    script (demo_env 0) ["publish.py"; "minor"; "key"] w = (Ok 1, w') /\
    new = rewritten (fs w) "1.3.0" manifest_A /\
    new <> file_text (fs w) manifest_A /\
    extract_versions new = ["1.3.0"] /\
    EvWrite manifest_A new ∈ trace w' /\
    fs w' !! manifest_A = Some (File new) /\
    fs w' !! manifest_B = fs w !! manifest_B.
Proof.
  intros w.
  destruct (failed_bump_leaves_rewritten_manifests (demo_env 0) w
              ["publish.py"; "minor"; "key"] "minor" demo_root [manifest_A] manifest_B [])
    as (base & target & rel & w' & Hbase & Htarget & _ & Hscript & _ & Hpre & Hrest).
  - exists "publish.py", "minor", "key". repeat split; try by vm_compute.
    right. left.
  - by vm_compute.
  - done.
  - by vm_compute.
  - by vm_compute.
  - by vm_compute.
  - vm_compute in Hbase. injection Hbase as <-.
    vm_compute in Htarget. injection Htarget as <-.
    destruct (Hpre manifest_A) as (new & -> & Hchg & _ & Hwr & Hfs).
    { left. }
    { exists "1.2.3". split; [vm_compute; left | by vm_compute]. }
    exists w', (rewritten (fs w) (SemVer_str (mkSemVer 1 3 0)) manifest_A).
    split; [exact Hscript|]. split; [vm_compute; reflexivity|]. split; [exact Hchg|].
    split; [vm_compute; reflexivity|]. split; [exact Hwr|]. split; [exact Hfs|].
    apply Hrest. intros Hin. apply elem_of_cons in Hin as [Heq|Hin]; [by vm_compute in Heq|].
    apply elem_of_nil in Hin. destruct Hin.
Defined.

(** ** The order of the stages *)

Lemma phased_first {A} P Q (m : M A) : respects (ext P) m -> phased P Q m.
Proof. intros H w. exists (snd (m w)). split; [apply H | reflexivity]. Qed.

Lemma phased_last {A} P Q (m : M A) : respects (ext Q) m -> phased P Q m.
Proof. intros H w. exists w. split; [reflexivity | apply H]. Qed.

Lemma phased_bind {A B} P Q (m : M A) (k : A -> M B) :
  respects (ext P) m -> (forall a, phased P Q (k a)) -> phased P Q (bind m k).
Proof.
  intros Hm Hk w. rewrite bind_eq. specialize (Hm w).
  destruct (m w) as [[a|e] w']; cbn [snd] in Hm.
  - destruct (Hk a w') as (w1 & H1 & H2). exists w1. split; [by etrans | done].
  - exists w'. split; [done | reflexivity].
Qed.

Ltac stage_without_git lem :=
  apply lem; intros; apply ext_step;
  first [ done | match goal with H : is_output ?e |- _ => by destruct e end ].

Lemma no_git_print line : respects (ext no_git) (print line).
Proof. intros w. by apply ext_step. Qed.

Lemma no_git_eprint line : respects (ext no_git) (eprint line).
Proof. intros w. by apply ext_step. Qed.

Lemma no_git_bump root mode : respects (ext no_git) (bump_versions_in_projects root mode).
Proof.
  intros w. destruct (bump_touches_only root mode w) as [H _].
  eapply ext_impl; [|exact H]. by intros [].
Qed.

Lemma git_only_print line : respects (ext git_or_output) (print line).
Proof. intros w. by apply ext_step. Qed.

Lemma git_only_run E cmd dir redact :
  is_git cmd = true -> respects (ext git_or_output) (run E cmd dir redact).
Proof.
  intros Hg w. destruct (run_outcome E cmd dir redact w) as [line ->]. cbn [snd].
  eexists [_; _]. split; [done|]. by repeat constructor.
Qed.

Lemma relative_paths_outcome (root : Path) : forall (l : list Path) (w : world),
  exists r,
    (fix rels (l : list Path) : M (list string) :=
       match l with
       | [] => ret []
       | p :: l' =>
           let! r := rel_of p root in
           let! rs := rels l' in
           ret (rel_str r :: rs)
       end) l w = (r, w).
Proof.
  induction l as [|p l IH]; intros w; [by eexists|].
  rewrite bind_eq. unfold rel_of at 1.
  destruct (relative_to p root) as [rel|]; cbn [ret raise]; [|by eexists].
  rewrite bind_eq. destruct (IH w) as [[rs|e] ->]; by eexists.
Qed.

Lemma git_only_commit_stage E root changed mode :
  respects (ext git_or_output) (git_commit_version_bump E root changed mode).
Proof.
  intros w. unfold git_commit_version_bump. cbv zeta. rewrite bind_eq. cbn [get_fs].
  destruct (negb _); [reflexivity|].
  destruct changed as [|c cs]; [by apply ext_step|].
  rewrite bind_eq. destruct (relative_paths_outcome root (c :: cs) w) as [r ->].
  destruct r as [rels|e]; [|reflexivity].
  apply (respects_bind (ext git_or_output)); [by apply git_only_run|].
  intros _. by apply git_only_run.
Qed.

(** X18: every run of [main] falls into two parts: in the first no
    version-control command is run, and in the second nothing happens but
    version-control commands and printed lines.  So once the commit stage
    has begun, nothing is built, packed, pushed, written or removed. *)
Theorem commit_comes_last (E : env) (argv : list string) (w : world) :
  exists w1, ext no_git w w1 /\ ext git_or_output w1 (snd (main E argv w)).
Proof.
  revert w. change (phased no_git git_or_output (main E argv)).
  assert (forall line1 line2,
            phased no_git git_or_output (eprint line1 ;; eprint line2 ;; ret 2)) as Husage.
  { intros. apply phased_first.
    apply respects_bind; [apply _..|apply no_git_eprint|]. intros _.
    apply respects_bind; [apply _..|apply no_git_eprint|]. intros _.
    apply respects_ret; apply _. }
  unfold main. destruct argv as [|a0 [|a1 [|a2 [|a3 argv]]]]; try apply Husage.
  cbv zeta. destruct (negb (bool_decide _)); [apply Husage|].
  destruct (String.eqb _ EmptyString).
  { apply phased_first. apply respects_bind; [apply _..|apply no_git_eprint|]. intros _.
    apply respects_ret; apply _. }
  apply phased_bind; [stage_without_git (respects_find_repo_root E (ext no_git))|].
  intros root.
  apply phased_bind; [stage_without_git (respects_find_solution_file (ext no_git))|].
  intros sln.
  do 3 (apply phased_bind; [apply no_git_print|]; intros _).
  apply phased_bind.
  { destruct (negb _).
    - apply respects_bind; [apply _..|apply no_git_bump|]. intros bumped.
      apply respects_bind; [apply _..|apply no_git_print|]. intros _.
      apply respects_ret; apply _.
    - apply respects_bind; [apply _..|apply no_git_print|]. intros _.
      apply respects_ret; apply _. }
  intros changed.
  apply phased_bind; [stage_without_git (respects_build_solution E (ext no_git))|].
  intros _.
  apply phased_bind; [stage_without_git (respects_clean (ext no_git))|].
  intros out_dir.
  apply phased_bind; [stage_without_git (respects_pack_projects E (ext no_git))|].
  intros packages.
  apply phased_bind; [stage_without_git (respects_push_packages E (ext no_git))|].
  intros _. apply phased_last.
  apply respects_bind; [apply _..| |].
  { destruct (negb _); [apply git_only_commit_stage | apply respects_ret; apply _]. }
  intros _. apply respects_bind; [apply _..|apply git_only_print|]. intros _.
  apply respects_ret; apply _.
Qed.

(** ** A publish-only run *)

#[global] Instance same_execs_reflexive : Reflexive same_execs.
Proof. by intros w. Qed.

#[global] Instance same_execs_transitive : Transitive same_execs.
Proof. intros a b c H1 H2. unfold same_execs in *. by rewrite H2. Qed.








